(** * Verification of the Krystal deployment script (scripts/deployLogic.ts)

    The script deploys the smart-wallet contracts and then reconciles what
    is stored on chain with the per-network configuration.  Everything it
    does to the outside world goes through hardhat/ethers, the Gnosis Safe
    SDK and the console.  The embedding below keeps the script's control
    flow as it is written and makes every such call an [action] answered
    by an arbitrary [Platform]; each run yields the ordered trace of the
    calls made, which is what the specification talks about. *)

From Stdlib Require Import String Ascii List ZArith NArith Lia Bool.
From stdpp Require Import base option list strings gmap pretty.
From Equations Require Import Equations.

Local Open Scope string_scope.
Local Open Scope list_scope.

(* ===================================================================== *)
(** * JavaScript values and built-ins used by the script                  *)
(* ===================================================================== *)

Module JS.

(** [String.prototype.toLowerCase], on the ASCII range the addresses
    live in: only 'A'..'Z' move. *)
Definition lower_ascii (c : ascii) : ascii :=
  let n := nat_of_ascii c in
  if (65 <=? n)%nat && (n <=? 90)%nat then ascii_of_nat (n + 32) else c.

Fixpoint toLowerCase (s : string) : string :=
  match s with
  | EmptyString => EmptyString
  | String c s' => String (lower_ascii c) (toLowerCase s')
  end.

(** [Array.prototype.includes] on an array of strings. *)
Fixpoint includes (l : list string) (x : string) : bool :=
  match l with
  | [] => false
  | y :: l' => if String.eqb y x then true else includes l' x
  end.

(** [String.prototype.slice(start, end)] for non-negative indices:
    the characters at positions [start <= i < end], clamped to the
    length of the string. *)
Definition slice (start stop : nat) (s : string) : string :=
  substring start (stop - start) s.

(** The value of a truthy [string | undefined], if it is one. *)
Definition defined (o : option string) : option string :=
  match o with
  | Some s => if String.eqb s "" then None else Some s
  | None => None
  end.

(** Truthiness of a [string | undefined]: [undefined] and the empty
    string are falsy. *)
Definition truthy (o : option string) : bool :=
  match defined o with
  | Some _ => true
  | None => false
  end.

(** [a || b] where [a : string | undefined] and [b : string]. *)
Definition or_else (a : option string) (b : string) : string :=
  match a with
  | Some s => if String.eqb s "" then b else s
  | None => b
  end.

(** [a ?? b]. *)
Definition nullish {A} (a : option A) (b : A) : A :=
  match a with Some x => x | None => b end.

End JS.

(* ===================================================================== *)
(** * Data                                                                *)
(* ===================================================================== *)

(** A thrown JavaScript error. *)
Record Error := mkError { message : string }.

(** Result of running a piece of script: a value, or a thrown error. *)
Inductive Outcome (A : Type) : Type :=
| Ok (a : A)
| Throw (e : Error).
Arguments Ok {A} a.
Arguments Throw {A} e.

(** ethers' [TransactionResponse] and receipt, with the fields
    [printInfo] reads. *)
Record TransactionResponse := { hash : string; gasPrice : N }.
Record TransactionReceipt := { gasUsed : N }.

(** ethers' [Contract]: the script reads [address] and, after a
    deployment, [deployTransaction] (absent on an attached contract). *)
Record Contract := {
  address : string;
  deployTransaction : option TransactionResponse
}.

Record ContractFactory := { factoryOf : string }.

(** [factory.attach(address)]: a handle on an existing contract. *)
Definition attach (_ : ContractFactory) (addr : string) : Contract :=
  {| address := addr; deployTransaction := None |}.

Inductive Signer := SignerHandle (n : nat).
Inductive SafeSdk := SafeSdkHandle (n : nat).
Inductive SafeTransaction := SafeTransactionHandle (n : nat).

Inductive OperationType := Call | DelegateCall.

(** The argument of [safeSdk.createTransaction]. *)
Record SafeTransactionData := {
  safe_to : string;
  safe_value : string;
  safe_data : string;
  safe_operation : OperationType
}.

(** ethers' [PopulatedTransaction]; every field is optional. *)
Record PopulatedTransaction := {
  txn_to : option string;
  txn_from : option string;
  txn_data : option string;
  txn_value : option N;
  txn_gasLimit : option N
}.

(** The overrides object [{gasLimit, ...extraArgs}]. *)
Record ExtraArgs := { from : option string }.
Record Overrides := { ov_gasLimit : N; ov_from : option string }.

(** Constructor arguments ([...args: any[]]): addresses and lists of
    addresses are all the script passes. *)
Inductive Arg :=
| ArgString (s : string)
| ArgList (l : list string).

(** [zeroAddress] is imported from test/helper.ts, which is not among the
    sources; it is taken to be what its name says.  No result below
    depends on its value. *)
Definition zeroAddress : string := "0x0000000000000000000000000000000000000000".

Definition gasLimit : N := 700000.

(** ** The per-network configuration

    Modelled from the spec: the declaration of [IConfig] and
    [IAaveV2Config] (scripts/config_utils.ts) is not among the sources;
    the records below hold the "per-network configuration record (routers,
    token lists, wallet lists, referral codes)" with exactly the fields
    deployLogic.ts reads. *)
Module Uniswap.
Record Config := { routers : list string }.
End Uniswap.

Module KyberProxy.
Record Config := { proxy : string }.
End KyberProxy.

Module KyberDmm.
Record Config := { router : string }.
End KyberDmm.

Module Compound.
Record Config := {
  compTroller : string;
  cNative : string;
  cTokens : list string
}.
End Compound.

Module AaveV1.
Record Config := {
  poolV1 : string;
  poolCoreV1 : string;
  referralCode : N;
  tokens : list string
}.
End AaveV1.

Module AaveV2.
Record Config := {
  provider : string;
  poolV2 : string;
  referralCode : N;
  weth : string;
  tokens : list string
}.
End AaveV2.

Module Cfg.
Record IConfig := {
  autoVerifyContract : bool;
  supportedWallets : list string;
  uniswap : option Uniswap.Config;
  uniswapV3 : option Uniswap.Config;
  kyberProxy : option KyberProxy.Config;
  kyberDmm : option KyberDmm.Config;
  compound : option Compound.Config;
  aaveV1 : option AaveV1.Config;
  aaveV2 : option AaveV2.Config;
  aaveAMM : option AaveV2.Config
}.
End Cfg.

(** ** The deployed contracts ([KrystalContracts]) *)
Record SwapContracts := {
  uniSwap : option Contract;
  uniSwapV3 : option Contract;
  kyberProxy : option Contract;
  kyberDmm : option Contract
}.

Record LendingContracts := {
  compoundLending : option Contract;
  aaveV1 : option Contract;
  aaveV2 : option Contract;
  aaveAMM : option Contract
}.

Record KrystalContracts := {
  smartWalletImplementation : Contract;
  smartWalletProxy : Contract;
  fetchTokenBalances : Contract;
  fetchAaveDataWrapper : Contract;
  swapContracts : SwapContracts;
  lendingContracts : LendingContracts
}.

(** The addresses of an earlier deployment ([existingContract]), at the
    paths [deployContracts] looks up. *)
Module Existing.
Record Swaps := {
  uniSwap : option string;
  uniSwapV3 : option string;
  kyberProxy : option string;
  kyberDmm : option string
}.
Record Lendings := {
  compoundLending : option string;
  aaveV1Lending : option string;
  aaveV2Lending : option string;
  aaveAMMLending : option string
}.
Record t := {
  smartWalletImplementation : option string;
  smartWalletProxy : option string;
  fetchTokenBalances : option string;
  fetchAaveDataWrapper : option string;
  swapContracts : option Swaps;
  lendingContracts : option Lendings
}.
End Existing.

(** [Object.values(o)] of the two contract records, in key order. *)
Definition swap_values (s : SwapContracts) : list (option Contract) :=
  [uniSwap s; uniSwapV3 s; kyberProxy s; kyberDmm s].

Definition lending_values (l : LendingContracts) : list (option Contract) :=
  [compoundLending l; aaveV1 l; aaveV2 l; aaveAMM l].

(** [.filter((c) => c)] on such a list. *)
Fixpoint filter_defined {A} (l : list (option A)) : list A :=
  match l with
  | [] => []
  | Some x :: l' => x :: filter_defined l'
  | None :: l' => filter_defined l'
  end.

(** ** Nested objects, for [convertToAddressObject]

    What the function is declared on: [undefined], a leaf, an array or a
    record with string keys (in property order).  Leaves are contracts in
    the input and address strings in the output. *)
#[local] Unset Elimination Schemes.
Inductive Obj (L : Type) : Type :=
| OUndefined
| OLeaf (x : L)
| OArray (items : list (Obj L))
| ORecord (fields : list (string * Obj L)).
Arguments OUndefined {L}.
Arguments OLeaf {L} x.
Arguments OArray {L} items.
Arguments ORecord {L} fields.
#[local] Set Elimination Schemes.

Module Object.

(** A measure on nested objects: every container is strictly larger
    than anything a property lookup on it can return. *)
Fixpoint size {L} (o : Obj L) : nat :=
  match o with
  | OUndefined => 1
  | OLeaf _ => 1
  | OArray items => 2 + list_sum (map size items)
  | ORecord fields =>
      2 + list_sum (map (fun kv => match kv with (_, v) => size v end) fields)
  end.

(** [Array.prototype.join(",")] given the rendering of each element. *)
Fixpoint join (parts : list string) : string :=
  match parts with
  | [] => ""
  | [p] => p
  | p :: rest => p ++ "," ++ join rest
  end.

(** [String(v)], the property key that [obj[v]] uses.  Contracts and
    records are plain objects; an array is the join of its elements,
    with [undefined] elements rendered empty. *)
Fixpoint toString {L} (o : Obj L) : string :=
  match o with
  | OUndefined => "undefined"
  | OLeaf _ => "[object Object]"
  | ORecord _ => "[object Object]"
  | OArray items =>
      join (map (fun x => match x with
                          | OUndefined => ""
                          | _ => toString x
                          end) items)
  end.

Definition is_digit (c : ascii) : bool :=
  let n := nat_of_ascii c in (48 <=? n)%nat && (n <=? 57)%nat.

Fixpoint digits_value (acc : nat) (s : string) : option nat :=
  match s with
  | EmptyString => Some acc
  | String c s' =>
      if is_digit c then digits_value (10 * acc + (nat_of_ascii c - 48)) s'
      else None
  end.

(** A property key is an array index when it is the canonical decimal
    form of a number: digits only, no leading zero except "0". *)
Definition array_index (key : string) : option nat :=
  match key with
  | EmptyString => None
  | String c rest =>
      if Ascii.eqb c "0" then
        match rest with EmptyString => Some 0%nat | _ => None end
      else digits_value 0 key
  end.

(** [items[key]]: an element when the key is an index in range,
    [undefined] otherwise.  (The keys that occur are renderings of
    values of the model, made of "undefined", "[object Object]" and
    commas: never "length" nor the name of an inherited property.) *)
Definition array_get {L} (items : list (Obj L)) (key : string) : Obj L :=
  match array_index key with
  | Some i => nth i items OUndefined
  | None => OUndefined
  end.

(** [fields[key]] on a record. *)
Fixpoint record_get {L} (fields : list (string * Obj L)) (key : string) : Obj L :=
  match fields with
  | [] => OUndefined
  | (k, v) :: rest => if String.eqb k key then v else record_get rest key
  end.

(** [ret[key] = v]: overwrite in place, or add the property last. *)
Fixpoint record_set {L} (fields : list (string * Obj L)) (key : string) (v : Obj L)
  : list (string * Obj L) :=
  match fields with
  | [] => [(key, v)]
  | (k, w) :: rest =>
      if String.eqb k key then (k, v) :: rest
      else (k, w) :: record_set rest key v
  end.

(** The keys a [for (let k in obj)] loop visits. *)
Definition keys {L} (fields : list (string * Obj L)) : list string :=
  map fst fields.

Lemma size_nth {L} (items : list (Obj L)) i :
  size (nth i items OUndefined) <= 1 + list_sum (map size items).
Proof.
  revert i. induction items as [|x items IH]; intros [|i]; simpl; try lia.
  specialize (IH i). lia.
Qed.

Lemma size_array_get {L} (items : list (Obj L)) key :
  size (array_get items key) < size (OArray items).
Proof.
  unfold array_get. destruct (array_index key) as [i|]; simpl; [|lia].
  pose proof (size_nth items i). lia.
Qed.

Lemma size_record_get {L} (fields : list (string * Obj L)) key :
  size (record_get fields key) < size (ORecord fields).
Proof.
  induction fields as [|[k v] rest IH]; simpl in *; [lia|].
  destruct (String.eqb k key); lia.
Qed.

End Object.

(** [convertToAddressObject] (deployLogic.ts, lines 545-559). *)
Equations? convertToAddressObject (obj : Obj Contract) : Obj string
  by wf (Object.size obj) lt :=
  convertToAddressObject OUndefined := OUndefined;
  convertToAddressObject (OLeaf c) := OLeaf (address c);
  convertToAddressObject (OArray items) :=
    OArray (map (fun k => convertToAddressObject
                            (Object.array_get items (Object.toString k))) items);
  convertToAddressObject (ORecord fields) :=
    ORecord (fold_left
               (fun ret k => Object.record_set ret k
                               (convertToAddressObject (Object.record_get fields k)))
               (Object.keys fields) []).
Proof.
  - apply Object.size_array_get.
  - apply Object.size_record_get.
Qed.

(** What the specification says [convertToAddressObject] computes: the
    same object, with every contract replaced by its address. *)
Fixpoint address_tree (obj : Obj Contract) : Obj string :=
  match obj with
  | OUndefined => OUndefined
  | OLeaf c => OLeaf (address c)
  | OArray items => OArray (map address_tree items)
  | ORecord fields =>
      ORecord (map (fun kv => match kv with (k, v) => (k, address_tree v) end) fields)
  end.

(** Objects without arrays whose records have distinct keys. *)
Fixpoint plain (obj : Obj Contract) : Prop :=
  match obj with
  | OUndefined => True
  | OLeaf _ => True
  | OArray _ => False
  | ORecord fields =>
      NoDup (Object.keys fields) /\
      (fix all (l : list (string * Obj Contract)) : Prop :=
         match l with
         | [] => True
         | (_, v) :: l' => plain v /\ all l'
         end) fields
  end.

(** The [KrystalContracts] value as the object the summary prints. *)
Definition opt_obj (c : option Contract) : Obj Contract :=
  match c with Some c => OLeaf c | None => OUndefined end.

Definition contracts_object (k : KrystalContracts) : Obj Contract :=
  ORecord
    [("smartWalletImplementation", OLeaf (smartWalletImplementation k));
     ("smartWalletProxy", OLeaf (smartWalletProxy k));
     ("fetchTokenBalances", OLeaf (fetchTokenBalances k));
     ("fetchAaveDataWrapper", OLeaf (fetchAaveDataWrapper k));
     ("swapContracts",
      ORecord [("uniSwap", opt_obj (uniSwap (swapContracts k)));
               ("uniSwapV3", opt_obj (uniSwapV3 (swapContracts k)));
               ("kyberProxy", opt_obj (kyberProxy (swapContracts k)));
               ("kyberDmm", opt_obj (kyberDmm (swapContracts k)))]);
     ("lendingContracts",
      ORecord [("compoundLending", opt_obj (compoundLending (lendingContracts k)));
               ("aaveV1", opt_obj (aaveV1 (lendingContracts k)));
               ("aaveV2", opt_obj (aaveV2 (lendingContracts k)));
               ("aaveAMM", opt_obj (aaveAMM (lendingContracts k)))])].

(* ===================================================================== *)
(** * The outside world                                                   *)
(* ===================================================================== *)

(** Contract methods the script uses: views returning one address (or
    raw data), views returning an address list, and the state-changing
    methods it builds transactions for. *)
Module Abi.

Inductive View :=
| implementation
| proxyContract
| kyberProxy
| dmmRouter
| compoundData.

Inductive ListView :=
| getAllSupportedPlatformWallets
| getAllSupportedSwaps
| getAllSupportedLendings
| getAllUniRouters.

Inductive Method :=
| updateNewImplementation (impl : string)
| updateSupportedPlatformWallets (wallets : list string) (isSupported : bool)
| updateSupportedSwaps (addresses : list string) (isSupported : bool)
| updateSupportedLendings (addresses : list string) (isSupported : bool)
| updateProxyContract (proxy : string)
| updateUniRouters (routers : list string) (isSupported : bool)
| updateKyberProxy (proxy : string)
| updateDmmRouter (router : string)
| updateCompoundData (compTroller cNative : string) (cTokens : list string)
| updateAaveDataV1 (poolV1 poolCoreV1 : string) (referralCode : N)
                   (tokens : list string)
| updateAaveDataV2 (provider poolV2 : string) (referralCode : N)
                   (weth : string) (tokens : list string).

End Abi.

(** Every call the script makes on hardhat, ethers and the Safe SDK
    ([sleep] is the helper of test/helper.ts, a timer). *)
Inductive action :=
| getSigners
| getAddress (signer : Signer)
| getContractFactory (contractName : string)
| factory_deploy (factory : ContractFactory) (args : list Arg)
| deployed (contract : Contract)
| wait (tx : TransactionResponse) (confirmations : nat)
| sleep (ms : N)
| run_verify (addr : string) (constructorArguments : list Arg)
| call (contract : Contract) (view : Abi.View)
| call_list (contract : Contract) (view : Abi.ListView)
| populateTransaction (contract : Contract) (method : Abi.Method)
                      (overrides : option Overrides)
| sendTransaction (signer : Signer) (txn : PopulatedTransaction)
| EthersSafe_create (safeAddress : string) (providerOrSigner : option Signer)
| createTransaction (safeSdk : SafeSdk) (data : SafeTransactionData)
| executeTransaction (safeSdk : SafeSdk) (safeTransaction : SafeTransaction).

(** What each call resolves to when it does not throw. *)
Definition resp (a : action) : Type :=
  match a with
  | getSigners => list Signer
  | getAddress _ => string
  | getContractFactory _ => ContractFactory
  | factory_deploy _ _ => Contract
  | deployed _ => Contract
  | wait _ _ => TransactionReceipt
  | sleep _ => unit
  | run_verify _ _ => unit
  | call _ _ => string
  | call_list _ _ => list string
  | populateTransaction _ _ _ => PopulatedTransaction
  | sendTransaction _ _ => TransactionResponse
  | EthersSafe_create _ _ => SafeSdk
  | createTransaction _ _ => SafeTransaction
  | executeTransaction _ _ => TransactionResponse
  end.

(** The chain, the node and the signing service: any state, and any
    answer (or failure) to each call. *)
Class Platform := {
  World : Type;
  oracle : forall a : action, World -> (Error + resp a) * World
}.

(** What [JSON.stringify(_, null, 2)] is applied to; the rendering
    itself is not modelled. *)
Inductive Stringified :=
| json_kyberProxy (c : KyberProxy.Config)
| json_kyberDmm (c : KyberDmm.Config)
| json_compound (c : Compound.Config)
| json_aaveV1 (c : AaveV1.Config)
| json_aaveV2 (c : option AaveV2.Config)
| json_addresses (o : Obj string).

(** Arguments of [console.log]. *)
Inductive LogArg :=
| LStr (s : string)
| LList (l : list string)
| LError (e : Error)
| LJson (j : Stringified).

(** One observable step of a run. *)
Inductive entry :=
| Called (a : action) (r : Error + resp a)
| Printed (args : list LogArg).

(* ===================================================================== *)
(** * The script monad: state, exceptions and the trace                   *)
(* ===================================================================== *)

Section Monad.
Context `{P : Platform}.

(** The world plus the module-level variable [prevLevel]. *)
Record State := { world : World; prevLevel : option nat }.

Record Run (A : Type) := mkRun {
  outcome : Outcome A;
  final : State;
  trace : list entry
}.
Arguments mkRun {A} _ _ _.
Arguments outcome {A} _.
Arguments final {A} _.
Arguments trace {A} _.

Definition Script (A : Type) : Type := State -> Run A.

Definition ret {A} (a : A) : Script A :=
  fun s => mkRun (Ok a) s [].

Definition throw {A} (e : Error) : Script A :=
  fun s => mkRun (Throw e) s [].

(** The run [r], after what [t] records. *)
Definition after {A} (t : list entry) (r : Run A) : Run A :=
  match r with
  | mkRun o s t' => mkRun o s (t ++ t')
  end.

Definition bind {A B} (m : Script A) (f : A -> Script B) : Script B :=
  fun s =>
    match m s with
    | mkRun (Ok a) s1 t => after t (f a s1)
    | mkRun (Throw e) s1 t => mkRun (Throw e) s1 t
    end.

(** [await] of an external call. *)
Definition perform (a : action) : Script (resp a) :=
  fun s =>
    match oracle a (world s) with
    | (inl e, w) => mkRun (Throw e) {| world := w; prevLevel := prevLevel s |}
                          [Called a (inl e)]
    | (inr x, w) => mkRun (Ok x) {| world := w; prevLevel := prevLevel s |}
                          [Called a (inr x)]
    end.

Definition console_log (args : list LogArg) : Script unit :=
  fun s => mkRun (Ok tt) s [Printed args].

Definition get_prevLevel : Script (option nat) :=
  fun s => mkRun (Ok (prevLevel s)) s [].

Definition set_prevLevel (l : nat) : Script unit :=
  fun s => mkRun (Ok tt) {| world := world s; prevLevel := Some l |} [].

(** [try { m } catch (e) { h e }]. *)
Definition try_catch {A} (m : Script A) (h : Error -> Script A) : Script A :=
  fun s =>
    match m s with
    | mkRun (Ok a) s1 t => mkRun (Ok a) s1 t
    | mkRun (Throw e) s1 t => after t (h e s1)
    end.

(** [for (... of/in l) { body }]. *)
Fixpoint for_each {A} (l : list A) (body : A -> Script unit) : Script unit :=
  match l with
  | [] => ret tt
  | x :: l' => bind (body x) (fun _ => for_each l' body)
  end.

End Monad.

Arguments mkRun {P A} _ _ _.
Arguments outcome {P A} _.
Arguments final {P A} _.
Arguments trace {P A} _.

Declare Scope script_scope.
Delimit Scope script_scope with script.
Notation "'do' x <- m ; k" := (bind m (fun x => k))
  (at level 10, x name, m at level 100, k at level 200) : script_scope.
Notation "'do' ' pat <- m ; k" := (bind m (fun x => match x with pat => k end))
  (at level 10, pat pattern, m at level 100, k at level 200) : script_scope.
Local Open Scope script_scope.

Definition newline : string := String (ascii_of_nat 10) "".
Definition tab : string := String (ascii_of_nat 9) "".

(** A [TypeError] raised by the runtime on a property access on
    [undefined]. *)
Definition TypeError (what : string) : Error :=
  mkError ("TypeError: " ++ what).

(* ===================================================================== *)
(** * scripts/deployLogic.ts                                              *)
(* ===================================================================== *)

Section DeployLogic.
Context `{P : Platform}.

(** [multisig], imported from hardhat.config. *)
Variable multisig : option string.

(** [networkConfig], the entry of the table for the current network
    (bound when the module is loaded, see [networkConfig_of] below). *)
Variable networkConfig : Cfg.IConfig.

(** The indentation [log] builds: four spaces per level. *)
Fixpoint prefix (level : nat) : string :=
  match level with
  | O => ""
  | S n => prefix n ++ "    "
  end.

(** [log] (lines 561-573). *)
Definition log (level : nat) (args : list LogArg) : Script unit :=
  do prev <- get_prevLevel;
  do _ <- match prev with
          | Some p => if (level <? p)%nat then console_log [LStr newline]
                      else ret tt
          | None => ret tt
          end;
  do _ <- set_prevLevel level;
  console_log (LStr (prefix level) :: args).

(** [printInfo] (lines 537-543). *)
Definition printInfo (tx : TransactionResponse) : Script unit :=
  do receipt <- perform (wait tx 1);
  do _ <- log 2 [LStr ("> tx hash:" ++ tab ++ hash tx)];
  do _ <- log 2 [LStr ("> gas price:" ++ tab ++ pretty (gasPrice tx))];
  log 2 [LStr ("> gas used:" ++ tab ++ pretty (gasUsed receipt))].

(** [executeTxn] (lines 575-593). *)
Definition executeTxn (txn : PopulatedTransaction) : Script TransactionResponse :=
  match JS.defined multisig with
  | Some safeAddress =>
      do signers <- perform getSigners;
      let signer := head signers in
      do safeSdk <- perform (EthersSafe_create safeAddress signer);
      do data <- match txn_data txn with
                 | Some d => ret d
                 | None => throw (TypeError "txn.data is undefined")
                 end;
      do safeTransaction <-
        perform (createTransaction safeSdk
                   {| safe_to := JS.nullish (txn_to txn) zeroAddress;
                      safe_value := JS.nullish (pretty <$> txn_value txn) "0";
                      safe_data := data;
                      safe_operation := Call |});
      do tx <- perform (executeTransaction safeSdk safeTransaction);
      ret tx
  | None =>
      do signers <- perform getSigners;
      match head signers with
      | Some signer =>
          do tx <- perform (sendTransaction signer txn);
          ret tx
      | None => throw (TypeError "signer is undefined")
      end
  end.

(** [{gasLimit, ...extraArgs}]. *)
Definition overrides (extraArgs : ExtraArgs) : Overrides :=
  {| ov_gasLimit := gasLimit; ov_from := from extraArgs |}.

(** [updateAddressSet] (lines 504-535). *)
Definition updateAddressSet
    (populateFunc : list string -> bool -> Overrides -> Script PopulatedTransaction)
    (toBeRemoved toBeAdded : list string) (extraArgs : ExtraArgs) : Script unit :=
  do _ <- match toBeRemoved with
          | _ :: _ =>
              do txn <- populateFunc toBeRemoved false (overrides extraArgs);
              do tx <- executeTxn txn;
              do _ <- log 2 [LStr "> removed wallets"; LList toBeRemoved];
              printInfo tx
          | [] => log 2 [LStr "> nothing to be removed"]
          end;
  do _ <- console_log [LStr newline];
  match toBeAdded with
  | _ :: _ =>
      do txn <- populateFunc toBeAdded true (overrides extraArgs);
      do tx <- executeTxn txn;
      do _ <- log 2 [LStr "> added wallets"; LList toBeAdded];
      printInfo tx
  | [] => log 2 [LStr "> nothing to be added"]
  end.

(** [deployContract] (lines 256-295). *)
Definition deployContract (step : nat) (autoVerify : bool) (contractName : string)
    (contractAddress : option string) (args : list Arg) : Script Contract :=
  do _ <- log 1 [LStr (pretty step ++ ". Deploying '" ++ contractName ++ "'")];
  do _ <- log 1 [LStr "------------------------------------"];
  do factory <- perform (getContractFactory contractName);
  match JS.defined contractAddress with
  | Some contractAddress =>
      do _ <- log 2 [LStr "> contract already exists"];
      do _ <- log 2 [LStr ("> address:" ++ tab ++ contractAddress)];
      ret (attach factory contractAddress)
  | None =>
      do contract <- perform (factory_deploy factory args);
      do tx <- perform (deployed contract);
      do _ <- match deployTransaction tx with
              | Some deployTx => printInfo deployTx
              | None => throw (TypeError "tx.deployTransaction is undefined")
              end;
      do _ <- log 2 [LStr ("> address:" ++ tab ++ address contract)];
      do _ <- (if autoVerify then
                 try_catch
                   (do _ <- log 3 [LStr ">> sleep first, wait for contract data to be propagated"];
                    do _ <- perform (sleep 10000);
                    do _ <- log 3 [LStr ">> start verifying"];
                    do _ <- perform (run_verify (address contract) args);
                    log 3 [LStr ">> done verifying"])
                   (fun e => log 2 [LStr "failed to verify contract"; LError e])
               else ret tt);
      ret contract
  end.

(** [updateProxy], first block (lines 301-313): the implementation. *)
Definition updateProxy_impl (k : KrystalContracts) (extraArgs : ExtraArgs) : Script unit :=
  do _ <- log 1 [LStr "Update impl contract"];
  do currentImpl <- perform (call (smartWalletProxy k) Abi.implementation);
  if String.eqb currentImpl (address (smartWalletImplementation k)) then
    log 2 [LStr ("Impl contract is already up-to-date at "
                 ++ address (smartWalletImplementation k))]
  else
    do txn <- perform (populateTransaction (smartWalletProxy k)
                         (Abi.updateNewImplementation
                            (address (smartWalletImplementation k)))
                         (Some (overrides extraArgs)));
    do tx <- executeTxn txn;
    printInfo tx.

(** [updateProxy], second block (lines 315-325): platform wallets. *)
Definition updateProxy_wallets (k : KrystalContracts) (extraArgs : ExtraArgs) : Script unit :=
  do _ <- log 1 [LStr "update supported platform wallets"];
  do r <- perform (call_list (smartWalletProxy k) Abi.getAllSupportedPlatformWallets);
  let existing := map JS.toLowerCase r in
  let configWallets := map JS.toLowerCase (Cfg.supportedWallets networkConfig) in
  let toBeRemoved :=
    List.filter (fun add => negb (JS.includes configWallets add)) existing in
  let toBeAdded :=
    List.filter (fun add => negb (JS.includes existing add)) configWallets in
  updateAddressSet
    (fun l b o => perform (populateTransaction (smartWalletProxy k)
                             (Abi.updateSupportedPlatformWallets l b) (Some o)))
    toBeRemoved toBeAdded extraArgs.

(** [updateProxy], third block (lines 327-334): swaps. *)
Definition updateProxy_swaps (k : KrystalContracts) (extraArgs : ExtraArgs) : Script unit :=
  do _ <- log 1 [LStr "update supported swaps"];
  do r <- perform (call_list (smartWalletProxy k) Abi.getAllSupportedSwaps);
  let existing := map JS.toLowerCase r in
  let swaps :=
    map (fun c => JS.toLowerCase (address c))
        (filter_defined (swap_values (swapContracts k))) in
  let toBeRemoved := List.filter (fun add => negb (JS.includes swaps add)) existing in
  let toBeAdded := List.filter (fun add => negb (JS.includes existing add)) swaps in
  updateAddressSet
    (fun l b o => perform (populateTransaction (smartWalletProxy k)
                             (Abi.updateSupportedSwaps l b) (Some o)))
    toBeRemoved toBeAdded extraArgs.

(** [updateProxy], fourth block (lines 336-348): lendings. *)
Definition updateProxy_lendings (k : KrystalContracts) (extraArgs : ExtraArgs) : Script unit :=
  do _ <- log 1 [LStr "update supported lendings"];
  do r <- perform (call_list (smartWalletProxy k) Abi.getAllSupportedLendings);
  let existing := map JS.toLowerCase r in
  let lendings :=
    map (fun c => JS.toLowerCase (address c))
        (filter_defined (lending_values (lendingContracts k))) in
  let toBeRemoved := List.filter (fun add => negb (JS.includes lendings add)) existing in
  let toBeAdded := List.filter (fun add => negb (JS.includes existing add)) lendings in
  updateAddressSet
    (fun l b o => perform (populateTransaction (smartWalletProxy k)
                             (Abi.updateSupportedLendings l b) (Some o)))
    toBeRemoved toBeAdded extraArgs.

(** [updateProxy] (lines 297-349). *)
Definition updateProxy (k : KrystalContracts) (extraArgs : ExtraArgs) : Script unit :=
  do _ <- updateProxy_impl k extraArgs;
  do _ <- updateProxy_wallets k extraArgs;
  do _ <- updateProxy_swaps k extraArgs;
  updateProxy_lendings k extraArgs.

(** [{...swapContracts, ...lendingContracts}] as the [for ... in] loop
    of [updateChildContracts] walks it. *)
Definition merged (k : KrystalContracts) : list (string * option Contract) :=
  [("uniSwap", uniSwap (swapContracts k));
   ("uniSwapV3", uniSwapV3 (swapContracts k));
   ("kyberProxy", kyberProxy (swapContracts k));
   ("kyberDmm", kyberDmm (swapContracts k));
   ("compoundLending", compoundLending (lendingContracts k));
   ("aaveV1", aaveV1 (lendingContracts k));
   ("aaveV2", aaveV2 (lendingContracts k));
   ("aaveAMM", aaveAMM (lendingContracts k))].

(** The body of the loop of [updateChildContracts] (lines 359-374). *)
Definition linkChildContract (k : KrystalContracts) (extraArgs : ExtraArgs)
    (item : string * option Contract) : Script unit :=
  let '(contractName, contract) := item in
  match contract with
  | Some contract =>
      do _ <- log 2 [LStr ("Updating " ++ contractName ++ " " ++ address contract)];
      do current <- perform (call contract Abi.proxyContract);
      if String.eqb (JS.toLowerCase current)
                    (JS.toLowerCase (address (smartWalletProxy k))) then
        log 2 [LStr ("> Proxy contract is already up-to-date at "
                     ++ address (smartWalletProxy k))]
      else
        do txn <- perform (populateTransaction contract
                             (Abi.updateProxyContract (address (smartWalletProxy k)))
                             (Some (overrides extraArgs)));
        do tx <- executeTxn txn;
        do _ <- log 2 [LStr ("> Linking to proxy " ++ address (smartWalletProxy k))];
        printInfo tx
  | None => ret tt
  end.

(** [updateChildContracts] (lines 351-376). *)
Definition updateChildContracts (k : KrystalContracts) (extraArgs : ExtraArgs)
  : Script unit :=
  do _ <- log 1 [LStr "Linking swap contracts to proxy"];
  for_each (merged k) (linkChildContract k extraArgs).

(** [updateUniSwap] (lines 378-389). *)
Definition updateUniSwap (uniSwap : option Contract) (extraArgs : ExtraArgs)
  : Script unit :=
  match uniSwap, Cfg.uniswap networkConfig with
  | Some uniSwap, Some cfg =>
      do _ <- log 1 [LStr "update supported routers"];
      do r <- perform (call_list uniSwap Abi.getAllUniRouters);
      let existing := map JS.toLowerCase r in
      let configRouters := map JS.toLowerCase (Uniswap.routers cfg) in
      let toBeRemoved :=
        List.filter (fun add => negb (JS.includes configRouters add)) existing in
      let toBeAdded :=
        List.filter (fun add => negb (JS.includes existing add)) configRouters in
      updateAddressSet
        (fun l b o => perform (populateTransaction uniSwap
                                 (Abi.updateUniRouters l b) (Some o)))
        toBeRemoved toBeAdded extraArgs
  | _, _ => log 1 [LStr "protocol not supported on this env"]
  end.

(** [updateUniSwapV3] (lines 391-402). *)
Definition updateUniSwapV3 (uniSwapV3 : option Contract) (extraArgs : ExtraArgs)
  : Script unit :=
  match uniSwapV3, Cfg.uniswapV3 networkConfig with
  | Some uniSwapV3, Some cfg =>
      do _ <- log 1 [LStr "update supported routers"];
      do r <- perform (call_list uniSwapV3 Abi.getAllUniRouters);
      let existing := map JS.toLowerCase r in
      let configRouters := map JS.toLowerCase (Uniswap.routers cfg) in
      let toBeRemoved :=
        List.filter (fun add => negb (JS.includes configRouters add)) existing in
      let toBeAdded :=
        List.filter (fun add => negb (JS.includes existing add)) configRouters in
      updateAddressSet
        (fun l b o => perform (populateTransaction uniSwapV3
                                 (Abi.updateUniRouters l b) (Some o)))
        toBeRemoved toBeAdded extraArgs
  | _, _ => log 1 [LStr "protocol not supported on this env"]
  end.

(** [updateKyberProxy] (lines 404-418). *)
Definition updateKyberProxy (kyberProxy : option Contract) (extraArgs : ExtraArgs)
  : Script unit :=
  match kyberProxy, Cfg.kyberProxy networkConfig with
  | Some kyberProxy, Some cfg =>
      do _ <- log 1 [LStr "update proxy"];
      do current <- perform (call kyberProxy Abi.kyberProxy);
      if String.eqb (JS.toLowerCase current) (JS.toLowerCase (KyberProxy.proxy cfg)) then
        log 2 [LStr ("kyberProxy already up-to-date at " ++ KyberProxy.proxy cfg)]
      else
        do txn <- perform (populateTransaction kyberProxy
                             (Abi.updateKyberProxy (KyberProxy.proxy cfg)) None);
        do tx <- executeTxn txn;
        do _ <- log 2 [LStr "> updated kyberProxy"; LJson (json_kyberProxy cfg)];
        printInfo tx
  | _, _ => log 1 [LStr "protocol not supported on this env"]
  end.

(** [updateKyberDmm] (lines 420-434). *)
Definition updateKyberDmm (kyberDmm : option Contract) (extraArgs : ExtraArgs)
  : Script unit :=
  match kyberDmm, Cfg.kyberDmm networkConfig with
  | Some kyberDmm, Some cfg =>
      do _ <- log 1 [LStr "update proxy"];
      do current <- perform (call kyberDmm Abi.dmmRouter);
      if String.eqb (JS.toLowerCase current) (JS.toLowerCase (KyberDmm.router cfg)) then
        log 2 [LStr ("dmmRouter already up-to-date at " ++ KyberDmm.router cfg)]
      else
        do txn <- perform (populateTransaction kyberDmm
                             (Abi.updateDmmRouter (KyberDmm.router cfg)) None);
        do tx <- executeTxn txn;
        do _ <- log 2 [LStr "> updated dmmRouter"; LJson (json_kyberDmm cfg)];
        printInfo tx
  | _, _ => log 1 [LStr "protocol not supported on this env"]
  end.

(** [updateCompoundLending] (lines 436-459). *)
Definition updateCompoundLending (compoundLending : option Contract)
    (extraArgs : ExtraArgs) : Script unit :=
  match compoundLending, Cfg.compound networkConfig with
  | Some compoundLending, Some cfg =>
      do _ <- log 1 [LStr "update compound data"];
      do compoundData <- perform (call compoundLending Abi.compoundData);
      (* comptroller is at the first 20 bytes *)
      let currentComptroller := ("0x" ++ JS.slice 2 40 compoundData)%string in
      if String.eqb currentComptroller (Compound.compTroller cfg) then
        log 2 [LStr ("comptroller already up-to-date at " ++ Compound.compTroller cfg)]
      else
        do txn <- perform (populateTransaction compoundLending
                             (Abi.updateCompoundData (Compound.compTroller cfg)
                                (Compound.cNative cfg) (Compound.cTokens cfg))
                             None);
        do tx <- executeTxn txn;
        do _ <- log 2 [LStr "> updated compound"; LJson (json_compound cfg)];
        printInfo tx
  | _, _ => log 1 [LStr "protocol not supported on this env"]
  end.

(** [updateAaveV1Lending] (lines 461-478). *)
Definition updateAaveV1Lending (aaveV1Lending : option Contract)
    (extraArgs : ExtraArgs) : Script unit :=
  match aaveV1Lending, Cfg.aaveV1 networkConfig with
  | Some aaveV1Lending, Some cfg =>
      do _ <- log 1 [LStr "update aave v1 data"];
      do txn <- perform (populateTransaction aaveV1Lending
                           (Abi.updateAaveDataV1 (AaveV1.poolV1 cfg)
                              (AaveV1.poolCoreV1 cfg) (AaveV1.referralCode cfg)
                              (AaveV1.tokens cfg))
                           None);
      do tx <- executeTxn txn;
      do _ <- log 2 [LStr "> updated aave v1"; LJson (json_aaveV1 cfg)];
      printInfo tx
  | _, _ => log 1 [LStr "protocol not supported on this env"]
  end.

(** [updateAaveV2Lending] (lines 480-502). *)
Definition updateAaveV2Lending (aaveV2Lending : option Contract)
    (aaveV2Config : option AaveV2.Config) (_extraArgs : ExtraArgs) : Script unit :=
  match aaveV2Lending, aaveV2Config with
  | Some aaveV2Lending, Some aaveV2Config =>
      do _ <- log 1 [LStr "update aave v2 data"];
      do txn <- perform (populateTransaction aaveV2Lending
                           (Abi.updateAaveDataV2 (AaveV2.provider aaveV2Config)
                              (AaveV2.poolV2 aaveV2Config)
                              (AaveV2.referralCode aaveV2Config)
                              (AaveV2.weth aaveV2Config)
                              (AaveV2.tokens aaveV2Config))
                           None);
      do tx <- executeTxn txn;
      do _ <- log 2 [LStr "> updated aave v2";
                     LJson (json_aaveV2 (Cfg.aaveV2 networkConfig))];
      printInfo tx
  | _, _ => log 1 [LStr "protocol not supported on this env"]
  end.

(** [deployContracts] (lines 115-254).  The counter [step] is advanced
    by each [++step], that is by each call of [deployContract]. *)
Definition deployContracts (existingContract : option Existing.t)
    (contractAdmin : string) : Script KrystalContracts :=
  let autoVerify := Cfg.autoVerifyContract networkConfig in
  let swapsOf := existingContract ≫= Existing.swapContracts in
  let lendingsOf := existingContract ≫= Existing.lendingContracts in
  let step := 0%nat in
  let step := S step in
  do smartWalletImplementation <-
    deployContract step autoVerify "SmartWalletImplementation"
      (existingContract ≫= Existing.smartWalletImplementation)
      [ArgString contractAdmin];
  let step := S step in
  do fetchTokenBalances <-
    deployContract step autoVerify "FetchTokenBalances"
      (existingContract ≫= Existing.fetchTokenBalances)
      [ArgString contractAdmin];
  let step := S step in
  do fetchAaveDataWrapper <-
    deployContract step autoVerify "FetchAaveDataWrapper"
      (existingContract ≫= Existing.fetchAaveDataWrapper)
      [ArgString contractAdmin];
  do '(uniSwap, step) <-
    match Cfg.uniswap networkConfig with
    | None => ret (None, step)
    | Some cfg =>
        let step := S step in
        do c <- deployContract step autoVerify "UniSwap"
                  (swapsOf ≫= Existing.uniSwap)
                  [ArgString contractAdmin; ArgList (Uniswap.routers cfg)];
        ret (Some c, step)
    end;
  do '(uniSwapV3, step) <-
    match Cfg.uniswapV3 networkConfig with
    | None => ret (None, step)
    | Some cfg =>
        let step := S step in
        do c <- deployContract step autoVerify "UniSwapV3"
                  (swapsOf ≫= Existing.uniSwapV3)
                  [ArgString contractAdmin; ArgList (Uniswap.routers cfg)];
        ret (Some c, step)
    end;
  do '(kyberProxy, step) <-
    match Cfg.kyberProxy networkConfig with
    | None => ret (None, step)
    | Some cfg =>
        let step := S step in
        do c <- deployContract step autoVerify "KyberProxy"
                  (swapsOf ≫= Existing.kyberProxy)
                  [ArgString contractAdmin; ArgString (KyberProxy.proxy cfg)];
        ret (Some c, step)
    end;
  do '(kyberDmm, step) <-
    match Cfg.kyberDmm networkConfig with
    | None => ret (None, step)
    | Some cfg =>
        let step := S step in
        do c <- deployContract step autoVerify "KyberDmm"
                  (swapsOf ≫= Existing.kyberDmm)
                  [ArgString contractAdmin; ArgString (KyberDmm.router cfg)];
        ret (Some c, step)
    end;
  let swapContracts :=
    {| uniSwap := uniSwap; uniSwapV3 := uniSwapV3;
       kyberProxy := kyberProxy; kyberDmm := kyberDmm |} in
  do '(compoundLending, step) <-
    match Cfg.compound networkConfig with
    | None => ret (None, step)
    | Some _ =>
        let step := S step in
        do c <- deployContract step autoVerify "CompoundLending"
                  (lendingsOf ≫= Existing.compoundLending)
                  [ArgString contractAdmin];
        ret (Some c, step)
    end;
  do '(aaveV1, step) <-
    match Cfg.aaveV1 networkConfig with
    | None => ret (None, step)
    | Some _ =>
        let step := S step in
        do c <- deployContract step autoVerify "AaveV1Lending"
                  (lendingsOf ≫= Existing.aaveV1Lending)
                  [ArgString contractAdmin];
        ret (Some c, step)
    end;
  do '(aaveV2, step) <-
    match Cfg.aaveV2 networkConfig with
    | None => ret (None, step)
    | Some _ =>
        let step := S step in
        do c <- deployContract step autoVerify "AaveV2Lending"
                  (lendingsOf ≫= Existing.aaveV2Lending)
                  [ArgString contractAdmin];
        ret (Some c, step)
    end;
  do '(aaveAMM, step) <-
    match Cfg.aaveAMM networkConfig with
    | None => ret (None, step)
    | Some _ =>
        let step := S step in
        do c <- deployContract step autoVerify "AaveV2Lending"
                  (lendingsOf ≫= Existing.aaveAMMLending)
                  [ArgString contractAdmin];
        ret (Some c, step)
    end;
  let lendingContracts :=
    {| compoundLending := compoundLending; aaveV1 := aaveV1;
       aaveV2 := aaveV2; aaveAMM := aaveAMM |} in
  let step := S step in
  do smartWalletProxy <-
    deployContract step autoVerify "SmartWalletProxy"
      (existingContract ≫= Existing.smartWalletProxy)
      [ArgString contractAdmin;
       ArgString (address smartWalletImplementation);
       ArgList (Cfg.supportedWallets networkConfig);
       ArgList (map address (filter_defined (swap_values swapContracts)));
       ArgList (map address (filter_defined (lending_values lendingContracts)))];
  ret {| smartWalletImplementation := smartWalletImplementation;
         smartWalletProxy := smartWalletProxy;
         fetchTokenBalances := fetchTokenBalances;
         fetchAaveDataWrapper := fetchAaveDataWrapper;
         swapContracts := swapContracts;
         lendingContracts := lendingContracts |}.

Definition rule : string := "======================" ++ newline.

(** [deploy] (lines 52-113). *)
Definition deploy (existingContract : option Existing.t) (extraArgs : ExtraArgs)
  : Script KrystalContracts :=
  do signers <- perform getSigners;
  do deployerAddress <-
    match head signers with
    | Some deployer => perform (getAddress deployer)
    | None => throw (TypeError "deployer is undefined")
    end;
  do _ <- log 0 [LStr "Start deploying Krystal contracts"];
  do _ <- log 0 [LStr rule];
  do deployedContracts <-
    deployContracts existingContract (JS.or_else multisig deployerAddress);
  (* Initialization *)
  do _ <- log 0 [LStr "Updating proxy data"];
  do _ <- log 0 [LStr rule];
  do _ <- updateProxy deployedContracts extraArgs;
  do _ <- log 0 [LStr "Updating swaps/lendings linking"];
  do _ <- log 0 [LStr rule];
  do _ <- updateChildContracts deployedContracts extraArgs;
  do _ <- log 0 [LStr "Updating uniswap/clones config"];
  do _ <- log 0 [LStr rule];
  do _ <- updateUniSwap (uniSwap (swapContracts deployedContracts)) extraArgs;
  do _ <- log 0 [LStr "Updating uniswapV3/clones config"];
  do _ <- log 0 [LStr rule];
  do _ <- updateUniSwapV3 (uniSwapV3 (swapContracts deployedContracts)) extraArgs;
  do _ <- log 0 [LStr "Updating kyberProxy config"];
  do _ <- log 0 [LStr rule];
  do _ <- updateKyberProxy (kyberProxy (swapContracts deployedContracts)) extraArgs;
  do _ <- log 0 [LStr "Updating kyberDmm config"];
  do _ <- log 0 [LStr rule];
  do _ <- updateKyberDmm (kyberDmm (swapContracts deployedContracts)) extraArgs;
  do _ <- log 0 [LStr "Updating compound/clones config"];
  do _ <- log 0 [LStr rule];
  do _ <- updateCompoundLending
            (compoundLending (lendingContracts deployedContracts)) extraArgs;
  do _ <- log 0 [LStr "Updating aave V1 config"];
  do _ <- log 0 [LStr rule];
  do _ <- updateAaveV1Lending (aaveV1 (lendingContracts deployedContracts)) extraArgs;
  do _ <- log 0 [LStr "Updating aave V2 config"];
  do _ <- log 0 [LStr rule];
  do _ <- updateAaveV2Lending (aaveV2 (lendingContracts deployedContracts))
            (Cfg.aaveV2 networkConfig) extraArgs;
  do _ <- log 0 [LStr "Updating aave AMM config"];
  do _ <- log 0 [LStr rule];
  do _ <- updateAaveV2Lending (aaveAMM (lendingContracts deployedContracts))
            (Cfg.aaveAMM networkConfig) extraArgs;
  (* Summary *)
  do _ <- log 0 [LStr "Summary"];
  do _ <- log 0 [LStr ("=======" ++ newline)];
  do _ <- log 0 [LJson (json_addresses
                          (convertToAddressObject (contracts_object deployedContracts)))];
  do _ <- console_log [LStr (newline ++ "Deployment complete!")];
  ret deployedContracts.

End DeployLogic.

(** ** Loading the module (lines 28-31)

    [NetworkConfig] (scripts/config.ts) is a table from network names to
    configurations: a plain object, as the object literals of the
    configuration files are.  The module looks the current network up
    once, at load time, with [NetworkConfig[network.name]].  Such a
    lookup finds the entries of the table and, under a name that has
    none, what every object inherits from [Object.prototype]: a function,
    or under "__proto__" the prototype itself, all of them truthy.  The
    module throws when what it finds is falsy, that is when it finds
    nothing.  What an importer does with the module happens after that. *)
Definition Object_prototype : list string :=
  ["constructor"; "__defineGetter__"; "__defineSetter__"; "hasOwnProperty";
   "__lookupGetter__"; "__lookupSetter__"; "isPrototypeOf";
   "propertyIsEnumerable"; "toString"; "valueOf"; "__proto__"; "toLocaleString"].

(** What the lookup finds: an entry of the table, or the inherited
    property of that name. *)
Inductive Looked :=
| Own (networkConfig : Cfg.IConfig)
| Inherited (name : string).

Definition NetworkConfig_get (NetworkConfig : gmap string Cfg.IConfig)
    (network_name : string) : option Looked :=
  match NetworkConfig !! network_name with
  | Some networkConfig => Some (Own networkConfig)
  | None =>
      if bool_decide (network_name ∈ Object_prototype)
      then Some (Inherited network_name)
      else None
  end.

Definition networkConfig_of (NetworkConfig : gmap string Cfg.IConfig)
    (network_name : string) : Outcome Looked :=
  match NetworkConfig_get NetworkConfig network_name with
  | Some networkConfig => Ok networkConfig
  | None => Throw (mkError ("Missing deploy config for " ++ network_name))
  end.

(** The module imported: [importer] is what the importing script does
    with it, given what [networkConfig] has been bound to. *)
Definition import_deployLogic `{P : Platform} {A}
    (NetworkConfig : gmap string Cfg.IConfig) (network_name : string)
    (importer : Looked -> Script A) : Script A :=
  match networkConfig_of NetworkConfig network_name with
  | Ok networkConfig => importer networkConfig
  | Throw e => throw e
  end.

(* ===================================================================== *)
(** * Observations on traces                                              *)
(* ===================================================================== *)

(** The external calls of a trace, in order. *)
Definition call_of (e : entry) : option action :=
  match e with
  | Called a _ => Some a
  | Printed _ => None
  end.

Definition calls (t : list entry) : list action := omap call_of t.

(** The stages a transaction of the script goes through: it is built
    ([populateTransaction], or [factory.deploy] for a contract creation),
    submitted, and confirmed. *)
Inductive milestone :=
| Built (c : Contract) (m : Abi.Method)
| Created (c : Contract)
| Submitted (tx : TransactionResponse)
| Confirmed (tx : TransactionResponse) (confirmations : nat).

Definition milestone_of (e : entry) : option milestone :=
  match e with
  | Called a r =>
      match a return Error + resp a -> option milestone with
      | populateTransaction c m _ =>
          fun r => match r with inr _ => Some (Built c m) | inl _ => None end
      | factory_deploy _ _ =>
          fun r => match r with inr c => Some (Created c) | inl _ => None end
      | sendTransaction _ _ =>
          fun r => match r with inr tx => Some (Submitted tx) | inl _ => None end
      | executeTransaction _ _ =>
          fun r => match r with inr tx => Some (Submitted tx) | inl _ => None end
      | wait tx n =>
          fun r => match r with inr _ => Some (Confirmed tx n) | inl _ => None end
      | _ => fun _ => None
      end r
  | Printed _ => None
  end.

Definition milestones (t : list entry) : list milestone := omap milestone_of t.

(** Reads of on-chain state. *)
Definition is_read (a : action) : bool :=
  match a with
  | call _ _ | call_list _ _ => true
  | _ => false
  end.

(** Submission routes. *)
Definition is_direct (a : action) : bool :=
  match a with
  | sendTransaction _ _ => true
  | _ => false
  end.

Definition is_safe (a : action) : bool :=
  match a with
  | EthersSafe_create _ _ | createTransaction _ _ | executeTransaction _ _ => true
  | _ => false
  end.

(** Calls that send a state-changing transaction to the chain: the two
    ends of [executeTxn], and [factory.deploy], which sends the creation
    of a contract from the signer of the factory. *)
Definition sends_transaction (a : action) : bool :=
  match a with
  | sendTransaction _ _ | executeTransaction _ _ | factory_deploy _ _ => true
  | _ => false
  end.

(** Every transaction of the trace [t] goes through the Safe. *)
Definition relayed_through_safe (t : list entry) : Prop :=
  forall a, a ∈ calls t -> sends_transaction a = true -> is_safe a = true.

(** The calls inside the [try] block of [deployContract]. *)
Definition is_verification (a : action) : bool :=
  match a with
  | sleep _ | run_verify _ _ => true
  | _ => false
  end.

(** Calls that create a contract or verify one. *)
Definition is_deployment (a : action) : bool :=
  match a with
  | factory_deploy _ _ | deployed _ | sleep _ | run_verify _ _ => true
  | _ => false
  end.

(** The failed calls of a trace. *)
Definition failure_of (e : entry) : option (action * Error) :=
  match e with
  | Called a (inl err) => Some (a, err)
  | _ => None
  end.

Definition failures (t : list entry) : list (action * Error) := omap failure_of t.

(** Attempts at verifying a contract. *)
Definition is_run_verify (a : action) : bool :=
  match a with
  | run_verify _ _ => true
  | _ => false
  end.

(* ===================================================================== *)
(** * A simulated platform, to run the script on concrete inputs          *)
(* ===================================================================== *)

Module Sim.

(** A chain that answers reads from fixed tables, accepts every
    transaction, and lets chosen calls fail. *)
Record Chain := {
  signers : list Signer;
  views : Contract -> Abi.View -> string;
  list_views : Contract -> Abi.ListView -> list string;
  failing : action -> option Error
}.

Definition tx0 : TransactionResponse := {| hash := "0xabc"; gasPrice := 5 |}.

Definition answer (c : Chain) (a : action) : resp a :=
  match a return resp a with
  | getSigners => signers c
  | getAddress _ => "0xd0"
  | getContractFactory name => {| factoryOf := name |}
  | factory_deploy f _ =>
      {| address := "0xnew" ++ factoryOf f; deployTransaction := Some tx0 |}
  | deployed contract => contract
  | wait _ _ => {| gasUsed := 21000 |}
  | sleep _ => tt
  | run_verify _ _ => tt
  | call contract v => views c contract v
  | call_list contract v => list_views c contract v
  | populateTransaction contract _ o =>
      {| txn_to := Some (address contract);
         txn_from := o ≫= ov_from;
         txn_data := Some "0xdata";
         txn_value := None;
         txn_gasLimit := ov_gasLimit <$> o |}
  | sendTransaction _ _ => tx0
  | EthersSafe_create _ _ => SafeSdkHandle 0
  | createTransaction _ _ => SafeTransactionHandle 0
  | executeTransaction _ _ => tx0
  end.

Definition respond (a : action) (c : Chain) : (Error + resp a) * Chain :=
  (match failing c a with
   | Some e => inl e
   | None => inr (answer c a)
   end, c).

Definition platform : Platform := {| World := Chain; oracle := respond |}.

Definition start (c : Chain) : @State platform :=
  @Build_State platform c None.

End Sim.

(* ===================================================================== *)
(** * Trace monitors                                                      *)
(* ===================================================================== *)

(** Properties of whole runs are stated with monitors: automata that read
    the trace entry by entry and reject it (answer [None]) as soon as the
    property is broken. *)
Record Monitor := {
  mstate : Type;
  mstep : mstate -> entry -> option mstate
}.

Fixpoint mrun (M : Monitor) (q : mstate M) (t : list entry) : option (mstate M) :=
  match t with
  | [] => Some q
  | e :: t' =>
      match mstep M q e with
      | Some q' => mrun M q' t'
      | None => None
      end
  end.

(** Started in [q], the monitor accepts every run of [m] and ends in a
    state that [post] relates to the outcome. *)
Definition triple `{P : Platform} (M : Monitor) {A} (q : mstate M) (m : Script A)
    (post : Outcome A -> mstate M -> Prop) : Prop :=
  forall s, exists q', mrun M q (trace (m s)) = Some q' /\ post (outcome (m s)) q'.

Definition quiet (M : Monitor) (q : mstate M) : Prop :=
  forall args, mstep M q (Printed args) = Some q.

(** A discipline is a monitor with a resting state: every function of the
    script is entered in it and, when it returns, has come back to it.
    [neutral] calls keep a run in the resting state when they succeed;
    [exempt] calls keep it there even when they fail. *)
Record Discipline := {
  mon :> Monitor;
  q0 : mstate mon;
  on_throw : Error -> mstate mon -> Prop;
  neutral : action -> bool;
  exempt : action -> bool
}.

Definition lift {A} (r : Error + A) : Outcome A :=
  match r with inl e => Throw e | inr x => Ok x end.

Definition std_post (D : Discipline) {A} (r : Outcome A) (q' : mstate D) : Prop :=
  match r with
  | Ok _ => q' = q0 D
  | Throw e => on_throw D e q'
  end.

Definition respects `{P : Platform} (D : Discipline) {A} (m : Script A) : Prop :=
  triple D (q0 D) m (std_post D).

Definition harmless `{P : Platform} (D : Discipline) {A} (m : Script A) : Prop :=
  triple D (q0 D) m (fun _ q' => q' = q0 D).

Class Sound (D : Discipline) := {
  sound_quiet : quiet D (q0 D);
  sound_throw : forall e, on_throw D e (q0 D);
  sound_neutral : forall a, neutral D a = true ->
    forall r, exists q', mstep D (q0 D) (Called a r) = Some q' /\ std_post D (lift r) q';
  sound_exempt : forall a, exempt D a = true ->
    forall r, mstep D (q0 D) (Called a r) = Some (q0 D)
}.

(** ** Routing: which way transactions leave the script

    With [safe] set, a direct [sendTransaction] is rejected; without it,
    any call of the Safe SDK is. *)
Definition off_route (safe : bool) (a : action) : bool :=
  if safe then is_direct a else is_safe a.

Definition routing_step (safe : bool) (q : unit) (e : entry) : option unit :=
  match call_of e with
  | Some a => if off_route safe a then None else Some tt
  | None => Some tt
  end.

Definition Routing (safe : bool) : Discipline :=
  {| mon := {| mstate := unit; mstep := routing_step safe |};
     q0 := tt;
     on_throw := fun _ _ => True;
     neutral := fun a => negb (off_route safe a);
     exempt := fun a => negb (off_route safe a) |}.

(** ** Fatality: a failed call ends the run

    The state is the error of the call that failed, if one has.  Once it
    is set nothing more may happen.  Failures of the calls of the
    verification block do not set it. *)
Definition fatal_step (q : option Error) (e : entry) : option (option Error) :=
  match q with
  | Some _ => None
  | None =>
      match failure_of e with
      | Some (a, err) => if is_verification a then Some None else Some (Some err)
      | None => Some None
      end
  end.

Definition Fatal : Discipline :=
  {| mon := {| mstate := option Error; mstep := fatal_step |};
     q0 := None;
     on_throw := fun e q' => forall e', q' = Some e' -> e' = e;
     neutral := fun _ => true;
     exempt := is_verification |}.

(** ** The transaction protocol: build, submit, confirm, one at a time

    A transaction is built in [Idle] only, submitted once built, and
    then nothing but [wait(1)] on that very transaction may follow until
    it is confirmed.  Contract creation goes the same way through
    [factory.deploy] and [deployed()]. *)
Inductive Phase :=
| Idle
| Building
| Creating
| Pending (tx : TransactionResponse).

#[global] Instance TransactionResponse_eq_dec : EqDecision TransactionResponse.
Proof. solve_decision. Defined.

Definition protocol_step (q : Phase) (e : entry) : option Phase :=
  match e with
  | Printed _ => Some q
  | Called a r =>
      match a return Error + resp a -> option Phase with
      | populateTransaction _ _ _ => fun r =>
          match q with
          | Idle => Some (match r with inr _ => Building | inl _ => Idle end)
          | _ => None
          end
      | sendTransaction _ _ => fun r =>
          match q with
          | Building => Some (match r with inr tx => Pending tx | inl _ => Building end)
          | _ => None
          end
      | executeTransaction _ _ => fun r =>
          match q with
          | Building => Some (match r with inr tx => Pending tx | inl _ => Building end)
          | _ => None
          end
      | factory_deploy _ _ => fun r =>
          match q with
          | Idle => Some (match r with inr _ => Creating | inl _ => Idle end)
          | _ => None
          end
      | deployed _ => fun r =>
          match q with
          | Creating =>
              Some (match r with
                    | inr c => match deployTransaction c with
                               | Some tx => Pending tx
                               | None => Creating
                               end
                    | inl _ => Creating
                    end)
          | _ => None
          end
      | wait tx n => fun r =>
          match q with
          | Pending tx' =>
              if decide (tx = tx' /\ n = 1%nat)
              then Some (match r with inr _ => Idle | inl _ => Pending tx' end)
              else None
          | _ => None
          end
      | _ => fun _ =>
          match q with
          | Idle | Building => Some q
          | _ => None
          end
      end r
  end.

Definition in_protocol (a : action) : bool :=
  match a with
  | populateTransaction _ _ _ | sendTransaction _ _ | executeTransaction _ _
  | factory_deploy _ _ | deployed _ | wait _ _ => true
  | _ => false
  end.

Definition Protocol : Discipline :=
  {| mon := {| mstate := Phase; mstep := protocol_step |};
     q0 := Idle;
     on_throw := fun _ _ => True;
     neutral := fun a => negb (in_protocol a);
     exempt := fun a => negb (in_protocol a) |}.

(** Where the protocol stands after each stage of a transaction. *)
Definition stays (q : Phase) {A} (_ : Outcome A) (q' : Phase) : Prop := q' = q.

Definition built {A} (r : Outcome A) (q' : Phase) : Prop :=
  match r with
  | Ok _ => q' = Building
  | Throw _ => True
  end.

Definition submitted (r : Outcome TransactionResponse) (q' : Phase) : Prop :=
  match r with
  | Ok tx => q' = Pending tx
  | Throw _ => True
  end.

Definition is_print (e : entry) : bool :=
  match e with Printed _ => true | _ => false end.

(** The stages of one transaction on contract [c] calling [m]. *)
Definition stages (c : Contract) (m : Abi.Method) (tx : TransactionResponse)
  : list milestone :=
  [Built c m; Submitted tx; Confirmed tx 1].

(** ** What a trace emitted

    A transaction is emitted when it has been built and then submitted;
    [emitted] lists the contract and the method call of each, in order. *)
Fixpoint emitted_from (built : option (Contract * Abi.Method)) (ms : list milestone)
  : list (Contract * Abi.Method) :=
  match ms with
  | [] => []
  | Built c m :: rest => emitted_from (Some (c, m)) rest
  | Submitted _ :: rest =>
      match built with
      | Some cm => cm :: emitted_from None rest
      | None => emitted_from None rest
      end
  | _ :: rest => emitted_from built rest
  end.

Definition emitted (t : list entry) : list (Contract * Abi.Method) :=
  emitted_from None (milestones t).

(** The stages and the transactions an address-set step goes through
    when it has [toBeRemoved] to remove and [toBeAdded] to add. *)
Definition expected_stages (c : Contract) (mk : list string -> bool -> Abi.Method)
    (toBeRemoved toBeAdded : list string) (txR txA : TransactionResponse)
  : list milestone :=
  match toBeRemoved with
  | [] => []
  | _ => stages c (mk toBeRemoved false) txR
  end ++
  match toBeAdded with
  | [] => []
  | _ => stages c (mk toBeAdded true) txA
  end.

Definition expected_emitted (c : Contract) (mk : list string -> bool -> Abi.Method)
    (toBeRemoved toBeAdded : list string) : list (Contract * Abi.Method) :=
  match toBeRemoved with
  | [] => []
  | _ => [(c, mk toBeRemoved false)]
  end ++
  match toBeAdded with
  | [] => []
  | _ => [(c, mk toBeAdded true)]
  end.

(** The transactions an address-set step on contract [c] emits:
    whenever the read of view [v] answers the list [onchain], they are
    one removal of what is on chain but not in [config] and one addition
    of what is in [config] but not on chain, both compared in lower case,
    each left out when it would be empty.  A run that a failing call cuts
    short has emitted a prefix of them. *)
Definition reconciles `{P : Platform} (step : Script unit) (c : Contract)
    (v : Abi.ListView) (mk : list string -> bool -> Abi.Method)
    (config : list string) : Prop :=
  forall s onchain w,
    oracle (call_list c v) (world s) = (inr onchain, w) ->
    let S := map JS.toLowerCase onchain in
    let C := map JS.toLowerCase config in
    let expected := expected_emitted c mk (list_difference S C) (list_difference C S) in
    emitted (trace (step s)) `prefix_of` expected /\
    (outcome (step s) = Ok tt -> emitted (trace (step s)) = expected).

(** The shape the five address-set steps of the script share (the blocks
    of [updateProxy] on wallets, swaps and lendings, [updateUniSwap] and
    [updateUniSwapV3]); [config] is the desired set, already in lower
    case.  Each of the five is this function at some arguments. *)
Definition reconcile `{P : Platform} (multisig : option string) (title : string)
    (c : Contract) (v : Abi.ListView) (mk : list string -> bool -> Abi.Method)
    (config : list string) (extraArgs : ExtraArgs) : Script unit :=
  do _ <- log 1 [LStr title];
  do r <- perform (call_list c v);
  let existing := map JS.toLowerCase r in
  let toBeRemoved := List.filter (fun add => negb (JS.includes config add)) existing in
  let toBeAdded := List.filter (fun add => negb (JS.includes existing add)) config in
  updateAddressSet multisig
    (fun l b o => perform (populateTransaction c (mk l b) (Some o)))
    toBeRemoved toBeAdded extraArgs.

(** ** The steps as the specification has them

    The calls of a trace with their answers: the trace without what was
    printed. *)
Definition called (t : list entry) : list entry :=
  List.filter (fun e => negb (is_print e)) t.

(** Two runs that differ at most in what they print: the same outcome,
    the same world left behind, and the same calls with the same answers
    in the same order. *)
Definition agree `{P : Platform} {A} (r r' : Run A) : Prop :=
  outcome r = outcome r' /\
  world (final r) = world (final r') /\
  called (trace r) = called (trace r').

(** [m] and [m'] agree whenever they start in the same world. *)
Definition sim `{P : Platform} {A} (m m' : Script A) : Prop :=
  forall s s', world s = world s' -> agree (m s) (m' s').

(** [step] does what [spec] does, printing apart. *)
Definition implements `{P : Platform} {A} (step spec : Script A) : Prop :=
  forall s, agree (step s) (spec s).

(** One transaction emitted: built by [populateTransaction], handed to
    [executeTxn], and confirmed once. *)
Definition emit `{P : Platform} (multisig : option string) (c : Contract)
    (m : Abi.Method) (o : option Overrides) : Script unit :=
  do txn <- perform (populateTransaction c m o);
  do tx <- executeTxn multisig txn;
  do _ <- perform (wait tx 1);
  ret tt.

(** What the specification says of an address-set step: with S the set
    on chain and C the desired set, both in lower case, one removal
    carrying S\C when that is not empty, then one addition carrying C\S
    when that is not empty, and nothing else. *)
Definition reconciliation `{P : Platform} (multisig : option string) (c : Contract)
    (v : Abi.ListView) (mk : list string -> bool -> Abi.Method)
    (config : list string) (extraArgs : ExtraArgs) : Script unit :=
  do onchain <- perform (call_list c v);
  let S := map JS.toLowerCase onchain in
  let C := map JS.toLowerCase config in
  do _ <- match list_difference S C with
          | [] => ret tt
          | toBeRemoved =>
              emit multisig c (mk toBeRemoved false) (Some (overrides extraArgs))
          end;
  match list_difference C S with
  | [] => ret tt
  | toBeAdded => emit multisig c (mk toBeAdded true) (Some (overrides extraArgs))
  end.

(** What the specification says of a step on one value: read it, and
    emit the update only when it is not the desired one already. *)
Definition compare_and_set `{P : Platform} (multisig : option string) (c : Contract)
    (v : Abi.View) (same : string -> bool) (m : Abi.Method) (o : option Overrides)
  : Script unit :=
  do current <- perform (call c v);
  if same current then ret tt else emit multisig c m o.

(** What is asked of an address-set step on contract [c]: it does what
    [reconciliation] does; whenever the read answers, the transactions it
    builds, submits and has confirmed are those of the removal and of the
    addition and no other (the first of them when a failing call cuts the
    run short); and so are the transactions emitted. *)
Definition reconciles_exactly `{P : Platform} (multisig : option string)
    (step : Script unit) (c : Contract) (v : Abi.ListView)
    (mk : list string -> bool -> Abi.Method) (config : list string)
    (extraArgs : ExtraArgs) : Prop :=
  implements step (reconciliation multisig c v mk config extraArgs) /\
  (forall s onchain w,
     oracle (call_list c v) (world s) = (inr onchain, w) ->
     let S := map JS.toLowerCase onchain in
     let C := map JS.toLowerCase config in
     exists txR txA,
       let expected :=
         expected_stages c mk (list_difference S C) (list_difference C S) txR txA in
       milestones (trace (step s)) `prefix_of` expected /\
       (outcome (step s) = Ok tt -> milestones (trace (step s)) = expected)) /\
  reconciles step c v mk config.

(** Two strings that differ at most in the case of their letters. *)
Definition same_letter (a b : ascii) : Prop :=
  a = b \/ JS.lower_ascii a = b \/ a = JS.lower_ascii b.

Inductive case_variant : string -> string -> Prop :=
| cv_nil : case_variant "" ""
| cv_cons a b s t :
    same_letter a b -> case_variant s t -> case_variant (String a s) (String b t).

(** Insensitivity to letter case of an address-set step, run once with
    the desired set [config] and once with [config']: when the two sets,
    and the two lists read from the chain, differ at most in the case of
    their letters, the same transactions are emitted; and a desired set
    that differs from the set on chain only in case emits nothing. *)
Definition case_insensitive `{P : Platform} (step step' : Script unit)
    (c : Contract) (v : Abi.ListView) (config config' : list string) : Prop :=
  Forall2 case_variant config config' ->
  (forall s s' onchain onchain' w w',
     oracle (call_list c v) (world s) = (inr onchain, w) ->
     oracle (call_list c v) (world s') = (inr onchain', w') ->
     Forall2 case_variant onchain onchain' ->
     outcome (step s) = Ok tt -> outcome (step' s') = Ok tt ->
     emitted (trace (step s)) = emitted (trace (step' s')))
  /\
  (forall s onchain w,
     oracle (call_list c v) (world s) = (inr onchain, w) ->
     Forall2 case_variant config onchain ->
     emitted (trace (step s)) = []).

(** ** Read-then-compare steps

    A step guarded by the view [v] of contract [c]: the read is its first
    call; when the value read is the desired one ([same] holds of it) the
    read is the only call and the step returns; when it is not, the step
    goes on to build the call [m], and a run that returns has built,
    submitted and had confirmed that one transaction and no other; and
    when the read fails it is the only call and the step throws. *)
Definition guarded `{P : Platform} (step : Script unit) (c : Contract)
    (v : Abi.View) (same : string -> bool) (m : Abi.Method)
    (o : option Overrides) : Prop :=
  forall s,
    head (calls (trace (step s))) = Some (call c v) /\
    (forall current w,
       oracle (call c v) (world s) = (inr current, w) ->
       if same current
       then calls (trace (step s)) = [call c v] /\ outcome (step s) = Ok tt
       else (exists rest,
               calls (trace (step s))
               = call c v :: populateTransaction c m o :: rest) /\
            (outcome (step s) = Ok tt ->
             exists tx, milestones (trace (step s)) = stages c m tx)) /\
    (forall e w,
       oracle (call c v) (world s) = (inl e, w) ->
       calls (trace (step s)) = [call c v] /\ outcome (step s) = Throw e).

(** A step that compares one value: it does what [compare_and_set]
    does, with what [guarded] draws from that. *)
Definition compares `{P : Platform} (multisig : option string) (step : Script unit)
    (c : Contract) (v : Abi.View) (same : string -> bool) (m : Abi.Method)
    (o : option Overrides) : Prop :=
  implements step (compare_and_set multisig c v same m o) /\
  guarded step c v same m o.

(** An address-set step leaves the chain alone when the set it reads
    is, in lower case, the desired set, whatever the order and the
    repetitions in the two lists: the read is its only call. *)
Definition settled `{P : Platform} (step : Script unit) (c : Contract)
    (v : Abi.ListView) (config : list string) : Prop :=
  forall s onchain w,
    oracle (call_list c v) (world s) = (inr onchain, w) ->
    (forall a, a ∈ map JS.toLowerCase onchain <-> a ∈ map JS.toLowerCase config) ->
    calls (trace (step s)) = [call_list c v] /\ outcome (step s) = Ok tt.

(** A step that reads nothing: its first call builds [m], and a run that
    returns has built, submitted and had confirmed that transaction. *)
Definition unconditional `{P : Platform} (step : Script unit) (c : Contract)
    (m : Abi.Method) : Prop :=
  forall s,
    Forall (fun a => is_read a = false) (calls (trace (step s))) /\
    head (calls (trace (step s))) = Some (populateTransaction c m None) /\
    (outcome (step s) = Ok tt ->
     exists tx, milestones (trace (step s)) = stages c m tx).

(** A step that emits whatever is on chain: it does what [emit] does. *)
Definition always_emits `{P : Platform} (multisig : option string)
    (step : Script unit) (c : Contract) (m : Abi.Method) : Prop :=
  implements step (emit multisig c m None) /\
  unconditional step c m.

(** What idempotence by read-then-compare asks of every step: nothing is
    emitted unless on-chain state has been read first. *)
Definition reads_before_emitting `{P : Platform} (step : Script unit) : Prop :=
  forall s,
    emitted (trace (step s)) <> [] ->
    exists a, head (calls (trace (step s))) = Some a /\ is_read a = true.

(** ** Concrete inputs *)
Module Demo.

Definition at_address (a : string) : Contract :=
  {| address := a; deployTransaction := None |}.

Definition proxy : Contract := at_address "0xProxy".
Definition impl : Contract := at_address "0xImpl".
Definition uni : Contract := at_address "0xUni".
Definition compound : Contract := at_address "0xCompound".
Definition aave : Contract := at_address "0xAaveV1".

Definition comptroller : string := "0x3d9819210a31b4961b30ef54be2aed79b9c9cd3b".

Definition aaveV1Config : AaveV1.Config :=
  {| AaveV1.poolV1 := "0xPool"; AaveV1.poolCoreV1 := "0xCore";
     AaveV1.referralCode := 157; AaveV1.tokens := ["0xDai"] |}.

Definition compoundConfig : Compound.Config :=
  {| Compound.compTroller := comptroller; Compound.cNative := "0xcEth";
     Compound.cTokens := ["0xcDai"] |}.

Definition config : Cfg.IConfig :=
  {| Cfg.autoVerifyContract := true;
     Cfg.supportedWallets := ["0xAA"; "0xCC"];
     Cfg.uniswap := Some {| Uniswap.routers := ["0xR1"] |};
     Cfg.uniswapV3 := None;
     Cfg.kyberProxy := None;
     Cfg.kyberDmm := None;
     Cfg.compound := Some compoundConfig;
     Cfg.aaveV1 := Some aaveV1Config;
     Cfg.aaveV2 := None;
     Cfg.aaveAMM := None |}.

(** The same configuration with the letters of the wallets in the
    other case. *)
Definition config' : Cfg.IConfig :=
  {| Cfg.autoVerifyContract := true;
     Cfg.supportedWallets := ["0xaa"; "0xcC"];
     Cfg.uniswap := Some {| Uniswap.routers := ["0xr1"] |};
     Cfg.uniswapV3 := None;
     Cfg.kyberProxy := None;
     Cfg.kyberDmm := None;
     Cfg.compound := Some compoundConfig;
     Cfg.aaveV1 := Some aaveV1Config;
     Cfg.aaveV2 := None;
     Cfg.aaveAMM := None |}.

Definition contracts : KrystalContracts :=
  {| smartWalletImplementation := impl;
     smartWalletProxy := proxy;
     fetchTokenBalances := at_address "0xBalances";
     fetchAaveDataWrapper := at_address "0xWrapper";
     swapContracts := {| uniSwap := Some uni; uniSwapV3 := None;
                         kyberProxy := None; kyberDmm := None |};
     lendingContracts := {| compoundLending := Some compound;
                            aaveV1 := Some aave;
                            aaveV2 := None; aaveAMM := None |} |}.

Definition extraArgs : ExtraArgs := {| from := None |}.

(** A chain on which the implementation and the comptroller are
    already the configured ones, and the proxy supports the wallets
    0xaa and 0xbb. *)
Definition chain : Sim.Chain :=
  {| Sim.signers := [SignerHandle 0];
     Sim.views := fun _ v =>
       match v with
       | Abi.implementation => "0xImpl"
       | Abi.compoundData => comptroller
       | _ => "0xProxy"
       end;
     Sim.list_views := fun _ _ => ["0xaa"; "0xBB"];
     Sim.failing := fun _ => None |}.

(** The same chain, with a verification service that is down. *)
Definition chain_unverifiable : Sim.Chain :=
  {| Sim.signers := [SignerHandle 0];
     Sim.views := Sim.views chain;
     Sim.list_views := Sim.list_views chain;
     Sim.failing := fun a =>
       if is_run_verify a then Some (mkError "verification failed") else None |}.

(** The same chain, with the letters of the wallets it stores in the
    other case. *)
Definition chain' : Sim.Chain :=
  {| Sim.signers := [SignerHandle 0];
     Sim.views := Sim.views chain;
     Sim.list_views := fun _ _ => ["0xAA"; "0xbb"];
     Sim.failing := fun _ => None |}.

(** The same chain, on which the proxy supports the configured
    wallets, stored in another order, in another letter case and one
    of them twice. *)
Definition chain_settled : Sim.Chain :=
  {| Sim.signers := [SignerHandle 0];
     Sim.views := Sim.views chain;
     Sim.list_views := fun _ _ => ["0xCC"; "0xaa"; "0xAA"];
     Sim.failing := fun _ => None |}.

(** A node that cannot be reached. *)
Definition chain_offline : Sim.Chain :=
  {| Sim.signers := [];
     Sim.views := Sim.views chain;
     Sim.list_views := Sim.list_views chain;
     Sim.failing := fun a =>
       match a with
       | getSigners => Some (mkError "offline")
       | _ => None
       end |}.

Definition populated : PopulatedTransaction :=
  {| txn_to := Some "0xProxy"; txn_from := None; txn_data := Some "0xdata";
     txn_value := None; txn_gasLimit := Some gasLimit |}.

(** The network table of a repository that knows one network. *)
Definition NetworkConfig : gmap string Cfg.IConfig := {[ "mainnet" := config ]}.

(** An importing script: it runs [deploy] when the module has found a
    configuration, and does nothing more when it has found something
    else. *)
Definition importer (networkConfig : Looked)
  : @Script Sim.platform (option KrystalContracts) :=
  match networkConfig with
  | Own networkConfig =>
      do k <- deploy (P:=Sim.platform) None networkConfig None extraArgs;
      ret (Some k)
  | Inherited _ => ret None
  end.

End Demo.

(* ===================================================================== *)
(** * More of the repository, and further observations                    *)
(* ===================================================================== *)

(** ** The second half of [deploy]

    [deploy] once the contracts are there (lines 64-112): the
    initialization steps, one after the other, and the summary.  [deploy]
    is its first lines followed by this (see [deploy_initialize]). *)
Definition initialize `{P : Platform} (multisig : option string)
    (networkConfig : Cfg.IConfig) (deployedContracts : KrystalContracts)
    (extraArgs : ExtraArgs) : Script KrystalContracts :=
  (* Initialization *)
  do _ <- log 0 [LStr "Updating proxy data"];
  do _ <- log 0 [LStr rule];
  do _ <- updateProxy multisig networkConfig deployedContracts extraArgs;
  do _ <- log 0 [LStr "Updating swaps/lendings linking"];
  do _ <- log 0 [LStr rule];
  do _ <- updateChildContracts multisig deployedContracts extraArgs;
  do _ <- log 0 [LStr "Updating uniswap/clones config"];
  do _ <- log 0 [LStr rule];
  do _ <- updateUniSwap multisig networkConfig
            (uniSwap (swapContracts deployedContracts)) extraArgs;
  do _ <- log 0 [LStr "Updating uniswapV3/clones config"];
  do _ <- log 0 [LStr rule];
  do _ <- updateUniSwapV3 multisig networkConfig
            (uniSwapV3 (swapContracts deployedContracts)) extraArgs;
  do _ <- log 0 [LStr "Updating kyberProxy config"];
  do _ <- log 0 [LStr rule];
  do _ <- updateKyberProxy multisig networkConfig
            (kyberProxy (swapContracts deployedContracts)) extraArgs;
  do _ <- log 0 [LStr "Updating kyberDmm config"];
  do _ <- log 0 [LStr rule];
  do _ <- updateKyberDmm multisig networkConfig
            (kyberDmm (swapContracts deployedContracts)) extraArgs;
  do _ <- log 0 [LStr "Updating compound/clones config"];
  do _ <- log 0 [LStr rule];
  do _ <- updateCompoundLending multisig networkConfig
            (compoundLending (lendingContracts deployedContracts)) extraArgs;
  do _ <- log 0 [LStr "Updating aave V1 config"];
  do _ <- log 0 [LStr rule];
  do _ <- updateAaveV1Lending multisig networkConfig
            (aaveV1 (lendingContracts deployedContracts)) extraArgs;
  do _ <- log 0 [LStr "Updating aave V2 config"];
  do _ <- log 0 [LStr rule];
  do _ <- updateAaveV2Lending multisig networkConfig
            (aaveV2 (lendingContracts deployedContracts))
            (Cfg.aaveV2 networkConfig) extraArgs;
  do _ <- log 0 [LStr "Updating aave AMM config"];
  do _ <- log 0 [LStr rule];
  do _ <- updateAaveV2Lending multisig networkConfig
            (aaveAMM (lendingContracts deployedContracts))
            (Cfg.aaveAMM networkConfig) extraArgs;
  (* Summary *)
  do _ <- log 0 [LStr "Summary"];
  do _ <- log 0 [LStr ("=======" ++ newline)];
  do _ <- log 0 [LJson (json_addresses
                          (convertToAddressObject (contracts_object deployedContracts)))];
  do _ <- console_log [LStr (newline ++ "Deployment complete!")];
  ret deployedContracts.

(** ** The configuration of the Fantom network

    [FantomConfig] (the configuration file among the sources) has one
    entry, fantom_mainnet.  Of its fields the script reads
    [autoVerifyContract] and [supportedWallets]; the protocols it names
    (kyberDmmV2, kyberSwapV2, kyberSwapV3) are none of those that
    deployLogic.ts looks at, so every protocol of the script is absent.
    [commonPlatformWallets] comes from config_utils.ts, which is not
    among the sources, and is a parameter. *)
Definition fantom_mainnet (commonPlatformWallets : list string) : Cfg.IConfig :=
  {| Cfg.autoVerifyContract := true;
     Cfg.supportedWallets := commonPlatformWallets;
     Cfg.uniswap := None;
     Cfg.uniswapV3 := None;
     Cfg.kyberProxy := None;
     Cfg.kyberDmm := None;
     Cfg.compound := None;
     Cfg.aaveV1 := None;
     Cfg.aaveV2 := None;
     Cfg.aaveAMM := None |}.

Definition FantomConfig (commonPlatformWallets : list string)
  : gmap string Cfg.IConfig :=
  {[ "fantom_mainnet" := fantom_mainnet commonPlatformWallets ]}.

(** ** [existingContract] as an object

    [deployContracts] (lines 121-234) reads [existingContract] with
    optional chaining, [existingContract?.[k]] and
    [existingContract?.[k]?.[k']].  [property o k] is [o?.[k]] for the
    keys used there: [undefined], a string and an array have no such
    property.  The values found are passed on as [contractAddress], of
    type [string | undefined]. *)
Definition property (o : Obj string) (key : string) : Obj string :=
  match o with
  | ORecord fields => Object.record_get fields key
  | _ => OUndefined
  end.

Definition as_address (o : Obj string) : option string :=
  match o with
  | OLeaf a => Some a
  | _ => None
  end.

(** What [deployContracts] finds in the object [o] at each path it
    looks up. *)
Definition existing_of (o : Obj string) : Existing.t :=
  {| Existing.smartWalletImplementation := as_address (property o "smartWalletImplementation");
     Existing.smartWalletProxy := as_address (property o "smartWalletProxy");
     Existing.fetchTokenBalances := as_address (property o "fetchTokenBalances");
     Existing.fetchAaveDataWrapper := as_address (property o "fetchAaveDataWrapper");
     Existing.swapContracts :=
       match property o "swapContracts" with
       | OUndefined => None
       | swaps =>
           Some {| Existing.uniSwap := as_address (property swaps "uniSwap");
                   Existing.uniSwapV3 := as_address (property swaps "uniSwapV3");
                   Existing.kyberProxy := as_address (property swaps "kyberProxy");
                   Existing.kyberDmm := as_address (property swaps "kyberDmm") |}
       end;
     Existing.lendingContracts :=
       match property o "lendingContracts" with
       | OUndefined => None
       | lendings =>
           Some {| Existing.compoundLending :=
                     as_address (property lendings "compoundLending");
                   Existing.aaveV1Lending :=
                     as_address (property lendings "aaveV1Lending");
                   Existing.aaveV2Lending :=
                     as_address (property lendings "aaveV2Lending");
                   Existing.aaveAMMLending :=
                     as_address (property lendings "aaveAMMLending") |}
       end |}.

(** ** Deployments

    What a trace shows of the deployment of contracts: the factories
    requested by name and the constructor arguments of each
    [factory.deploy]. *)
Inductive deployment :=
| Requested (contractName : string)
| Deployed (args : list Arg).

Definition deployment_of (a : action) : option deployment :=
  match a with
  | getContractFactory contractName => Some (Requested contractName)
  | factory_deploy _ args => Some (Deployed args)
  | _ => None
  end.

Definition deployments (t : list entry) : list deployment :=
  omap deployment_of (calls t).

(** One contract: its factory is requested, and it is deployed when no
    address of an earlier deployment is at hand. *)
Definition request (contractName : string) (contractAddress : option string)
    (args : list Arg) : list deployment :=
  Requested contractName ::
  (if JS.truthy contractAddress then [] else [Deployed args]).

Definition when {C} (cfg : option C) (f : C -> list deployment) : list deployment :=
  match cfg with
  | Some c => f c
  | None => []
  end.

(** The deployments of a run of [deployContracts] that returns [k]: the
    three contracts every network has, the swap and lending contracts of
    the protocols configured, and last the proxy, built on the addresses
    of the others. *)
Definition planned (networkConfig : Cfg.IConfig) (existingContract : option Existing.t)
    (contractAdmin : string) (k : KrystalContracts) : list deployment :=
  let swapsOf := existingContract ≫= Existing.swapContracts in
  let lendingsOf := existingContract ≫= Existing.lendingContracts in
  request "SmartWalletImplementation"
    (existingContract ≫= Existing.smartWalletImplementation) [ArgString contractAdmin] ++
  request "FetchTokenBalances"
    (existingContract ≫= Existing.fetchTokenBalances) [ArgString contractAdmin] ++
  request "FetchAaveDataWrapper"
    (existingContract ≫= Existing.fetchAaveDataWrapper) [ArgString contractAdmin] ++
  when (Cfg.uniswap networkConfig) (fun cfg =>
    request "UniSwap" (swapsOf ≫= Existing.uniSwap)
      [ArgString contractAdmin; ArgList (Uniswap.routers cfg)]) ++
  when (Cfg.uniswapV3 networkConfig) (fun cfg =>
    request "UniSwapV3" (swapsOf ≫= Existing.uniSwapV3)
      [ArgString contractAdmin; ArgList (Uniswap.routers cfg)]) ++
  when (Cfg.kyberProxy networkConfig) (fun cfg =>
    request "KyberProxy" (swapsOf ≫= Existing.kyberProxy)
      [ArgString contractAdmin; ArgString (KyberProxy.proxy cfg)]) ++
  when (Cfg.kyberDmm networkConfig) (fun cfg =>
    request "KyberDmm" (swapsOf ≫= Existing.kyberDmm)
      [ArgString contractAdmin; ArgString (KyberDmm.router cfg)]) ++
  when (Cfg.compound networkConfig) (fun _ =>
    request "CompoundLending" (lendingsOf ≫= Existing.compoundLending)
      [ArgString contractAdmin]) ++
  when (Cfg.aaveV1 networkConfig) (fun _ =>
    request "AaveV1Lending" (lendingsOf ≫= Existing.aaveV1Lending)
      [ArgString contractAdmin]) ++
  when (Cfg.aaveV2 networkConfig) (fun _ =>
    request "AaveV2Lending" (lendingsOf ≫= Existing.aaveV2Lending)
      [ArgString contractAdmin]) ++
  when (Cfg.aaveAMM networkConfig) (fun _ =>
    request "AaveV2Lending" (lendingsOf ≫= Existing.aaveAMMLending)
      [ArgString contractAdmin]) ++
  request "SmartWalletProxy" (existingContract ≫= Existing.smartWalletProxy)
    [ArgString contractAdmin;
     ArgString (address (smartWalletImplementation k));
     ArgList (Cfg.supportedWallets networkConfig);
     ArgList (map address (filter_defined (swap_values (swapContracts k))));
     ArgList (map address (filter_defined (lending_values (lendingContracts k))))].

(** The contracts of a network configuration, in the order in which
    [deployContracts] takes them. *)
Definition named {C} (cfg : option C) (contractName : string) : list string :=
  match cfg with
  | Some _ => [contractName]
  | None => []
  end.

Definition contract_names (networkConfig : Cfg.IConfig) : list string :=
  ["SmartWalletImplementation"; "FetchTokenBalances"; "FetchAaveDataWrapper"] ++
  named (Cfg.uniswap networkConfig) "UniSwap" ++
  named (Cfg.uniswapV3 networkConfig) "UniSwapV3" ++
  named (Cfg.kyberProxy networkConfig) "KyberProxy" ++
  named (Cfg.kyberDmm networkConfig) "KyberDmm" ++
  named (Cfg.compound networkConfig) "CompoundLending" ++
  named (Cfg.aaveV1 networkConfig) "AaveV1Lending" ++
  named (Cfg.aaveV2 networkConfig) "AaveV2Lending" ++
  named (Cfg.aaveAMM networkConfig) "AaveV2Lending" ++
  ["SmartWalletProxy"].

(** An earlier deployment that has an address for every contract of the
    configuration. *)
Definition on_record {C} (cfg : option C) (contractAddress : option string) : bool :=
  match cfg with
  | Some _ => JS.truthy contractAddress
  | None => true
  end.

Definition complete (networkConfig : Cfg.IConfig) (existingContract : option Existing.t)
  : bool :=
  let swapsOf := existingContract ≫= Existing.swapContracts in
  let lendingsOf := existingContract ≫= Existing.lendingContracts in
  JS.truthy (existingContract ≫= Existing.smartWalletImplementation) &&
  JS.truthy (existingContract ≫= Existing.fetchTokenBalances) &&
  JS.truthy (existingContract ≫= Existing.fetchAaveDataWrapper) &&
  on_record (Cfg.uniswap networkConfig) (swapsOf ≫= Existing.uniSwap) &&
  on_record (Cfg.uniswapV3 networkConfig) (swapsOf ≫= Existing.uniSwapV3) &&
  on_record (Cfg.kyberProxy networkConfig) (swapsOf ≫= Existing.kyberProxy) &&
  on_record (Cfg.kyberDmm networkConfig) (swapsOf ≫= Existing.kyberDmm) &&
  on_record (Cfg.compound networkConfig) (lendingsOf ≫= Existing.compoundLending) &&
  on_record (Cfg.aaveV1 networkConfig) (lendingsOf ≫= Existing.aaveV1Lending) &&
  on_record (Cfg.aaveV2 networkConfig) (lendingsOf ≫= Existing.aaveV2Lending) &&
  on_record (Cfg.aaveAMM networkConfig) (lendingsOf ≫= Existing.aaveAMMLending) &&
  JS.truthy (existingContract ≫= Existing.smartWalletProxy).

(** What [factory.attach(a)] returns, whatever the factory. *)
Definition attached (a : string) : Contract :=
  {| address := a; deployTransaction := None |}.

(** The contract [c] (if there is one) is the one on record at
    [contractAddress] (if there is one). *)
Definition reused (contractAddress : option string) (c : option Contract) : Prop :=
  forall a x, JS.defined contractAddress = Some a -> c = Some x -> x = attached a.

(** Every contract of [k] that the earlier deployment has an address
    for is that contract. *)
Definition reuses (existingContract : option Existing.t) (k : KrystalContracts) : Prop :=
  let swapsOf := existingContract ≫= Existing.swapContracts in
  let lendingsOf := existingContract ≫= Existing.lendingContracts in
  reused (existingContract ≫= Existing.smartWalletImplementation)
    (Some (smartWalletImplementation k)) /\
  reused (existingContract ≫= Existing.fetchTokenBalances)
    (Some (fetchTokenBalances k)) /\
  reused (existingContract ≫= Existing.fetchAaveDataWrapper)
    (Some (fetchAaveDataWrapper k)) /\
  reused (swapsOf ≫= Existing.uniSwap) (uniSwap (swapContracts k)) /\
  reused (swapsOf ≫= Existing.uniSwapV3) (uniSwapV3 (swapContracts k)) /\
  reused (swapsOf ≫= Existing.kyberProxy) (kyberProxy (swapContracts k)) /\
  reused (swapsOf ≫= Existing.kyberDmm) (kyberDmm (swapContracts k)) /\
  reused (lendingsOf ≫= Existing.compoundLending) (compoundLending (lendingContracts k)) /\
  reused (lendingsOf ≫= Existing.aaveV1Lending) (aaveV1 (lendingContracts k)) /\
  reused (lendingsOf ≫= Existing.aaveV2Lending) (aaveV2 (lendingContracts k)) /\
  reused (lendingsOf ≫= Existing.aaveAMMLending) (aaveAMM (lendingContracts k)) /\
  reused (existingContract ≫= Existing.smartWalletProxy) (Some (smartWalletProxy k)).

(** The contract [c] (if there is one), for which no address was on
    record, has been created in the trace [t]. *)
Definition created_anew (contractAddress : option string) (c : option Contract)
    (t : list entry) : Prop :=
  forall x, JS.defined contractAddress = None -> c = Some x ->
    Created x ∈ milestones t.

(** Every contract of [k] that the earlier deployment has no address
    for has been created in [t]. *)
Definition renews (existingContract : option Existing.t) (k : KrystalContracts)
    (t : list entry) : Prop :=
  let swapsOf := existingContract ≫= Existing.swapContracts in
  let lendingsOf := existingContract ≫= Existing.lendingContracts in
  created_anew (existingContract ≫= Existing.smartWalletImplementation)
    (Some (smartWalletImplementation k)) t /\
  created_anew (existingContract ≫= Existing.fetchTokenBalances)
    (Some (fetchTokenBalances k)) t /\
  created_anew (existingContract ≫= Existing.fetchAaveDataWrapper)
    (Some (fetchAaveDataWrapper k)) t /\
  created_anew (swapsOf ≫= Existing.uniSwap) (uniSwap (swapContracts k)) t /\
  created_anew (swapsOf ≫= Existing.uniSwapV3) (uniSwapV3 (swapContracts k)) t /\
  created_anew (swapsOf ≫= Existing.kyberProxy) (kyberProxy (swapContracts k)) t /\
  created_anew (swapsOf ≫= Existing.kyberDmm) (kyberDmm (swapContracts k)) t /\
  created_anew (lendingsOf ≫= Existing.compoundLending)
    (compoundLending (lendingContracts k)) t /\
  created_anew (lendingsOf ≫= Existing.aaveV1Lending) (aaveV1 (lendingContracts k)) t /\
  created_anew (lendingsOf ≫= Existing.aaveV2Lending) (aaveV2 (lendingContracts k)) t /\
  created_anew (lendingsOf ≫= Existing.aaveAMMLending) (aaveAMM (lendingContracts k)) t /\
  created_anew (existingContract ≫= Existing.smartWalletProxy)
    (Some (smartWalletProxy k)) t.

(** The swap and lending contracts of [k] are those of the protocols
    that [networkConfig] has. *)
Definition follows (networkConfig : Cfg.IConfig) (k : KrystalContracts) : Prop :=
  (is_Some (uniSwap (swapContracts k)) <-> is_Some (Cfg.uniswap networkConfig)) /\
  (is_Some (uniSwapV3 (swapContracts k)) <-> is_Some (Cfg.uniswapV3 networkConfig)) /\
  (is_Some (kyberProxy (swapContracts k)) <-> is_Some (Cfg.kyberProxy networkConfig)) /\
  (is_Some (kyberDmm (swapContracts k)) <-> is_Some (Cfg.kyberDmm networkConfig)) /\
  (is_Some (compoundLending (lendingContracts k))
     <-> is_Some (Cfg.compound networkConfig)) /\
  (is_Some (aaveV1 (lendingContracts k)) <-> is_Some (Cfg.aaveV1 networkConfig)) /\
  (is_Some (aaveV2 (lendingContracts k)) <-> is_Some (Cfg.aaveV2 networkConfig)) /\
  (is_Some (aaveAMM (lendingContracts k)) <-> is_Some (Cfg.aaveAMM networkConfig)).

(** ** Calls allowed

    A monitor that accepts the calls [ok] holds of and no other. *)
Definition only_step (ok : action -> bool) (q : unit) (e : entry) : option unit :=
  match call_of e with
  | Some a => if ok a then Some tt else None
  | None => Some tt
  end.

Definition Only (ok : action -> bool) : Discipline :=
  {| mon := {| mstate := unit; mstep := only_step ok |};
     q0 := tt;
     on_throw := fun _ _ => True;
     neutral := ok;
     exempt := ok |}.

(** The calls of [executeTxn] and [printInfo], and those on signers:
    what every step of the script does around its own calls. *)
Definition plumbing (a : action) : bool :=
  match a with
  | getSigners | getAddress _ | wait _ _ | sendTransaction _ _
  | EthersSafe_create _ _ | createTransaction _ _ | executeTransaction _ _ => true
  | _ => false
  end.

(** Calls that are no part of a verification, or of a deployment. *)
Definition no_verification (a : action) : bool := negb (is_verification a).

Definition no_deployment (a : action) : bool :=
  match deployment_of a with
  | Some _ => false
  | None => true
  end.

#[global] Instance Overrides_eq_dec : EqDecision Overrides.
Proof. solve_decision. Defined.

#[global] Instance Contract_eq_dec : EqDecision Contract.
Proof. solve_decision. Defined.

(** The contract a call reads from or builds a transaction on. *)
Definition target (a : action) : option Contract :=
  match a with
  | call c _ | call_list c _ | populateTransaction c _ _ => Some c
  | _ => None
  end.

Definition touches (allowed : list Contract) (a : action) : bool :=
  match target a with
  | Some c => bool_decide (c ∈ allowed)
  | None => true
  end.

(** The swap and lending contracts of [k], in the order of the loop of
    [updateChildContracts]. *)
Definition children (k : KrystalContracts) : list Contract :=
  filter_defined (map snd (merged k)).

(** How the transactions of the script are built: with the overrides
    [{gasLimit, ...extraArgs}] on the proxy, on the link of a child and
    on the routers; with none for the Kyber, Compound and Aave data. *)
Definition built_with (extraArgs : ExtraArgs) (a : action) : bool :=
  match a with
  | populateTransaction _ m o =>
      match m with
      | Abi.updateKyberProxy _ | Abi.updateDmmRouter _
      | Abi.updateCompoundData _ _ _
      | Abi.updateAaveDataV1 _ _ _ _ | Abi.updateAaveDataV2 _ _ _ _ _ =>
          bool_decide (o = None)
      | _ =>
          bool_decide (o = Some {| ov_gasLimit := 700000; ov_from := from extraArgs |})
      end
  | _ => true
  end.

(** ** Indentation *)

(** [n] spaces. *)
Fixpoint spaces (n : nat) : string :=
  match n with
  | O => ""
  | S n => String " " (spaces n)
  end.

(** ** Further inputs for the simulated chain *)
Module Sample.

(** The configuration of [Demo], without verification. *)
Definition quiet : Cfg.IConfig :=
  {| Cfg.autoVerifyContract := false;
     Cfg.supportedWallets := Cfg.supportedWallets Demo.config;
     Cfg.uniswap := Cfg.uniswap Demo.config;
     Cfg.uniswapV3 := Cfg.uniswapV3 Demo.config;
     Cfg.kyberProxy := Cfg.kyberProxy Demo.config;
     Cfg.kyberDmm := Cfg.kyberDmm Demo.config;
     Cfg.compound := Cfg.compound Demo.config;
     Cfg.aaveV1 := Cfg.aaveV1 Demo.config;
     Cfg.aaveV2 := Cfg.aaveV2 Demo.config;
     Cfg.aaveAMM := Cfg.aaveAMM Demo.config |}.

(** An earlier deployment with an address for every contract of
    [Demo.config]. *)
Definition record : Existing.t :=
  {| Existing.smartWalletImplementation := Some "0xImpl";
     Existing.smartWalletProxy := Some "0xProxy";
     Existing.fetchTokenBalances := Some "0xBalances";
     Existing.fetchAaveDataWrapper := Some "0xWrapper";
     Existing.swapContracts :=
       Some {| Existing.uniSwap := Some "0xUni";
               Existing.uniSwapV3 := None;
               Existing.kyberProxy := None;
               Existing.kyberDmm := None |};
     Existing.lendingContracts :=
       Some {| Existing.compoundLending := Some "0xCompound";
               Existing.aaveV1Lending := Some "0xAaveV1";
               Existing.aaveV2Lending := None;
               Existing.aaveAMMLending := None |} |}.

(** A populated transaction with no data. *)
Definition empty_txn : PopulatedTransaction :=
  {| txn_to := Some "0xProxy"; txn_from := None; txn_data := None;
     txn_value := None; txn_gasLimit := None |}.

(** [Demo.populated] with another sender and no gas limit. *)
Definition resent : PopulatedTransaction :=
  {| txn_to := Some "0xProxy"; txn_from := Some "0xd0"; txn_data := Some "0xdata";
     txn_value := None; txn_gasLimit := None |}.

(** The first contract that the simulated chain deploys for a name. *)
Definition fresh (contractName : string) : Contract :=
  {| address := "0xnew" ++ contractName; deployTransaction := Some Sim.tx0 |}.

End Sample.

(* ===================================================================== *)
(** * Reasoning rules                                                     *)
(* ===================================================================== *)

Section TripleRules.
Context `{P : Platform} (M : Monitor).

Lemma mrun_app q t1 t2 :
  mrun M q (t1 ++ t2) = mrun M q t1 ≫= fun q' => mrun M q' t2.
Proof.
  revert q. induction t1 as [|e t1 IH]; intros q; simpl; [done|].
  destruct (mstep M q e); simpl; auto.
Qed.

Lemma triple_ret {A} q (a : A) (post : Outcome A -> mstate M -> Prop) :
  post (Ok a) q -> triple M q (ret a) post.
Proof. intros H s. exists q. simpl. auto. Qed.

Lemma triple_throw {A} q e (post : Outcome A -> mstate M -> Prop) :
  post (Throw e) q -> triple M q (throw e) post.
Proof. intros H s. exists q. simpl. auto. Qed.

Lemma triple_bind {A B} q (m : Script A) (f : A -> Script B) mid post :
  triple M q m mid ->
  (forall a q1, mid (Ok a) q1 -> triple M q1 (f a) post) ->
  (forall e q1, mid (Throw e) q1 -> post (Throw e) q1) ->
  triple M q (bind m f) post.
Proof.
  intros Hm Hf He s. destruct (Hm s) as (q1 & Hrun & Hmid).
  unfold bind. destruct (m s) as [[a|e] s1 t1]; simpl in *.
  - destruct (Hf a q1 Hmid s1) as (q2 & Hrun2 & Hpost).
    destruct (f a s1) as [o2 s2 t2]; simpl in *.
    exists q2. rewrite mrun_app, Hrun. simpl. auto.
  - exists q1. auto.
Qed.

Lemma triple_conseq {A} q (m : Script A) (post post' : Outcome A -> mstate M -> Prop) :
  triple M q m post -> (forall r q', post r q' -> post' r q') -> triple M q m post'.
Proof. intros Hm Himp s. destruct (Hm s) as (q' & ? & ?). eauto. Qed.

Lemma triple_perform q (a : action) (post : Outcome (resp a) -> mstate M -> Prop) :
  (forall r, exists q', mstep M q (Called a r) = Some q' /\ post (lift r) q') ->
  triple M q (perform a) post.
Proof.
  intros H s. unfold perform. destruct (oracle a (world s)) as [r w] eqn:Ho.
  destruct (H r) as (q' & Hq & Hp). exists q'.
  destruct r; simpl in *; rewrite Hq; auto.
Qed.

Lemma triple_console_log q args (post : Outcome unit -> mstate M -> Prop) :
  quiet M q -> post (Ok tt) q -> triple M q (console_log args) post.
Proof. intros HQ H s. exists q. simpl. rewrite HQ. auto. Qed.

Lemma triple_log q level args (post : Outcome unit -> mstate M -> Prop) :
  quiet M q -> post (Ok tt) q -> triple M q (log level args) post.
Proof.
  intros HQ H s. exists q. unfold log, bind, get_prevLevel, set_prevLevel. simpl.
  destruct (prevLevel s) as [p|]; [destruct (level <? p)%nat|]; simpl;
    rewrite ?HQ; auto.
Qed.

Lemma triple_try_catch {A} q (m : Script A) h mid post :
  triple M q m mid ->
  (forall a q1, mid (Ok a) q1 -> post (Ok a) q1) ->
  (forall e q1, mid (Throw e) q1 -> triple M q1 (h e) post) ->
  triple M q (try_catch m h) post.
Proof.
  intros Hm Hok Hh s. destruct (Hm s) as (q1 & Hrun & Hmid).
  unfold try_catch. destruct (m s) as [[a|e] s1 t1]; simpl in *.
  - exists q1. auto.
  - destruct (Hh e q1 Hmid s1) as (q2 & Hrun2 & Hpost).
    destruct (h e s1) as [o2 s2 t2]; simpl in *.
    exists q2. rewrite mrun_app, Hrun. simpl. auto.
Qed.

Lemma triple_for_each {A} q (l : list A) (body : A -> Script unit)
    (post : Outcome unit -> mstate M -> Prop) :
  (forall x, triple M q (body x)
               (fun r q' => match r with
                            | Ok _ => q' = q
                            | Throw e => post (Throw e) q'
                            end)) ->
  post (Ok tt) q ->
  triple M q (for_each l body) post.
Proof.
  intros Hb Hq. induction l as [|x l IH]; simpl.
  - by apply triple_ret.
  - eapply triple_bind; [apply Hb| |]; simpl.
    + intros _ q1 ->. apply IH.
    + auto.
Qed.
End TripleRules.

Section Respects.
Context `{P : Platform} (D : Discipline) `{!Sound D}.

Lemma respects_ret {A} (a : A) : respects D (ret a).
Proof. by apply triple_ret. Qed.

Lemma respects_throw {A} e : respects D (throw (A:=A) e).
Proof. apply triple_throw. apply sound_throw. Qed.

Lemma respects_bind {A B} (m : Script A) (f : A -> Script B) :
  respects D m -> (forall a, respects D (f a)) -> respects D (bind m f).
Proof.
  intros Hm Hf. eapply triple_bind; [apply Hm| |]; simpl.
  - intros a q1 ->. apply Hf.
  - auto.
Qed.

Lemma respects_perform a : neutral D a = true -> respects D (perform a).
Proof. intros H. apply triple_perform. intros r. by apply sound_neutral. Qed.

Lemma respects_console_log args : respects D (console_log args).
Proof. apply triple_console_log; [apply sound_quiet|done]. Qed.

Lemma respects_log level args : respects D (log level args).
Proof. apply triple_log; [apply sound_quiet|done]. Qed.

Lemma respects_for_each {A} (l : list A) (body : A -> Script unit) :
  (forall x, respects D (body x)) -> respects D (for_each l body).
Proof.
  intros Hb. apply triple_for_each; [|done].
  intros x. eapply triple_conseq; [apply Hb|]. by intros [[]|e] q'.
Qed.

Lemma harmless_bind {A B} (m : Script A) (f : A -> Script B) :
  harmless D m -> (forall a, harmless D (f a)) -> harmless D (bind m f).
Proof.
  intros Hm Hf. eapply triple_bind; [apply Hm| |]; simpl.
  - intros a q1 ->. apply Hf.
  - auto.
Qed.

Lemma harmless_perform a : exempt D a = true -> harmless D (perform a).
Proof.
  intros H. apply triple_perform. intros r. exists (q0 D).
  split; [by apply sound_exempt|done].
Qed.

Lemma harmless_log level args : harmless D (log level args).
Proof. apply triple_log; [apply sound_quiet|done]. Qed.

Lemma respects_try_catch {A} (m : Script A) h :
  harmless D m -> (forall e, respects D (h e)) -> respects D (try_catch m h).
Proof.
  intros Hm Hh. eapply triple_try_catch; [apply Hm| |]; simpl.
  - by intros a q1 ->.
  - intros e q1 ->. apply Hh.
Qed.
End Respects.

Create HintDb respects discriminated.

Ltac solve_neutral :=
  simpl; unfold off_route;
  repeat match goal with |- context [if ?b then _ else _] => destruct b end;
  reflexivity.

(** One step of the proof that a function respects a discipline: follow
    the structure of the code. *)
Ltac respects_step :=
  try (lazymatch goal with |- Sound _ => typeclasses eauto end);
  lazymatch goal with
  | |- forall _, _ => intros
  | |- respects _ (bind _ _) =>
      first [ solve [eauto 1 with respects nocore] | apply respects_bind ]
  | |- respects _ (ret _) => apply respects_ret
  | |- respects _ (throw _) => apply respects_throw
  | |- respects _ (log _ _) => apply respects_log
  | |- respects _ (console_log _) => apply respects_console_log
  | |- respects _ (for_each _ _) => apply respects_for_each
  | |- respects _ (try_catch _ _) => apply respects_try_catch
  | |- respects ?D (perform ?a) =>
      apply (respects_perform D a); solve_neutral
  | |- harmless _ (bind _ _) => apply harmless_bind
  | |- harmless _ (log _ _) => apply harmless_log
  | |- harmless ?D (perform ?a) =>
      apply (harmless_perform D a); solve_neutral
  | |- respects _ (match ?x with _ => _ end) => destruct x
  | |- respects _ _ => solve [eauto 1 with respects nocore]
  end.

Ltac respects_auto := repeat respects_step.

#[global] Instance Routing_sound safe : Sound (Routing safe).
Proof.
  split.
  - by intros args.
  - done.
  - intros a Ha r. exists tt. simpl in *. unfold routing_step. simpl.
    destruct (off_route safe a); [done|].
    split; [done|]. by destruct r.
  - intros a Ha r. simpl in *. unfold routing_step. simpl.
    by destruct (off_route safe a).
Qed.


#[global] Instance Fatal_sound : Sound Fatal.
Proof.
  split.
  - by intros args.
  - by intros e e'.
  - intros a _ [e|x]; simpl.
    + destruct (is_verification a); eexists; split; try done.
      by intros e' [= ->].
    + by exists None.
  - intros a Ha [e|x]; simpl in *; [by rewrite Ha|done].
Qed.

#[global] Instance Protocol_sound : Sound Protocol.
Proof.
  split.
  - by intros args.
  - done.
  - intros a Ha r. exists Idle. simpl in Ha.
    destruct a; try discriminate Ha; simpl; (split; [done|by destruct r]).
  - intros a Ha r. simpl in Ha. destruct a; try discriminate Ha; done.
Qed.

(** ** From the building blocks to [deploy]

    Whatever the discipline, once the calls outside a transaction are
    neutral and the two ways the script handles a transaction (with and
    without a log line before the confirmation) and [deployContract]
    respect it, every function of the script does. *)
Section Composition.
Context `{P : Platform} (D : Discipline) `{!Sound D}.
Variable multisig : option string.
Variable networkConfig : Cfg.IConfig.

Hypothesis reads_neutral : forall a, is_read a = true -> neutral D a = true.
Hypothesis getSigners_neutral : neutral D getSigners = true.
Hypothesis getAddress_neutral : forall s, neutral D (getAddress s) = true.

Hypothesis transact : forall c m o,
  respects D (do txn <- perform (populateTransaction c m o);
              do tx <- executeTxn multisig txn;
              printInfo tx).

Hypothesis transact_logged : forall c m o level args,
  respects D (do txn <- perform (populateTransaction c m o);
              do tx <- executeTxn multisig txn;
              do _ <- log level args;
              printInfo tx).

Hypothesis deployContract_respects : forall step autoVerify name addr args,
  respects D (deployContract step autoVerify name addr args).

Hint Resolve transact transact_logged deployContract_respects : respects.

Ltac solve_neutral ::=
  first [ apply getSigners_neutral | apply getAddress_neutral
        | apply reads_neutral; reflexivity ].

Lemma updateAddressSet_respects c mk toBeRemoved toBeAdded extraArgs :
  respects D (updateAddressSet multisig
                (fun l b o => perform (populateTransaction c (mk l b) (Some o)))
                toBeRemoved toBeAdded extraArgs).
Proof. unfold updateAddressSet. cbv beta. respects_auto. Qed.
Hint Resolve updateAddressSet_respects : respects.

Lemma updateProxy_respects k extraArgs :
  respects D (updateProxy multisig networkConfig k extraArgs).
Proof.
  unfold updateProxy, updateProxy_impl, updateProxy_wallets, updateProxy_swaps,
    updateProxy_lendings.
  respects_auto.
Qed.

Lemma updateChildContracts_respects k extraArgs :
  respects D (updateChildContracts multisig k extraArgs).
Proof. unfold updateChildContracts, linkChildContract. respects_auto. Qed.

Lemma updateUniSwap_respects c extraArgs :
  respects D (updateUniSwap multisig networkConfig c extraArgs).
Proof. unfold updateUniSwap. respects_auto. Qed.

Lemma updateUniSwapV3_respects c extraArgs :
  respects D (updateUniSwapV3 multisig networkConfig c extraArgs).
Proof. unfold updateUniSwapV3. respects_auto. Qed.

Lemma updateKyberProxy_respects c extraArgs :
  respects D (updateKyberProxy multisig networkConfig c extraArgs).
Proof. unfold updateKyberProxy. respects_auto. Qed.

Lemma updateKyberDmm_respects c extraArgs :
  respects D (updateKyberDmm multisig networkConfig c extraArgs).
Proof. unfold updateKyberDmm. respects_auto. Qed.

Lemma updateCompoundLending_respects c extraArgs :
  respects D (updateCompoundLending multisig networkConfig c extraArgs).
Proof. unfold updateCompoundLending. respects_auto. Qed.

Lemma updateAaveV1Lending_respects c extraArgs :
  respects D (updateAaveV1Lending multisig networkConfig c extraArgs).
Proof. unfold updateAaveV1Lending. respects_auto. Qed.

Lemma updateAaveV2Lending_respects c cfg extraArgs :
  respects D (updateAaveV2Lending multisig networkConfig c cfg extraArgs).
Proof. unfold updateAaveV2Lending. respects_auto. Qed.

Lemma deployContracts_respects existingContract contractAdmin :
  respects D (deployContracts networkConfig existingContract contractAdmin).
Proof. unfold deployContracts. respects_auto. Qed.

Hint Resolve updateProxy_respects updateChildContracts_respects
  updateUniSwap_respects updateUniSwapV3_respects updateKyberProxy_respects
  updateKyberDmm_respects updateCompoundLending_respects
  updateAaveV1Lending_respects updateAaveV2Lending_respects
  deployContracts_respects : respects.

Lemma deploy_respects existingContract extraArgs :
  respects D (deploy multisig networkConfig existingContract extraArgs).
Proof. unfold deploy. respects_auto. Qed.

End Composition.


(** ** The three disciplines on the building blocks *)
Section RoutingBlocks.
Context `{P : Platform} (multisig : option string).

Local Abbreviation R := (Routing (JS.truthy multisig)).

Lemma routing_executeTxn txn : respects R (executeTxn multisig txn).
Proof.
  unfold executeTxn, JS.truthy. destruct (JS.defined multisig); respects_auto.
Qed.

Lemma routing_printInfo tx : respects R (printInfo tx).
Proof. unfold printInfo. respects_auto. Qed.

Hint Resolve routing_executeTxn routing_printInfo : respects.

Lemma routing_transact c m o :
  respects R (do txn <- perform (populateTransaction c m o);
              do tx <- executeTxn multisig txn;
              printInfo tx).
Proof. respects_auto. Qed.

Lemma routing_transact_logged c m o level args :
  respects R (do txn <- perform (populateTransaction c m o);
              do tx <- executeTxn multisig txn;
              do _ <- log level args;
              printInfo tx).
Proof. respects_auto. Qed.

Lemma routing_deployContract step autoVerify name addr args :
  respects R (deployContract step autoVerify name addr args).
Proof. unfold deployContract. respects_auto. Qed.

Lemma routing_deploy networkConfig existingContract extraArgs :
  respects R (deploy multisig networkConfig existingContract extraArgs).
Proof.
  apply deploy_respects; try typeclasses eauto;
    auto using routing_transact, routing_transact_logged, routing_deployContract.
  - intros a Ha. destruct a; try discriminate Ha; solve_neutral.
  - solve_neutral.
  - intros s. solve_neutral.
Qed.
End RoutingBlocks.

Section FatalBlocks.
Context `{P : Platform} (multisig : option string).

Lemma fatal_executeTxn txn : respects Fatal (executeTxn multisig txn).
Proof. unfold executeTxn. respects_auto. Qed.

Lemma fatal_printInfo tx : respects Fatal (printInfo tx).
Proof. unfold printInfo. respects_auto. Qed.

Hint Resolve fatal_executeTxn fatal_printInfo : respects.

Lemma fatal_transact c m o :
  respects Fatal (do txn <- perform (populateTransaction c m o);
                  do tx <- executeTxn multisig txn;
                  printInfo tx).
Proof. respects_auto. Qed.

Lemma fatal_transact_logged c m o level args :
  respects Fatal (do txn <- perform (populateTransaction c m o);
                  do tx <- executeTxn multisig txn;
                  do _ <- log level args;
                  printInfo tx).
Proof. respects_auto. Qed.

Lemma fatal_deployContract step autoVerify name addr args :
  respects Fatal (deployContract step autoVerify name addr args).
Proof. unfold deployContract. respects_auto. Qed.

Lemma fatal_deploy networkConfig existingContract extraArgs :
  respects Fatal (deploy multisig networkConfig existingContract extraArgs).
Proof.
  apply deploy_respects; try typeclasses eauto;
    auto using fatal_transact, fatal_transact_logged, fatal_deployContract.
Qed.
End FatalBlocks.

Section ProtocolBlocks.
Context `{P : Platform} (multisig : option string).

Lemma protocol_aside q a :
  q = Idle \/ q = Building -> in_protocol a = false ->
  triple Protocol q (perform a) (stays q).
Proof.
  intros Hq Ha. apply triple_perform. intros r. exists q.
  destruct Hq as [-> | ->]; destruct a; try discriminate Ha; done.
Qed.

Lemma protocol_log q level args : triple Protocol q (log level args) (stays q).
Proof. by apply triple_log. Qed.

Lemma triple_bind_stays {A B} q (m : Script A) (f : A -> Script B) post :
  triple Protocol q m (stays q) ->
  (forall a, triple Protocol q (f a) post) ->
  (forall e, post (Throw e) q) ->
  triple Protocol q (bind m f) post.
Proof.
  intros Hm Hf He. eapply triple_bind; [apply Hm| |]; unfold stays.
  - intros a q1 ->. apply Hf.
  - intros e q1 ->. apply He.
Qed.

Lemma protocol_executeTxn txn :
  triple Protocol Building (executeTxn multisig txn) submitted.
Proof.
  unfold executeTxn. destruct (JS.defined multisig) as [safeAddress|].
  - apply triple_bind_stays; [by apply protocol_aside; auto| |done].
    intros signers.
    apply triple_bind_stays; [by apply protocol_aside; auto| |done].
    intros safeSdk.
    apply triple_bind_stays; [| |done].
    { destruct (txn_data txn); [by apply triple_ret|by apply triple_throw]. }
    intros data.
    apply triple_bind_stays; [by apply protocol_aside; auto| |done].
    intros safeTransaction.
    eapply triple_bind with (mid := submitted).
    + apply triple_perform. intros [e|tx]; eexists; split; simpl; done.
    + intros tx q1 ->. by apply triple_ret.
    + done.
  - apply triple_bind_stays; [by apply protocol_aside; auto| |done].
    intros signers. destruct (head signers) as [signer|].
    + eapply triple_bind with (mid := submitted).
      * apply triple_perform. intros [e|tx]; eexists; split; simpl; done.
      * intros tx q1 ->. by apply triple_ret.
      * done.
    + by apply triple_throw.
Qed.

Lemma protocol_printInfo tx :
  triple Protocol (Pending tx) (printInfo tx) (std_post Protocol).
Proof.
  unfold printInfo.
  eapply triple_bind with (mid := std_post Protocol).
  - apply triple_perform. intros [e|receipt]; eexists; simpl;
      (rewrite decide_True by done); split; done.
  - simpl. intros receipt q1 ->.
    apply triple_bind_stays; [apply protocol_log| |done]. intros _.
    apply triple_bind_stays; [apply protocol_log| |done]. intros _.
    eapply triple_conseq; [apply protocol_log|]. by intros [[]|e] q' ->.
  - done.
Qed.

Lemma protocol_populate c m o :
  triple Protocol Idle (perform (populateTransaction c m o)) built.
Proof. apply triple_perform. intros [e|txn]; eexists; split; simpl; done. Qed.

Lemma protocol_transact c m o :
  respects Protocol (do txn <- perform (populateTransaction c m o);
                     do tx <- executeTxn multisig txn;
                     printInfo tx).
Proof.
  eapply triple_bind; [apply protocol_populate| |done].
  intros txn q1 ->.
  eapply triple_bind; [apply protocol_executeTxn| |done].
  intros tx q1 ->. apply protocol_printInfo.
Qed.

Lemma protocol_transact_logged c m o level args :
  respects Protocol (do txn <- perform (populateTransaction c m o);
                     do tx <- executeTxn multisig txn;
                     do _ <- log level args;
                     printInfo tx).
Proof.
  eapply triple_bind; [apply protocol_populate| |done].
  intros txn q1 ->.
  eapply triple_bind; [apply protocol_executeTxn| |done].
  intros tx q1 ->.
  apply triple_bind_stays; [apply protocol_log| |done].
  intros _. apply protocol_printInfo.
Qed.

Lemma protocol_deployContract step autoVerify name addr args :
  respects Protocol (deployContract step autoVerify name addr args).
Proof.
  unfold deployContract.
  do 3 (apply respects_bind; [respects_auto|intros ?]).
  destruct (JS.defined addr) as [contractAddress|]; [respects_auto|].
  eapply triple_bind with (mid := fun r q' => match r with
                                            | Ok _ => q' = Creating
                                            | Throw _ => True
                                            end); [| |done].
  { apply triple_perform. intros [e|c]; eexists; split; simpl; done. }
  intros contract q1 ->.
  eapply triple_bind with
    (mid := fun r q' => match r with
                        | Ok tx => match deployTransaction tx with
                                   | Some deployTx => q' = Pending deployTx
                                   | None => q' = Creating
                                   end
                        | Throw _ => True
                        end); [| |done].
  { apply triple_perform. intros [e|c]; eexists; split; simpl; try done.
    by destruct (deployTransaction c). }
  intros tx q1 Hq1. destruct (deployTransaction tx) as [deployTx|]; subst q1.
  - eapply triple_bind; [apply protocol_printInfo| |done]. simpl.
    intros _ q1 ->.
    match goal with |- triple _ _ ?m _ => change (respects Protocol m) end.
    respects_auto.
  - eapply triple_bind with (mid := fun r _ => exists e, r = Throw e).
    + apply triple_throw. eauto.
    + by intros ? q1 [e He].
    + done.
Qed.

Lemma protocol_deploy networkConfig existingContract extraArgs :
  respects Protocol (deploy multisig networkConfig existingContract extraArgs).
Proof.
  apply deploy_respects; try typeclasses eauto;
    auto using protocol_transact, protocol_transact_logged, protocol_deployContract.
  by intros [].
Qed.
End ProtocolBlocks.


(* ===================================================================== *)
(** * Running the script step by step                                     *)
(* ===================================================================== *)

Section Exec.
Context `{P : Platform}.

Lemma bind_run {A B} (m : Script A) (f : A -> Script B) s :
  bind m f s = match m s with
               | mkRun (Ok a) s1 t => after t (f a s1)
               | mkRun (Throw e) s1 t => mkRun (Throw e) s1 t
               end.
Proof. reflexivity. Qed.

Lemma try_catch_run {A} (m : Script A) h s :
  try_catch m h s = match m s with
                    | mkRun (Ok a) s1 t => mkRun (Ok a) s1 t
                    | mkRun (Throw e) s1 t => after t (h e s1)
                    end.
Proof. reflexivity. Qed.

Lemma perform_run a s :
  perform a s = match oracle a (world s) with
                | (inl e, w) => mkRun (Throw e) {| world := w; prevLevel := prevLevel s |}
                                      [Called a (inl e)]
                | (inr x, w) => mkRun (Ok x) {| world := w; prevLevel := prevLevel s |}
                                      [Called a (inr x)]
                end.
Proof. reflexivity. Qed.

(** [log] never fails, touches nothing but [prevLevel], and only
    prints; its last line is the indentation followed by the arguments. *)
Lemma log_run level args (s : State) :
  exists t,
    log level args s = mkRun (Ok tt) {| world := world s; prevLevel := Some level |} t
    /\ forallb is_print t = true
    /\ Printed (LStr (prefix level) :: args) ∈ t.
Proof.
  unfold log, bind, get_prevLevel, set_prevLevel, console_log, ret. simpl.
  destruct (prevLevel s) as [p|]; [destruct (level <? p)%nat|]; simpl;
    eexists; split_and!; try done;
    rewrite ?elem_of_cons; auto.
Qed.

Lemma calls_prints t : forallb is_print t = true -> calls t = [].
Proof.
  induction t as [|[a r|args] t IH]; simpl; [done|done|]. intros H. by apply IH.
Qed.

Lemma milestones_prints t : forallb is_print t = true -> milestones t = [].
Proof.
  induction t as [|[a r|args] t IH]; simpl; [done|done|]. intros H. by apply IH.
Qed.

Lemma failures_prints t : forallb is_print t = true -> failures t = [].
Proof.
  induction t as [|[a r|args] t IH]; simpl; [done|done|]. intros H. by apply IH.
Qed.

Lemma calls_app t1 t2 : calls (t1 ++ t2) = calls t1 ++ calls t2.
Proof. apply omap_app. Qed.

Lemma milestones_app t1 t2 : milestones (t1 ++ t2) = milestones t1 ++ milestones t2.
Proof. apply omap_app. Qed.

Lemma failures_app t1 t2 : failures (t1 ++ t2) = failures t1 ++ failures t2.
Proof. apply omap_app. Qed.
End Exec.

#[local] Opaque log bind perform try_catch prefix.

Ltac exec_log :=
  match goal with
  | |- context [log ?l ?a ?s] =>
      let t := fresh "t" in
      let Ht := fresh "Ht" in
      let E := fresh "E" in
      destruct (log_run l a s) as (t & E & Ht & ?); rewrite !E; clear E;
      pose proof (calls_prints t Ht); pose proof (milestones_prints t Ht);
      pose proof (failures_prints t Ht); clear Ht
  end.

Ltac exec_call :=
  rewrite perform_run; simpl;
  match goal with
  | |- context [oracle ?a ?w] =>
      first
        [ match goal with H : oracle a w = _ |- _ => rewrite !H end
        | let H := fresh "Hcall" in destruct (oracle a w) as [[?|?] ?] eqn:H ]
  end.

(** Branches on data of the run. *)
Ltac exec_branch :=
  match goal with
  | |- context [match deployTransaction ?c with _ => _ end] =>
      destruct (deployTransaction c)
  | |- context [if ?b then _ else _] => is_var b; destruct b
  end.

Ltac exec_step :=
  first [exec_log | exec_call | rewrite bind_run
        | rewrite try_catch_run | exec_branch].

Ltac exec := simpl; repeat (exec_step; simpl).

(** Bring a goal about the calls or milestones of an executed trace to a
    plain list. *)
Ltac observe :=
  simpl;
  repeat (first
    [ rewrite milestones_app | rewrite calls_app | rewrite failures_app
    | match goal with
      | H : milestones ?t = _ |- context [milestones ?t] => rewrite H
      | H : calls ?t = _ |- context [calls ?t] => rewrite H
      | H : failures ?t = _ |- context [failures ?t] => rewrite H
      end ]; simpl).

(** Close what is left once the trace is a plain list. *)
Ltac settle :=
  observe; split_and?; try done; try (by eexists);
  repeat first [ apply Forall_cons; split; [done|]
               | apply Forall_app; split
               | apply Forall_nil ];
  try done.

Section Transactions.
Context `{P : Platform} (multisig : option string).

(** One call of [executeTxn] submits at most one transaction, and
    exactly the one it returns. *)
Lemma executeTxn_run txn s :
  exists o s1 t,
    executeTxn multisig txn s = mkRun o s1 t /\
    milestones t = match o with Ok tx => [Submitted tx] | Throw _ => [] end /\
    Forall (fun a => is_read a = false /\ is_deployment a = false) (calls t).
Proof.
  unfold executeTxn.
  destruct (JS.defined multisig) as [safeAddress|]; exec;
    repeat match goal with
           | |- context [txn_data txn] => destruct (txn_data txn); exec
           | |- context [head ?l] => destruct l; exec
           end;
    do 3 eexists; (split; [reflexivity|]); split; repeat constructor.
Qed.

(** [printInfo] awaits one confirmation of its transaction. *)
Lemma printInfo_run tx s :
  exists o s1 t,
    printInfo tx s = mkRun o s1 t /\
    milestones t = match o with Ok _ => [Confirmed tx 1] | Throw _ => [] end /\
    calls t = [wait tx 1] /\
    failures t = match o with Ok _ => [] | Throw e => [(wait tx 1, e)] end.
Proof.
  unfold printInfo.
  exec; do 3 eexists; (split; [reflexivity|]); split_and!; by observe.
Qed.

(** Through the Safe: the signer, the Safe at the multisig address, a
    [Call] transaction with the fields of [txn], and its execution. *)
Lemma executeTxn_safe txn safeAddress s tx :
  JS.defined multisig = Some safeAddress ->
  outcome (executeTxn multisig txn s) = Ok tx ->
  exists signers safeSdk data safeTransaction,
    txn_data txn = Some data /\
    trace (executeTxn multisig txn s) =
      [Called getSigners (inr signers);
       Called (EthersSafe_create safeAddress (head signers)) (inr safeSdk);
       Called (createTransaction safeSdk
                 {| safe_to := JS.nullish (txn_to txn) zeroAddress;
                    safe_value := JS.nullish (pretty <$> txn_value txn) "0";
                    safe_data := data;
                    safe_operation := Call |}) (inr safeTransaction);
       Called (executeTransaction safeSdk safeTransaction) (inr tx)].
Proof.
  intros Hm. unfold executeTxn. rewrite Hm.
  exec; try discriminate.
  destruct (txn_data txn) as [data|]; exec; try discriminate.
  intros [= ->]. eauto 10.
Qed.

(** Directly: the transaction as it is, from the first signer. *)
Lemma executeTxn_direct txn s tx :
  JS.defined multisig = None ->
  outcome (executeTxn multisig txn s) = Ok tx ->
  exists signer rest,
    trace (executeTxn multisig txn s) =
      [Called getSigners (inr (signer :: rest));
       Called (sendTransaction signer txn) (inr tx)].
Proof.
  intros Hm. unfold executeTxn. rewrite Hm.
  exec; try discriminate.
  match goal with |- context [head ?l] => destruct l as [|signer rest] end;
    exec; try discriminate.
  intros [= ->]. eauto.
Qed.
End Transactions.

#[local] Opaque executeTxn printInfo.

Ltac exec_txn :=
  match goal with
  | |- context [executeTxn ?ms ?txn ?s] =>
      let E := fresh "E" in
      destruct (executeTxn_run ms txn s) as ([?tx|?err] & ?st & ?tr & E & ? & ?);
      rewrite !E; clear E
  | |- context [printInfo ?tx ?s] =>
      let E := fresh "E" in
      destruct (printInfo_run tx s) as ([[]|?err] & ?st & ?tr & E & ? & ? & ?);
      rewrite !E; clear E
  end.

Ltac exec_step ::=
  first [exec_log | exec_txn | exec_call | rewrite bind_run
        | rewrite try_catch_run | exec_branch].


(* ===================================================================== *)
(** * Agreement of runs, printing apart                                   *)
(* ===================================================================== *)

Section Agreement.
Context `{P : Platform}.

Lemma called_app t1 t2 : called (t1 ++ t2) = called t1 ++ called t2.
Proof. unfold called. apply List.filter_app. Qed.

Lemma called_prints t : forallb is_print t = true -> called t = [].
Proof.
  induction t as [|[a r|args] t IH]; simpl; [done|done|]. intros H. by apply IH.
Qed.

Lemma sim_ret {A} (a : A) : sim (ret a) (ret a).
Proof. by intros s s' Hw. Qed.

Lemma sim_throw {A} e : sim (throw (A:=A) e) (throw e).
Proof. by intros s s' Hw. Qed.

Lemma sim_perform a : sim (perform a) (perform a).
Proof.
  intros s s' Hw. rewrite !perform_run, Hw.
  by destruct (oracle a (world s')) as [[e|x] w].
Qed.

Lemma sim_bind {A B} (m m' : Script A) (f f' : A -> Script B) :
  sim m m' -> (forall a, sim (f a) (f' a)) -> sim (bind m f) (bind m' f').
Proof.
  intros Hm Hf s s' Hw. rewrite !bind_run.
  destruct (Hm s s' Hw) as (Ho & Hfin & Ht).
  destruct (m s) as [[a|e] s1 t1], (m' s') as [[a'|e'] s1' t1'];
    cbn [outcome final trace] in *; try discriminate.
  - injection Ho as <-. destruct (Hf a s1 s1' Hfin) as (Ho2 & Hfin2 & Ht2).
    destruct (f a s1) as [o2 s2 t2], (f' a s1') as [o2' s2' t2'];
      cbn [after outcome final trace] in *.
    unfold agree. cbn [outcome final trace].
    split_and!; [done|done|]. by rewrite !called_app, Ht, Ht2.
  - by injection Ho as <-.
Qed.

(** What [log] and [console.log] do is printing. *)
Lemma sim_log_l {A} level args (m m' : Script A) :
  sim m m' -> sim (do _ <- log level args; m) m'.
Proof.
  intros Hm s s' Hw. rewrite bind_run.
  destruct (log_run level args s) as (t & E & Ht & _). rewrite E.
  destruct (Hm {| world := world s; prevLevel := Some level |} s' Hw)
    as (Ho & Hfin & Hc).
  destruct (m _) as [o1 s1 t1]. unfold agree. cbn [after outcome final trace] in *.
  split_and!; [done|done|]. by rewrite called_app, called_prints.
Qed.

Lemma sim_log level args : sim (log level args) (ret tt).
Proof.
  intros s s' Hw. destruct (log_run level args s) as (t & E & Ht & _).
  rewrite E. unfold agree. cbn [outcome final trace].
  split_and!; [done|done|]. by rewrite called_prints.
Qed.

Lemma sim_console_log_l {A} args (m m' : Script A) :
  sim m m' -> sim (do _ <- console_log args; m) m'.
Proof.
  intros Hm s s' Hw. rewrite bind_run. unfold console_log.
  destruct (Hm s s' Hw) as (Ho & Hfin & Hc). by destruct (m s) as [o1 s1 t1].
Qed.

Lemma sim_implements {A} (step spec : Script A) : sim step spec -> implements step spec.
Proof. intros H s. by apply H. Qed.
End Agreement.

(** Follow the two scripts side by side. *)
Ltac sim_step :=
  lazymatch goal with
  | |- forall _, _ => intros
  | |- sim (bind (log _ _) _) _ => apply sim_log_l
  | |- sim (bind (console_log _) _) _ => apply sim_console_log_l
  | |- sim (log _ _) (ret tt) => apply sim_log
  | |- sim (bind _ _) (bind _ _) => apply sim_bind
  | |- sim (perform _) (perform _) => apply sim_perform
  | |- sim (ret _) (ret _) => apply sim_ret
  | |- sim (throw _) (throw _) => apply sim_throw
  | |- sim (match ?x with _ => _ end) (match ?x with _ => _ end) => destruct x
  end.

Ltac sim_auto := repeat sim_step.

Section AgreementBlocks.
Context `{P : Platform} (multisig : option string).

#[local] Transparent executeTxn printInfo.

Lemma sim_executeTxn txn : sim (executeTxn multisig txn) (executeTxn multisig txn).
Proof. unfold executeTxn. sim_auto. Qed.

Lemma sim_printInfo tx : sim (printInfo tx) (do _ <- perform (wait tx 1); ret tt).
Proof.
  unfold printInfo. apply sim_bind; [apply sim_perform|]. intros receipt.
  do 2 apply sim_log_l. apply sim_log.
Qed.

(** The two ways the script has of one transaction are [emit]. *)
Lemma sim_transact c m o :
  sim (do txn <- perform (populateTransaction c m o);
       do tx <- executeTxn multisig txn;
       printInfo tx)
      (emit multisig c m o).
Proof.
  unfold emit. apply sim_bind; [apply sim_perform|]. intros txn.
  apply sim_bind; [apply sim_executeTxn|]. intros tx. apply sim_printInfo.
Qed.

Lemma sim_transact_logged c m o level args :
  sim (do txn <- perform (populateTransaction c m o);
       do tx <- executeTxn multisig txn;
       do _ <- log level args;
       printInfo tx)
      (emit multisig c m o).
Proof.
  unfold emit. apply sim_bind; [apply sim_perform|]. intros txn.
  apply sim_bind; [apply sim_executeTxn|]. intros tx.
  apply sim_log_l, sim_printInfo.
Qed.
End AgreementBlocks.

Section Reconcile.
Context `{P : Platform} (multisig : option string).

Lemma includes_spec l x : JS.includes l x = true <-> x ∈ l.
Proof.
  induction l as [|y l IH]; simpl.
  - split; [done|]. by intros ?%elem_of_nil.
  - destruct (String.eqb_spec y x) as [->|Hne].
    + split; [intros _; left|done].
    + rewrite IH. split; [by right|]. intros [?|?]%elem_of_cons; congruence.
Qed.

Lemma filter_includes (l k : list string) :
  List.filter (fun add => negb (JS.includes k add)) l = list_difference l k.
Proof.
  induction l as [|x l IH]; simpl; [done|]. rewrite IH.
  destruct (JS.includes k x) eqn:E;
    destruct (decide_rel elem_of x k) as [Hin|Hnin]; simpl; try done.
  - apply includes_spec in E. done.
  - apply includes_spec in Hin. congruence.
Qed.

(** One transaction, from building it to its confirmation. *)
Lemma transact_logged_run c m o level args s :
  exists r s1 t tx,
    (do txn <- perform (populateTransaction c m o);
     do tx <- executeTxn multisig txn;
     do _ <- log level args;
     printInfo tx) s = mkRun r s1 t /\
    milestones t `prefix_of` stages c m tx /\
    (r = Ok tt -> milestones t = stages c m tx) /\
    Forall (fun a => is_read a = false /\ is_deployment a = false) (calls t).
Proof.
  unfold stages. exec.
  all: do 3 eexists;
    first [ match goal with tx : TransactionResponse |- _ => exists tx end
          | exists {| hash := ""; gasPrice := 0 |} ];
    (split; [reflexivity|]).
  all: settle.
Qed.

Lemma updateAddressSet_stages c mk toBeRemoved toBeAdded extraArgs s :
  let r := updateAddressSet multisig
             (fun l b o => perform (populateTransaction c (mk l b) (Some o)))
             toBeRemoved toBeAdded extraArgs s in
  exists txR txA,
    milestones (trace r) `prefix_of` expected_stages c mk toBeRemoved toBeAdded txR txA /\
    (outcome r = Ok tt ->
     milestones (trace r) = expected_stages c mk toBeRemoved toBeAdded txR txA) /\
    Forall (fun a => is_read a = false /\ is_deployment a = false) (calls (trace r)).
Proof.
  set (dummy := {| hash := ""; gasPrice := 0%N |}).
  unfold updateAddressSet, expected_stages, console_log. cbv zeta.
  destruct toBeRemoved as [|r0 R]; destruct toBeAdded as [|a0 A]; exec.
  all: unfold stages; eexists _, _; settle.
  Unshelve. all: exact dummy.
Qed.

Lemma reconcile_stages title c v mk config extraArgs s onchain w :
  oracle (call_list c v) (world s) = (inr onchain, w) ->
  let existing := map JS.toLowerCase onchain in
  let r := reconcile multisig title c v mk config extraArgs s in
  exists txR txA,
    let expected :=
      expected_stages c mk (list_difference existing config)
        (list_difference config existing) txR txA in
    milestones (trace r) `prefix_of` expected /\
    (outcome r = Ok tt -> milestones (trace r) = expected).
Proof.
  intros Hread existing r. subst r. unfold reconcile. cbv zeta.
  exec. rewrite !filter_includes. fold existing.
  match goal with |- context [updateAddressSet ?ms ?f ?R ?A ?x ?s] =>
    destruct (updateAddressSet_stages c mk R A x s) as (txR & txA & Hpre & Heq & _);
    destruct (updateAddressSet ms f R A x s) as [o s1 t1]
  end.
  simpl in *. exists txR, txA. by observe.
Qed.

Lemma emitted_from_prefix b l1 l2 :
  l1 `prefix_of` l2 -> emitted_from b l1 `prefix_of` emitted_from b l2.
Proof.
  intros [k ->]. revert b. induction l1 as [|x l1 IH]; intros b; simpl.
  - apply prefix_nil.
  - destruct x; try apply IH. destruct b; [apply prefix_cons|]; apply IH.
Qed.

Lemma emitted_expected c mk R A txR txA :
  emitted_from None (expected_stages c mk R A txR txA) = expected_emitted c mk R A.
Proof. by destruct R, A. Qed.

Lemma reconcile_reconciles title c v mk config extraArgs :
  reconciles (reconcile multisig title c v mk (map JS.toLowerCase config) extraArgs)
    c v mk config.
Proof.
  intros s onchain w Hread.
  destruct (reconcile_stages title c v mk (map JS.toLowerCase config) extraArgs
              s onchain w Hread) as (txR & txA & Hpre & Heq).
  simpl in *. unfold emitted. split.
  - rewrite <- (emitted_expected _ _ _ _ txR txA). by apply emitted_from_prefix.
  - intros Hok. by rewrite Heq, emitted_expected.
Qed.

(** [reconcile] does what [reconciliation] does. *)
Lemma reconcile_implements title c v mk config extraArgs :
  sim (reconcile multisig title c v mk (map JS.toLowerCase config) extraArgs)
      (reconciliation multisig c v mk config extraArgs).
Proof.
  unfold reconcile, reconciliation. apply sim_log_l.
  apply sim_bind; [apply sim_perform|]. intros r. cbv zeta.
  rewrite !filter_includes. unfold updateAddressSet. cbv beta.
  destruct (list_difference (map JS.toLowerCase r) (map JS.toLowerCase config));
    destruct (list_difference (map JS.toLowerCase config) (map JS.toLowerCase r)).
  all: apply sim_bind;
    [ first [apply sim_log | apply sim_transact_logged]
    | intros _; apply sim_console_log_l;
      first [apply sim_log | apply sim_transact_logged] ].
Qed.

Lemma reconcile_exactly title c v mk config extraArgs :
  reconciles_exactly multisig
    (reconcile multisig title c v mk (map JS.toLowerCase config) extraArgs)
    c v mk config extraArgs.
Proof.
  split_and!.
  - apply sim_implements, reconcile_implements.
  - intros s onchain w Hread.
    apply (reconcile_stages title c v mk (map JS.toLowerCase config) extraArgs
             s onchain w Hread).
  - apply reconcile_reconciles.
Qed.

(** The five steps are instances of [reconcile]. *)
Variable networkConfig : Cfg.IConfig.

Lemma updateProxy_wallets_shape k extraArgs :
  updateProxy_wallets multisig networkConfig k extraArgs =
  reconcile multisig "update supported platform wallets" (smartWalletProxy k)
    Abi.getAllSupportedPlatformWallets Abi.updateSupportedPlatformWallets
    (map JS.toLowerCase (Cfg.supportedWallets networkConfig)) extraArgs.
Proof. reflexivity. Qed.

Lemma updateProxy_swaps_shape k extraArgs :
  updateProxy_swaps multisig k extraArgs =
  reconcile multisig "update supported swaps" (smartWalletProxy k)
    Abi.getAllSupportedSwaps Abi.updateSupportedSwaps
    (map JS.toLowerCase
       (map address (filter_defined (swap_values (swapContracts k))))) extraArgs.
Proof. unfold updateProxy_swaps, reconcile. by rewrite List.map_map. Qed.

Lemma updateProxy_lendings_shape k extraArgs :
  updateProxy_lendings multisig k extraArgs =
  reconcile multisig "update supported lendings" (smartWalletProxy k)
    Abi.getAllSupportedLendings Abi.updateSupportedLendings
    (map JS.toLowerCase
       (map address (filter_defined (lending_values (lendingContracts k))))) extraArgs.
Proof. unfold updateProxy_lendings, reconcile. by rewrite List.map_map. Qed.

Lemma updateUniSwap_shape c cfg extraArgs :
  Cfg.uniswap networkConfig = Some cfg ->
  updateUniSwap multisig networkConfig (Some c) extraArgs =
  reconcile multisig "update supported routers" c
    Abi.getAllUniRouters Abi.updateUniRouters
    (map JS.toLowerCase (Uniswap.routers cfg)) extraArgs.
Proof. intros H. unfold updateUniSwap. by rewrite H. Qed.

Lemma updateUniSwapV3_shape c cfg extraArgs :
  Cfg.uniswapV3 networkConfig = Some cfg ->
  updateUniSwapV3 multisig networkConfig (Some c) extraArgs =
  reconcile multisig "update supported routers" c
    Abi.getAllUniRouters Abi.updateUniRouters
    (map JS.toLowerCase (Uniswap.routers cfg)) extraArgs.
Proof. intros H. unfold updateUniSwapV3. by rewrite H. Qed.
End Reconcile.

(** C1. Every address-set step (supported platform wallets, supported
    swaps and supported lendings on the proxy, routers on UniSwap and on
    UniSwapV3) does, printing apart, what [reconciliation] does: for the
    on-chain set S it reads and the desired set C, both in lower case, it
    emits exactly one removal transaction carrying S\C when that is not
    empty, exactly one addition transaction carrying C\S when that is
    not empty, and nothing for an empty difference.  No other call is
    made, and what is built, submitted and confirmed are these
    transactions and no other. *)
Theorem address_set_reconciliation `{P : Platform} (multisig : option string)
    (networkConfig : Cfg.IConfig) (k : KrystalContracts) (extraArgs : ExtraArgs) :
  reconciles_exactly multisig (updateProxy_wallets multisig networkConfig k extraArgs)
    (smartWalletProxy k) Abi.getAllSupportedPlatformWallets
    Abi.updateSupportedPlatformWallets (Cfg.supportedWallets networkConfig) extraArgs
  /\
  reconciles_exactly multisig (updateProxy_swaps multisig k extraArgs)
    (smartWalletProxy k) Abi.getAllSupportedSwaps Abi.updateSupportedSwaps
    (map address (filter_defined (swap_values (swapContracts k)))) extraArgs
  /\
  reconciles_exactly multisig (updateProxy_lendings multisig k extraArgs)
    (smartWalletProxy k) Abi.getAllSupportedLendings Abi.updateSupportedLendings
    (map address (filter_defined (lending_values (lendingContracts k)))) extraArgs
  /\
  (forall c cfg, Cfg.uniswap networkConfig = Some cfg ->
     reconciles_exactly multisig
       (updateUniSwap multisig networkConfig (Some c) extraArgs)
       c Abi.getAllUniRouters Abi.updateUniRouters (Uniswap.routers cfg) extraArgs)
  /\
  (forall c cfg, Cfg.uniswapV3 networkConfig = Some cfg ->
     reconciles_exactly multisig
       (updateUniSwapV3 multisig networkConfig (Some c) extraArgs)
       c Abi.getAllUniRouters Abi.updateUniRouters (Uniswap.routers cfg) extraArgs).
Proof.
  split_and!.
  - rewrite updateProxy_wallets_shape. apply reconcile_exactly.
  - rewrite updateProxy_swaps_shape. apply reconcile_exactly.
  - rewrite updateProxy_lendings_shape. apply reconcile_exactly.
  - intros c cfg H. rewrite (updateUniSwap_shape _ _ _ _ _ H).
    apply reconcile_exactly.
  - intros c cfg H. rewrite (updateUniSwapV3_shape _ _ _ _ _ H).
    apply reconcile_exactly.
Qed.


(** C6. Execution is sequential.  In an address-set reconciliation the
    removal is built, submitted and confirmed (one confirmation) before
    the addition is built; and over a whole run of [deploy] the trace
    follows the transaction protocol: nothing is built or created while
    an earlier transaction or deployment awaits its confirmation, and a
    run that returns has every transaction confirmed. *)
Theorem sequential_execution `{P : Platform} (multisig : option string)
    (networkConfig : Cfg.IConfig) :
  (forall c mk toBeRemoved toBeAdded extraArgs s,
     let r := updateAddressSet multisig
                (fun l b o => perform (populateTransaction c (mk l b) (Some o)))
                toBeRemoved toBeAdded extraArgs s in
     exists txR txA,
       milestones (trace r)
         `prefix_of` expected_stages c mk toBeRemoved toBeAdded txR txA /\
       (outcome r = Ok tt ->
        milestones (trace r) = expected_stages c mk toBeRemoved toBeAdded txR txA))
  /\
  (forall existingContract extraArgs s,
     let r := deploy multisig networkConfig existingContract extraArgs s in
     exists q, mrun Protocol Idle (trace r) = Some q /\
               (forall k, outcome r = Ok k -> q = Idle)).
Proof.
  split.
  - intros c mk R A x s.
    destruct (updateAddressSet_stages multisig c mk R A x s)
      as (txR & txA & Hpre & Heq & _).
    by exists txR, txA.
  - intros ex x s.
    destruct (protocol_deploy multisig networkConfig ex x s) as (q & Hrun & Hpost).
    exists q. split; [done|]. intros k Hk. simpl in Hpost. by rewrite Hk in Hpost.
Qed.

Section CaseInsensitive.
Context `{P : Platform}.

Lemma lower_ascii_idem a : JS.lower_ascii (JS.lower_ascii a) = JS.lower_ascii a.
Proof.
  destruct a as [[|] [|] [|] [|] [|] [|] [|] [|]]; reflexivity.
Qed.

Lemma case_variant_lower s t :
  case_variant s t -> JS.toLowerCase s = JS.toLowerCase t.
Proof.
  induction 1 as [|a b s t Hab _ IH]; simpl; [done|]. f_equal; [|done].
  destruct Hab as [ -> | [ <- | -> ] ]; by rewrite ?lower_ascii_idem.
Qed.

Lemma case_variants_lower l l' :
  Forall2 case_variant l l' -> map JS.toLowerCase l = map JS.toLowerCase l'.
Proof.
  induction 1 as [|s t l l' Hst _ IH]; simpl; [done|].
  f_equal; [by apply case_variant_lower|done].
Qed.

Lemma list_difference_diag (l : list string) : list_difference l l = [].
Proof.
  apply elem_of_nil_inv. intros x [Hin Hnin]%list_elem_of_difference. done.
Qed.

Lemma reconciles_case_insensitive step step' c v mk config config' :
  reconciles step c v mk config ->
  reconciles step' c v mk config' ->
  case_insensitive step step' c v config config'.
Proof.
  intros Hstep Hstep' Hcfg%case_variants_lower. split.
  - intros s s' onchain onchain' w w' Hr Hr' Hon%case_variants_lower Hok Hok'.
    destruct (Hstep s onchain w Hr) as [_ Heq].
    destruct (Hstep' s' onchain' w' Hr') as [_ Heq'].
    rewrite (Heq Hok), (Heq' Hok'). by rewrite Hcfg, Hon.
  - intros s onchain w Hr Hsame%case_variants_lower.
    destruct (Hstep s onchain w Hr) as [Hpre _].
    rewrite Hsame, list_difference_diag in Hpre. simpl in Hpre.
    by apply prefix_nil_inv in Hpre.
Qed.
End CaseInsensitive.

(** C10. Address-set reconciliation is insensitive to the case of the
    hexadecimal letters: changing only the case of letters in entries of
    the desired set or of the set read from the chain leaves the emitted
    removal and addition unchanged, and a desired entry that differs from
    the on-chain entry only in case produces no transaction. *)
Theorem reconciliation_ignores_case `{P : Platform} (multisig : option string)
    (networkConfig networkConfig' : Cfg.IConfig) (k k' : KrystalContracts)
    (extraArgs : ExtraArgs) :
  case_insensitive
    (updateProxy_wallets multisig networkConfig k extraArgs)
    (updateProxy_wallets multisig networkConfig' k extraArgs)
    (smartWalletProxy k) Abi.getAllSupportedPlatformWallets
    (Cfg.supportedWallets networkConfig) (Cfg.supportedWallets networkConfig')
  /\
  (smartWalletProxy k = smartWalletProxy k' ->
   case_insensitive
     (updateProxy_swaps multisig k extraArgs) (updateProxy_swaps multisig k' extraArgs)
     (smartWalletProxy k) Abi.getAllSupportedSwaps
     (map address (filter_defined (swap_values (swapContracts k))))
     (map address (filter_defined (swap_values (swapContracts k')))))
  /\
  (smartWalletProxy k = smartWalletProxy k' ->
   case_insensitive
     (updateProxy_lendings multisig k extraArgs)
     (updateProxy_lendings multisig k' extraArgs)
     (smartWalletProxy k) Abi.getAllSupportedLendings
     (map address (filter_defined (lending_values (lendingContracts k))))
     (map address (filter_defined (lending_values (lendingContracts k')))))
  /\
  (forall c cfg cfg',
     Cfg.uniswap networkConfig = Some cfg -> Cfg.uniswap networkConfig' = Some cfg' ->
     case_insensitive
       (updateUniSwap multisig networkConfig (Some c) extraArgs)
       (updateUniSwap multisig networkConfig' (Some c) extraArgs)
       c Abi.getAllUniRouters (Uniswap.routers cfg) (Uniswap.routers cfg'))
  /\
  (forall c cfg cfg',
     Cfg.uniswapV3 networkConfig = Some cfg -> Cfg.uniswapV3 networkConfig' = Some cfg' ->
     case_insensitive
       (updateUniSwapV3 multisig networkConfig (Some c) extraArgs)
       (updateUniSwapV3 multisig networkConfig' (Some c) extraArgs)
       c Abi.getAllUniRouters (Uniswap.routers cfg) (Uniswap.routers cfg')).
Proof.
  split_and!.
  - eapply reconciles_case_insensitive;
      rewrite updateProxy_wallets_shape; apply reconcile_reconciles.
  - intros Hk. eapply reconciles_case_insensitive;
      rewrite updateProxy_swaps_shape; rewrite ?Hk; apply reconcile_reconciles.
  - intros Hk. eapply reconciles_case_insensitive;
      rewrite updateProxy_lendings_shape; rewrite ?Hk; apply reconcile_reconciles.
  - intros c cfg cfg' H H'. eapply reconciles_case_insensitive.
    + rewrite (updateUniSwap_shape _ _ _ _ _ H). apply reconcile_reconciles.
    + rewrite (updateUniSwap_shape _ _ _ _ _ H'). apply reconcile_reconciles.
  - intros c cfg cfg' H H'. eapply reconciles_case_insensitive.
    + rewrite (updateUniSwapV3_shape _ _ _ _ _ H). apply reconcile_reconciles.
    + rewrite (updateUniSwapV3_shape _ _ _ _ _ H'). apply reconcile_reconciles.
Qed.


Section Accepted.

(** What the routing monitor accepts has no call off the route. *)
Lemma routing_accepts safe t q :
  mrun (Routing safe) tt t = Some q ->
  forall a, a ∈ calls t -> off_route safe a = false.
Proof.
  revert q. induction t as [|e t IH]; intros q Hrun a Ha; simpl in *.
  - by apply elem_of_nil in Ha.
  - unfold routing_step in Hrun. destruct e as [a' r|args]; simpl in *.
    + destruct (off_route safe a') eqn:Hoff; [done|].
      apply elem_of_cons in Ha as [->|Ha]; [done|]. by eapply IH.
    + by eapply IH.
Qed.

(** What the fatality monitor accepts ends at its first failed call
    outside verification, and the monitor holds that call's error. *)
Lemma fatal_accepts t q :
  mrun Fatal None t = Some q ->
  forall pre a e post,
    t = pre ++ Called a (inl e) :: post -> is_verification a = false ->
    post = [] /\ q = Some e.
Proof.
  intros Hrun pre. revert t Hrun.
  induction pre as [|x pre IH]; intros t Hrun a e post -> Ha; simpl in *.
  - rewrite Ha in Hrun. destruct post as [|y post]; simpl in *; [|done].
    by injection Hrun as <-.
  - destruct (failure_of x) as [[a' e']|]; [destruct (is_verification a')|];
      simpl in *.
    + by eapply IH.
    + by destruct pre.
    + by eapply IH.
Qed.

End Accepted.

(** C7 (as the code has it).  [executeTxn] relays a transaction through
    the Gnosis Safe when a multisig address is configured, as a [Call]
    with the transaction's [to], [value] and [data], and sends it
    directly from the first signer otherwise; and the choice is the same
    all through a run of [deploy]: with a multisig [sendTransaction] is
    never called, without one the Safe SDK is never called.  The
    creations of contracts are no part of this: [deployContract] never
    goes through [executeTxn], with or without a multisig; it sends them
    with [factory.deploy]. *)
Theorem executeTxn_routing `{P : Platform} (multisig : option string) :
  (forall safeAddress txn s tx,
     JS.defined multisig = Some safeAddress ->
     outcome (executeTxn multisig txn s) = Ok tx ->
     exists signers safeSdk data safeTransaction,
       txn_data txn = Some data /\
       trace (executeTxn multisig txn s) =
         [Called getSigners (inr signers);
          Called (EthersSafe_create safeAddress (head signers)) (inr safeSdk);
          Called (createTransaction safeSdk
                    {| safe_to := JS.nullish (txn_to txn) zeroAddress;
                       safe_value := JS.nullish (pretty <$> txn_value txn) "0";
                       safe_data := data;
                       safe_operation := Call |}) (inr safeTransaction);
          Called (executeTransaction safeSdk safeTransaction) (inr tx)])
  /\
  (forall txn s tx,
     JS.defined multisig = None ->
     outcome (executeTxn multisig txn s) = Ok tx ->
     exists signer rest,
       trace (executeTxn multisig txn s) =
         [Called getSigners (inr (signer :: rest));
          Called (sendTransaction signer txn) (inr tx)])
  /\
  (forall networkConfig existingContract extraArgs s a,
     a ∈ calls (trace (deploy multisig networkConfig existingContract extraArgs s)) ->
     off_route (JS.truthy multisig) a = false)
  /\
  (forall step autoVerify contractName contractAddress args s a,
     a ∈ calls (trace (deployContract step autoVerify contractName contractAddress
                         args s)) ->
     is_safe a = false /\ is_direct a = false).
Proof.
  split_and!.
  - intros safeAddress txn s tx. apply executeTxn_safe.
  - intros txn s tx. apply executeTxn_direct.
  - intros nc ex x s a.
    destruct (routing_deploy multisig nc ex x s) as ([] & Hrun & _).
    by eapply routing_accepts.
  - intros step av name addr args s a Ha. split.
    + destruct (routing_deployContract None step av name addr args s)
        as ([] & Hrun & _).
      apply (routing_accepts _ _ _ Hrun a Ha).
    + destruct (routing_deployContract (Some "safe") step av name addr args s)
        as ([] & Hrun & _).
      apply (routing_accepts _ _ _ Hrun a Ha).
Qed.

Section DeployContract.
Context `{P : Platform}.

Lemma deployContract_existing step autoVerify name addr existing args s :
  JS.defined addr = Some existing ->
  let r := deployContract step autoVerify name addr args s in
  calls (trace r) = [getContractFactory name] /\
  forall factory w,
    oracle (getContractFactory name) (world s) = (inr factory, w) ->
    outcome r = Ok (attach factory existing).
Proof.
  intros Hd. unfold deployContract. rewrite Hd. cbv zeta.
  exec; (split; [by observe|]); intros factory w' Heq; congruence.
Qed.

Lemma deployContract_missing step autoVerify name addr args s factory w :
  JS.defined addr = None ->
  oracle (getContractFactory name) (world s) = (inr factory, w) ->
  let r := deployContract step autoVerify name addr args s in
  (exists rest,
     calls (trace r) = getContractFactory name :: factory_deploy factory args :: rest) /\
  forall contract, outcome r = Ok contract ->
    Created contract ∈ milestones (trace r).
Proof.
  intros Hd Hf. unfold deployContract. rewrite Hd. cbv zeta.
  exec.
  all: split; [eexists; by observe|].
  all: intros contract [= ->]; observe; by left.
Qed.

Lemma verification_failure_caught step name addr args s :
  JS.defined addr = None ->
  let r := deployContract step true name addr args s in
  forall a e,
    (a, e) ∈ failures (trace r) -> is_verification a = true ->
    (exists contract,
       outcome r = Ok contract /\ Created contract ∈ milestones (trace r)) /\
    Printed [LStr (prefix 2); LStr "failed to verify contract"; LError e] ∈ trace r /\
    length (List.filter is_run_verify (calls (trace r))) <= 1.
Proof.
  intros Hd. unfold deployContract. rewrite Hd. cbv zeta.
  exec; observe; intros a0 e0 Hin Hver;
    rewrite ?elem_of_cons, ?elem_of_nil in Hin; destruct_or?;
    try done; injection Hin as -> ->; try discriminate Hver.
  all: split_and!;
    [ eexists; split; [done|by left]
    | repeat first [rewrite elem_of_app | rewrite elem_of_cons]; tauto
    | simpl; lia ].
Qed.
End DeployContract.

(** C3. [deployContract] is deploy-if-missing.  With an existing address
    (a non-empty string) the only call made is [getContractFactory]: the
    factory is attached to the address and the contract returned, without
    deployment, confirmation or verification.  Without one, the factory
    deploys with the given constructor arguments, and the contract
    returned is the one created. *)
Theorem deploy_if_missing `{P : Platform} (step : nat) (autoVerify : bool)
    (contractName : string) (contractAddress : option string) (args : list Arg)
    (s : State) :
  let r := deployContract step autoVerify contractName contractAddress args s in
  match JS.defined contractAddress with
  | Some existing =>
      calls (trace r) = [getContractFactory contractName] /\
      forall factory w,
        oracle (getContractFactory contractName) (world s) = (inr factory, w) ->
        outcome r = Ok (attach factory existing)
  | None =>
      forall factory w,
        oracle (getContractFactory contractName) (world s) = (inr factory, w) ->
        (exists rest,
           calls (trace r) =
             getContractFactory contractName :: factory_deploy factory args :: rest) /\
        forall contract, outcome r = Ok contract ->
          Created contract ∈ milestones (trace r)
  end.
Proof.
  destruct (JS.defined contractAddress) as [existing|] eqn:Hd.
  - by apply deployContract_existing.
  - intros factory w Hf. by eapply deployContract_missing.
Qed.

(** C4. A failure inside the verification of a freshly deployed contract
    is caught and logged and verification is not tried again, and
    [deployContract] still returns the contract it created.  Any other
    failed call during [deploy] is the last thing that happens, and
    [deploy] throws that call's error. *)
Theorem error_handling `{P : Platform} (multisig : option string)
    (networkConfig : Cfg.IConfig) :
  (forall step contractName contractAddress args s,
     JS.defined contractAddress = None ->
     let r := deployContract step true contractName contractAddress args s in
     forall a e,
       (a, e) ∈ failures (trace r) -> is_verification a = true ->
       (exists contract,
          outcome r = Ok contract /\ Created contract ∈ milestones (trace r)) /\
       Printed [LStr (prefix 2); LStr "failed to verify contract"; LError e]
         ∈ trace r /\
       length (List.filter is_run_verify (calls (trace r))) <= 1)
  /\
  (forall existingContract extraArgs s pre a e post,
     trace (deploy multisig networkConfig existingContract extraArgs s)
       = pre ++ Called a (inl e) :: post ->
     is_verification a = false ->
     post = [] /\
     outcome (deploy multisig networkConfig existingContract extraArgs s) = Throw e).
Proof.
  split.
  - intros step name addr args s Hd. by apply verification_failure_caught.
  - intros ex x s pre a e post Htrace Ha.
    destruct (fatal_deploy multisig networkConfig ex x s) as (q & Hrun & Hpost).
    destruct (fatal_accepts _ _ Hrun pre a e post Htrace Ha) as [-> ->].
    split; [done|]. simpl in Hpost.
    destruct (outcome (deploy multisig networkConfig ex x s)) as [k|e'];
      simpl in Hpost; [done|].
    by rewrite (Hpost e eq_refl).
Qed.


(** Run to the end, taking both sides of every test. *)
Ltac exec_all :=
  exec;
  repeat (match goal with
          | |- context [if ?b then _ else _] => destruct b eqn:?
          end; exec).

Ltac guarded_tac :=
  intros s; split_and!;
  [ exec_all; by observe
  | intros current w Hr; cbv beta;
    let Hsame := fresh "Hsame" in
    match goal with |- if ?b then _ else _ => destruct b eqn:Hsame end;
    exec; rewrite ?Hsame; exec;
    first [ split; by observe
          | split; [eexists; by observe|];
            first [ by intros [=] | intros _; eexists; by observe ] ]
  | intros e w Hr; exec; split; by observe ].

Ltac unconditional_tac :=
  intros s; exec; observe; split_and!; try done; try (by intros [=]);
  try (intros _; by eexists);
  repeat first [ apply Forall_cons; split; [done|]
               | apply Forall_app; split
               | apply Forall_nil ];
  try done;
  match goal with
  | H : Forall _ ?l |- Forall _ ?l =>
      eapply Forall_impl; [exact H|]; by intros ? []
  end.

#[local] Opaque String.eqb.

Section Steps.
Context `{P : Platform} (multisig : option string) (networkConfig : Cfg.IConfig).

Lemma updateProxy_impl_compares k extraArgs :
  compares multisig (updateProxy_impl multisig k extraArgs)
    (smartWalletProxy k) Abi.implementation
    (fun current => String.eqb current (address (smartWalletImplementation k)))
    (Abi.updateNewImplementation (address (smartWalletImplementation k)))
    (Some (overrides extraArgs)).
Proof.
  split.
  - apply sim_implements. unfold updateProxy_impl, compare_and_set.
    apply sim_log_l. apply sim_bind; [apply sim_perform|]. intros current.
    destruct (String.eqb _ _); [apply sim_log|apply sim_transact].
  - unfold updateProxy_impl. guarded_tac.
Qed.

Lemma linkChildContract_compares k extraArgs contractName contract :
  compares multisig
    (linkChildContract multisig k extraArgs (contractName, Some contract))
    contract Abi.proxyContract
    (fun current => String.eqb (JS.toLowerCase current)
                      (JS.toLowerCase (address (smartWalletProxy k))))
    (Abi.updateProxyContract (address (smartWalletProxy k)))
    (Some (overrides extraArgs)).
Proof.
  split.
  - apply sim_implements. unfold linkChildContract, compare_and_set.
    apply sim_log_l. apply sim_bind; [apply sim_perform|]. intros current.
    destruct (String.eqb _ _); [apply sim_log|apply sim_transact_logged].
  - unfold linkChildContract. guarded_tac.
Qed.

Lemma updateKyberProxy_compares c cfg extraArgs :
  Cfg.kyberProxy networkConfig = Some cfg ->
  compares multisig (updateKyberProxy multisig networkConfig (Some c) extraArgs)
    c Abi.kyberProxy
    (fun current => String.eqb (JS.toLowerCase current)
                      (JS.toLowerCase (KyberProxy.proxy cfg)))
    (Abi.updateKyberProxy (KyberProxy.proxy cfg)) None.
Proof.
  intros H. unfold updateKyberProxy. rewrite H. split.
  - apply sim_implements. unfold compare_and_set.
    apply sim_log_l. apply sim_bind; [apply sim_perform|]. intros current.
    destruct (String.eqb _ _); [apply sim_log|apply sim_transact_logged].
  - guarded_tac.
Qed.

Lemma updateKyberDmm_compares c cfg extraArgs :
  Cfg.kyberDmm networkConfig = Some cfg ->
  compares multisig (updateKyberDmm multisig networkConfig (Some c) extraArgs)
    c Abi.dmmRouter
    (fun current => String.eqb (JS.toLowerCase current)
                      (JS.toLowerCase (KyberDmm.router cfg)))
    (Abi.updateDmmRouter (KyberDmm.router cfg)) None.
Proof.
  intros H. unfold updateKyberDmm. rewrite H. split.
  - apply sim_implements. unfold compare_and_set.
    apply sim_log_l. apply sim_bind; [apply sim_perform|]. intros current.
    destruct (String.eqb _ _); [apply sim_log|apply sim_transact_logged].
  - guarded_tac.
Qed.

Lemma updateAaveV1Lending_always_emits c cfg extraArgs :
  Cfg.aaveV1 networkConfig = Some cfg ->
  always_emits multisig
    (updateAaveV1Lending multisig networkConfig (Some c) extraArgs) c
    (Abi.updateAaveDataV1 (AaveV1.poolV1 cfg) (AaveV1.poolCoreV1 cfg)
       (AaveV1.referralCode cfg) (AaveV1.tokens cfg)).
Proof.
  intros H. unfold updateAaveV1Lending. rewrite H. split.
  - apply sim_implements, sim_log_l, sim_transact_logged.
  - unconditional_tac.
Qed.

Lemma updateAaveV2Lending_always_emits c cfg extraArgs :
  always_emits multisig
    (updateAaveV2Lending multisig networkConfig (Some c) (Some cfg) extraArgs) c
    (Abi.updateAaveDataV2 (AaveV2.provider cfg) (AaveV2.poolV2 cfg)
       (AaveV2.referralCode cfg) (AaveV2.weth cfg) (AaveV2.tokens cfg)).
Proof.
  unfold updateAaveV2Lending. split.
  - apply sim_implements, sim_log_l, sim_transact_logged.
  - unconditional_tac.
Qed.

(** Nothing is left of a list once a list with all its elements is
    taken away. *)
Lemma list_difference_subset (l k : list string) :
  (forall a, a ∈ l -> a ∈ k) -> list_difference l k = [].
Proof.
  intros H. apply elem_of_nil_inv. intros x [Hin Hnin]%list_elem_of_difference.
  by apply Hnin, H.
Qed.

Lemma reconcile_settled title c v mk config extraArgs :
  settled (reconcile multisig title c v mk (map JS.toLowerCase config) extraArgs)
    c v config.
Proof.
  intros s onchain w Hr Hset. unfold reconcile. cbv zeta. exec.
  rewrite !filter_includes.
  rewrite !list_difference_subset by (intros a Ha; by apply Hset).
  unfold updateAddressSet, console_log. exec. split; by observe.
Qed.

(** The comparison of [updateCompoundLending] has 40 characters at most
    on its left. *)
Lemma length_substring n m s : String.length (substring n m s) <= m.
Proof.
  revert n m. induction s as [|ch s IH]; intros [|n] [|m]; simpl; try lia.
  - specialize (IH 0%nat m). lia.
  - apply (IH n 0%nat).
  - apply IH.
Qed.

Lemma currentComptroller_length compoundData :
  String.length ("0x" +:+ JS.slice 2 40 compoundData) <= 40.
Proof.
  unfold JS.slice. change (40 - 2)%nat with 38%nat.
  change (S (S (String.length (substring 2 38 compoundData))) <= 40).
  pose proof (length_substring 2 38 compoundData). lia.
Qed.

Lemma eqb_length_ne s t :
  String.length s <> String.length t -> String.eqb s t = false.
Proof. intros H. apply String.eqb_neq. by intros ->. Qed.

Lemma updateCompoundLending_updates c cfg extraArgs s compoundData w :
  Cfg.compound networkConfig = Some cfg ->
  String.length (Compound.compTroller cfg) = 42%nat ->
  oracle (call c Abi.compoundData) (world s) = (inr compoundData, w) ->
  exists rest,
    calls (trace (updateCompoundLending multisig networkConfig (Some c) extraArgs s)) =
      call c Abi.compoundData
      :: populateTransaction c
           (Abi.updateCompoundData (Compound.compTroller cfg)
              (Compound.cNative cfg) (Compound.cTokens cfg)) None
      :: rest.
Proof.
  intros Hcfg Hlen Hr. unfold updateCompoundLending. rewrite Hcfg.
  exec. rewrite eqb_length_ne.
  - exec; eexists; by observe.
  - pose proof (currentComptroller_length compoundData). lia.
Qed.
End Steps.

(** C2 (as the code has it).  The steps that compare one value (the
    implementation of the proxy, the proxy a swap or lending contract is
    linked to, the KyberProxy and the KyberDmm router) do, printing
    apart, what [compare_and_set] does: they read the value first, make
    no other call when it is the configured one already, and build,
    submit and have confirmed one transaction when it is not.  The
    implementation is compared as it is, letter case included; the other
    three in lower case.  The address-set steps make no call but the read
    when the set read is the configured set, whatever the letter case,
    the order and the repetitions.  The Aave steps (V1, V2 and AMM) do
    what [emit] does: they read nothing and build, submit and have
    confirmed [updateAaveData] on every run. *)
Theorem reconciliation_steps `{P : Platform} (multisig : option string)
    (networkConfig : Cfg.IConfig) (k : KrystalContracts) (extraArgs : ExtraArgs) :
  compares multisig (updateProxy_impl multisig k extraArgs)
    (smartWalletProxy k) Abi.implementation
    (fun current => String.eqb current (address (smartWalletImplementation k)))
    (Abi.updateNewImplementation (address (smartWalletImplementation k)))
    (Some (overrides extraArgs))
  /\
  (forall contractName contract,
     compares multisig
       (linkChildContract multisig k extraArgs (contractName, Some contract))
       contract Abi.proxyContract
       (fun current => String.eqb (JS.toLowerCase current)
                         (JS.toLowerCase (address (smartWalletProxy k))))
       (Abi.updateProxyContract (address (smartWalletProxy k)))
       (Some (overrides extraArgs)))
  /\
  (forall c cfg, Cfg.kyberProxy networkConfig = Some cfg ->
     compares multisig (updateKyberProxy multisig networkConfig (Some c) extraArgs)
       c Abi.kyberProxy
       (fun current => String.eqb (JS.toLowerCase current)
                         (JS.toLowerCase (KyberProxy.proxy cfg)))
       (Abi.updateKyberProxy (KyberProxy.proxy cfg)) None)
  /\
  (forall c cfg, Cfg.kyberDmm networkConfig = Some cfg ->
     compares multisig (updateKyberDmm multisig networkConfig (Some c) extraArgs)
       c Abi.dmmRouter
       (fun current => String.eqb (JS.toLowerCase current)
                         (JS.toLowerCase (KyberDmm.router cfg)))
       (Abi.updateDmmRouter (KyberDmm.router cfg)) None)
  /\
  settled (updateProxy_wallets multisig networkConfig k extraArgs)
    (smartWalletProxy k) Abi.getAllSupportedPlatformWallets
    (Cfg.supportedWallets networkConfig)
  /\
  settled (updateProxy_swaps multisig k extraArgs)
    (smartWalletProxy k) Abi.getAllSupportedSwaps
    (map address (filter_defined (swap_values (swapContracts k))))
  /\
  settled (updateProxy_lendings multisig k extraArgs)
    (smartWalletProxy k) Abi.getAllSupportedLendings
    (map address (filter_defined (lending_values (lendingContracts k))))
  /\
  (forall c cfg, Cfg.uniswap networkConfig = Some cfg ->
     settled (updateUniSwap multisig networkConfig (Some c) extraArgs)
       c Abi.getAllUniRouters (Uniswap.routers cfg))
  /\
  (forall c cfg, Cfg.uniswapV3 networkConfig = Some cfg ->
     settled (updateUniSwapV3 multisig networkConfig (Some c) extraArgs)
       c Abi.getAllUniRouters (Uniswap.routers cfg))
  /\
  (forall c cfg, Cfg.aaveV1 networkConfig = Some cfg ->
     always_emits multisig
       (updateAaveV1Lending multisig networkConfig (Some c) extraArgs) c
       (Abi.updateAaveDataV1 (AaveV1.poolV1 cfg) (AaveV1.poolCoreV1 cfg)
          (AaveV1.referralCode cfg) (AaveV1.tokens cfg)))
  /\
  (forall c cfg,
     always_emits multisig
       (updateAaveV2Lending multisig networkConfig (Some c) (Some cfg) extraArgs) c
       (Abi.updateAaveDataV2 (AaveV2.provider cfg) (AaveV2.poolV2 cfg)
          (AaveV2.referralCode cfg) (AaveV2.weth cfg) (AaveV2.tokens cfg))).
Proof.
  split_and!.
  - apply updateProxy_impl_compares.
  - intros. apply linkChildContract_compares.
  - intros. by apply updateKyberProxy_compares.
  - intros. by apply updateKyberDmm_compares.
  - rewrite updateProxy_wallets_shape. apply reconcile_settled.
  - rewrite updateProxy_swaps_shape. apply reconcile_settled.
  - rewrite updateProxy_lendings_shape. apply reconcile_settled.
  - intros c cfg H. rewrite (updateUniSwap_shape _ _ _ _ _ H).
    apply reconcile_settled.
  - intros c cfg H. rewrite (updateUniSwapV3_shape _ _ _ _ _ H).
    apply reconcile_settled.
  - intros. by apply updateAaveV1Lending_always_emits.
  - intros. apply updateAaveV2Lending_always_emits.
Qed.

(** C5 (what the code does).  When the configured comptroller is a
    42-character address, the comparison of [updateCompoundLending] never
    succeeds, whatever [compoundData] holds: after the read the step
    always goes on to build [updateCompoundData]. *)
Theorem compound_always_updates `{P : Platform} (multisig : option string)
    (networkConfig : Cfg.IConfig) (c : Contract) (cfg : Compound.Config)
    (extraArgs : ExtraArgs) (s : State) (compoundData : string) (w : World) :
  Cfg.compound networkConfig = Some cfg ->
  String.length (Compound.compTroller cfg) = 42%nat ->
  oracle (call c Abi.compoundData) (world s) = (inr compoundData, w) ->
  exists rest,
    calls (trace (updateCompoundLending multisig networkConfig (Some c) extraArgs s)) =
      call c Abi.compoundData
      :: populateTransaction c
           (Abi.updateCompoundData (Compound.compTroller cfg)
              (Compound.cNative cfg) (Compound.cTokens cfg)) None
      :: rest.
Proof. apply updateCompoundLending_updates. Qed.



(* ===================================================================== *)
(** * [convertToAddressObject]                                            *)
(* ===================================================================== *)

Section Convert.

Lemma digits_value_app acc p q :
  Object.digits_value acc p = None -> Object.digits_value acc (p +:+ q) = None.
Proof.
  revert acc. induction p as [|ch p IH]; intros acc; simpl; [done|].
  destruct (Object.is_digit ch); [apply IH|done].
Qed.

Lemma array_index_app p q :
  p <> "" -> Object.array_index p = None -> Object.array_index (p +:+ q) = None.
Proof.
  destruct p as [|ch p]; [done|]. intros _. simpl.
  destruct (Ascii.eqb ch "0").
  - destruct p; [done|]. by simpl.
  - apply (digits_value_app 0 (String ch p)).
Qed.

Lemma array_index_join parts :
  Forall (fun p => Object.array_index p = None) parts ->
  Object.array_index (Object.join parts) = None.
Proof.
  induction 1 as [|p parts Hp _ IH]; [done|].
  destruct parts as [|p' parts]; [done|].
  change (Object.join (p :: p' :: parts))
    with (p +:+ "," +:+ Object.join (p' :: parts)).
  destruct p as [|ch p]; [done|]. by apply array_index_app.
Qed.

(** No value of the model, used as a property key, is an array index. *)
Lemma toString_not_index :
  forall o : Obj Contract, Object.array_index (Object.toString o) = None.
Proof.
  fix IH 1. intros [|c|items|fields]; try reflexivity.
  simpl. apply array_index_join.
  induction items as [|x items IHitems]; simpl; constructor; [|done].
  pose proof (IH x) as Hx. destruct x; try reflexivity; exact Hx.
Qed.

Lemma array_get_element (items : list (Obj Contract)) (k : Obj Contract) :
  Object.array_get items (Object.toString k) = OUndefined.
Proof. unfold Object.array_get. by rewrite toString_not_index. Qed.

Lemma record_get_fresh (done rest : list (string * Obj Contract)) k v :
  k ∉ Object.keys done ->
  Object.record_get (done ++ (k, v) :: rest) k = v.
Proof.
  induction done as [|[k' v'] done IH]; simpl; intros Hk.
  - by rewrite String.eqb_refl.
  - apply not_elem_of_cons in Hk as [Hne Hk].
    destruct (String.eqb_spec k' k); [congruence|]. by apply IH.
Qed.

Lemma record_set_fresh (ret : list (string * Obj string)) k v :
  k ∉ Object.keys ret -> Object.record_set ret k v = ret ++ [(k, v)].
Proof.
  induction ret as [|[k' v'] ret IH]; simpl; intros Hk; [done|].
  apply not_elem_of_cons in Hk as [Hne Hk].
  destruct (String.eqb_spec k' k); [congruence|]. by rewrite IH.
Qed.

(** The loop over the keys of a record with distinct keys rebuilds the
    record field by field. *)
Lemma record_loop (g : Obj Contract -> Obj string) done rest :
  NoDup (Object.keys (done ++ rest)) ->
  fold_left (fun ret k => Object.record_set ret k
                            (g (Object.record_get (done ++ rest) k)))
    (Object.keys rest)
    (map (fun kv => match kv with (k, v) => (k, g v) end) done)
  = map (fun kv => match kv with (k, v) => (k, g v) end) (done ++ rest).
Proof.
  revert done. induction rest as [|[k v] rest IH]; intros done Hnd; simpl.
  - by rewrite app_nil_r.
  - assert (Hk : k ∉ Object.keys done).
    { unfold Object.keys in *. rewrite map_app in Hnd. simpl in Hnd.
      apply NoDup_app in Hnd as (_ & Hdis & _). intros Hin.
      apply (Hdis k Hin). left. }
    rewrite record_get_fresh by done.
    rewrite record_set_fresh.
    2:{ unfold Object.keys in *. rewrite map_map.
        erewrite map_ext; [exact Hk|]. by intros []. }
    specialize (IH (done ++ [(k, v)])).
    rewrite <- !app_assoc in IH. simpl in IH.
    rewrite map_app in IH. simpl in IH. by apply IH.
Qed.

(** On objects without arrays the function does what the specification
    says. *)
Lemma convertToAddressObject_plain :
  forall o, plain o -> convertToAddressObject o = address_tree o.
Proof.
  fix IH 1. intros [|c|items|fields]; simp convertToAddressObject; try done.
  intros [Hnd Hall]. simpl. f_equal.
  transitivity
    (fold_left (fun ret k => Object.record_set ret k
                               (address_tree (Object.record_get fields k)))
       (Object.keys fields) []).
  - assert (Hext : forall k,
              convertToAddressObject (Object.record_get fields k)
              = address_tree (Object.record_get fields k)).
    { intros k. clear Hnd. induction fields as [|[k' v'] fields IHf]; simpl.
      - by simp convertToAddressObject.
      - destruct Hall as [Hv Hall]. destruct (String.eqb k' k); [by apply IH|].
        by apply IHf. }
    clear Hnd. generalize (@nil (string * Obj string)).
    induction (Object.keys fields) as [|k ks IHk]; intros acc; simpl; [done|].
    rewrite Hext. apply IHk.
  - exact (record_loop address_tree [] fields Hnd).
Qed.

End Convert.

(** C8 (what the code does).  On an array, [convertToAddressObject]
    looks each element up under the element itself instead of its index,
    finds nothing, and returns an array of the same length holding
    [undefined] only; the contracts of the array are lost. *)
Theorem convertToAddressObject_array (items : list (Obj Contract)) :
  convertToAddressObject (OArray items) = OArray (map (fun _ => OUndefined) items).
Proof.
  simp convertToAddressObject. f_equal. apply map_ext. intros k.
  rewrite array_get_element. by simp convertToAddressObject.
Qed.

(* ===================================================================== *)
(** * Logging, confirmation and submission                                *)
(* ===================================================================== *)

Section Logging.
Context `{P : Platform}.

#[local] Transparent log bind prefix.

Lemma spaces_app a b : spaces a +:+ spaces b = spaces (a + b).
Proof.
  induction a as [|a IH]; [done|].
  change (String " " (spaces a +:+ spaces b) = String " " (spaces (a + b))).
  by rewrite IH.
Qed.

Lemma prefix_spaces level : prefix level = spaces (4 * level).
Proof.
  induction level as [|n IH]; [done|].
  change (prefix (S n)) with (prefix n +:+ spaces 4).
  rewrite IH, spaces_app. f_equal. lia.
Qed.

(** What [log] prints, entry by entry. *)
Lemma log_exact level args (s : State) :
  log level args s =
    mkRun (Ok tt) {| world := world s; prevLevel := Some level |}
      (match prevLevel s with
       | Some p => if (level <? p)%nat then [Printed [LStr newline]] else []
       | None => []
       end ++ [Printed (LStr (prefix level) :: args)]).
Proof.
  unfold log, bind, get_prevLevel, set_prevLevel, console_log, ret. simpl.
  by destruct (prevLevel s) as [p|]; [destruct (level <? p)%nat|].
Qed.
End Logging.

(** X1. [log] never fails and calls nothing: it prints its arguments
    behind an indentation of four spaces per level, after a blank line
    when the call before was at a deeper level (and never on the first
    call), and remembers the level. *)
Theorem log_indents `{P : Platform} (level : nat) (args : list LogArg) (s : State) :
  log level args s =
    mkRun (Ok tt) {| world := world s; prevLevel := Some level |}
      (match prevLevel s with
       | Some p => if (level <? p)%nat then [Printed [LStr newline]] else []
       | None => []
       end ++ [Printed (LStr (spaces (4 * level)) :: args)]).
Proof. rewrite <- prefix_spaces. apply log_exact. Qed.

Section Confirmation.
Context `{P : Platform}.

#[local] Transparent printInfo.

Lemma printInfo_exact tx (s : State) :
  match oracle (wait tx 1) (world s) with
  | (inl e, w) =>
      printInfo tx s =
        mkRun (Throw e) {| world := w; prevLevel := prevLevel s |}
          [Called (wait tx 1) (inl e)]
  | (inr receipt, w) =>
      printInfo tx s =
        mkRun (Ok tt) {| world := w; prevLevel := Some 2%nat |}
          (Called (wait tx 1) (inr receipt) ::
           match prevLevel s with
           | Some p => if (2 <? p)%nat then [Printed [LStr newline]] else []
           | None => []
           end ++
           [Printed [LStr (prefix 2); LStr ("> tx hash:" +:+ tab +:+ hash tx)];
            Printed [LStr (prefix 2);
                     LStr ("> gas price:" +:+ tab +:+ pretty (gasPrice tx))];
            Printed [LStr (prefix 2);
                     LStr ("> gas used:" +:+ tab +:+ pretty (gasUsed receipt))]])
  end.
Proof.
  unfold printInfo. rewrite bind_run, perform_run.
  destruct (oracle (wait tx 1) (world s)) as [[e|receipt] w]; [done|].
  repeat (progress (rewrite ?bind_run, ?log_exact; simpl)).
  by rewrite <- !app_assoc.
Qed.
End Confirmation.

(** X2. [printInfo] awaits one confirmation of the transaction before it
    prints anything: when the wait fails it throws that error and the
    hash is never printed; when it succeeds it prints the hash and the
    gas price of the transaction and the gas used of the receipt, at
    level 2, and calls nothing else. *)
Theorem printInfo_confirms_first `{P : Platform} (tx : TransactionResponse) (s : State) :
  match oracle (wait tx 1) (world s) with
  | (inl e, w) =>
      printInfo tx s =
        mkRun (Throw e) {| world := w; prevLevel := prevLevel s |}
          [Called (wait tx 1) (inl e)]
  | (inr receipt, w) =>
      printInfo tx s =
        mkRun (Ok tt) {| world := w; prevLevel := Some 2%nat |}
          (Called (wait tx 1) (inr receipt) ::
           match prevLevel s with
           | Some p => if (2 <? p)%nat then [Printed [LStr newline]] else []
           | None => []
           end ++
           [Printed [LStr (spaces 8); LStr ("> tx hash:" +:+ tab +:+ hash tx)];
            Printed [LStr (spaces 8);
                     LStr ("> gas price:" +:+ tab +:+ pretty (gasPrice tx))];
            Printed [LStr (spaces 8);
                     LStr ("> gas used:" +:+ tab +:+ pretty (gasUsed receipt))]])
  end.
Proof.
  change (spaces 8) with (spaces (4 * 2)). rewrite <- prefix_spaces.
  apply printInfo_exact.
Qed.


Section Submission.
Context `{P : Platform}.

#[local] Transparent executeTxn String.eqb.

(** Through the Safe, only [to], [value] and [data] of the populated
    transaction are looked at. *)
Lemma executeTxn_safe_fields multisig txn txn' s :
  JS.truthy multisig = true ->
  txn_to txn = txn_to txn' -> txn_value txn = txn_value txn' ->
  txn_data txn = txn_data txn' ->
  executeTxn multisig txn s = executeTxn multisig txn' s.
Proof.
  unfold JS.truthy, executeTxn.
  destruct (JS.defined multisig) as [safeAddress|]; [|done].
  by intros _ -> -> ->.
Qed.

Lemma executeTxn_without_data multisig safeAddress txn s :
  JS.defined multisig = Some safeAddress -> txn_data txn = None ->
  let r := executeTxn multisig txn s in
  (exists e, outcome r = Throw e) /\
  milestones (trace r) = [] /\
  forall a, a ∈ calls (trace r) ->
    a = getSigners \/ exists signer, a = EthersSafe_create safeAddress signer.
Proof.
  intros Hm Hd. unfold executeTxn. rewrite Hm, Hd. exec.
  all: split_and!; [by eexists|done|].
  all: intros a; rewrite ?elem_of_cons, ?elem_of_nil; intros Ha; destruct_or?;
    subst; try done; eauto.
Qed.

Lemma executeTxn_without_signer multisig txn s w :
  JS.defined multisig = None ->
  oracle getSigners (world s) = (inr [], w) ->
  let r := executeTxn multisig txn s in
  (exists e, outcome r = Throw e) /\ trace r = [Called getSigners (inr [])].
Proof.
  intros Hm Hs. unfold executeTxn. rewrite Hm. exec. split; [by eexists|done].
Qed.

Lemma defined_idem multisig : JS.defined (JS.defined multisig) = JS.defined multisig.
Proof.
  destruct multisig as [a|]; [|done]. simpl.
  destruct (String.eqb a "") eqn:E; [done|]. simpl. by rewrite E.
Qed.

Lemma deploy_defined multisig networkConfig existingContract extraArgs :
  deploy multisig networkConfig existingContract extraArgs =
  deploy (JS.defined multisig) networkConfig existingContract extraArgs.
Proof.
  destruct multisig as [a|]; [|done]. simpl.
  destruct (String.eqb_spec a "") as [->|Hne]; done.
Qed.
End Submission.

(** X3. Relayed through the Safe, a transaction keeps its [to], [value]
    and [data] and nothing else: the gas limit and the sender that the
    overrides put into the populated transaction have no effect on what
    [executeTxn] does. *)
Theorem executeTxn_safe_ignores_gas_and_sender `{P : Platform} (multisig : option string)
    (txn txn' : PopulatedTransaction) (s : State) :
  JS.truthy multisig = true ->
  txn_to txn = txn_to txn' -> txn_value txn = txn_value txn' ->
  txn_data txn = txn_data txn' ->
  executeTxn multisig txn s = executeTxn multisig txn' s.
Proof. apply executeTxn_safe_fields. Qed.

(** X4. What [executeTxn] cannot do without.  With a multisig, a
    transaction without [data] throws once the Safe has been created:
    no Safe transaction is created or executed.  Without a multisig, an
    empty list of signers throws before anything is sent. *)
Theorem executeTxn_needs_data_and_signer `{P : Platform} (multisig : option string)
    (txn : PopulatedTransaction) (s : State) :
  let r := executeTxn multisig txn s in
  (forall safeAddress,
     JS.defined multisig = Some safeAddress -> txn_data txn = None ->
     (exists e, outcome r = Throw e) /\
     milestones (trace r) = [] /\
     forall a, a ∈ calls (trace r) ->
       a = getSigners \/ exists signer, a = EthersSafe_create safeAddress signer)
  /\
  (forall w,
     JS.defined multisig = None ->
     oracle getSigners (world s) = (inr [], w) ->
     (exists e, outcome r = Throw e) /\ trace r = [Called getSigners (inr [])]).
Proof.
  split.
  - intros safeAddress. apply executeTxn_without_data.
  - intros w. apply executeTxn_without_signer.
Qed.

(** X5. A multisig that is falsy, the empty string, is no multisig: all
    of [deploy] depends on [multisig] through its truthy value only, so
    with the empty string transactions are sent directly and the
    deployer is the admin of the contracts, as with [undefined]. *)
Theorem falsy_multisig_is_no_multisig `{P : Platform} (multisig multisig' : option string)
    (networkConfig : Cfg.IConfig) (existingContract : option Existing.t)
    (extraArgs : ExtraArgs) :
  JS.defined multisig = JS.defined multisig' ->
  deploy multisig networkConfig existingContract extraArgs =
  deploy multisig' networkConfig existingContract extraArgs.
Proof.
  intros H. rewrite (deploy_defined multisig), (deploy_defined multisig'). by rewrite H.
Qed.


(* ===================================================================== *)
(** * Deployment                                                          *)
(* ===================================================================== *)

(** Keep what a test on the deployment transaction found. *)
Ltac exec_branch ::=
  match goal with
  | |- context [match deployTransaction ?c with _ => _ end] =>
      destruct (deployTransaction c) eqn:?
  | |- context [if ?b then _ else _] => is_var b; destruct b
  end.

Section Verification.
Context `{P : Platform}.

Lemma deployContract_calls step autoVerify name addr args s :
  JS.defined addr = None ->
  let r := deployContract step autoVerify name addr args s in
  match outcome r with
  | Ok contract =>
      exists factory tx deployTx,
        deployTransaction tx = Some deployTx /\
        milestones (trace r) = [Created contract; Confirmed deployTx 1] /\
        let creation :=
          [getContractFactory name; factory_deploy factory args;
           deployed contract; wait deployTx 1] in
        if autoVerify then
          calls (trace r) =
            creation ++ [sleep 10000; run_verify (address contract) args] \/
          (calls (trace r) = creation ++ [sleep 10000] /\
           exists e, failures (trace r) = [(sleep 10000, e)])
        else calls (trace r) = creation
  | Throw _ =>
      forall a, a ∈ calls (trace r) -> is_verification a = false
  end.
Proof.
  intros Hd. unfold deployContract. rewrite Hd. cbv zeta.
  exec; observe.
  all: try (intros a; rewrite ?elem_of_cons, ?elem_of_nil; intros Ha;
            destruct_or?; subst; done).
  all: eexists _, _, _; split_and!; try eassumption; try done; eauto.
Qed.
End Verification.



(** Run the first statement of a sequence, and learn with [learn] what
    it did. *)
Ltac run_block learn :=
  match goal with
  | |- context [@bind ?P ?A ?B ?m ?f ?s] =>
      let Hb := fresh "Hb" in
      rewrite (@bind_run P A B m f s);
      destruct (m s) as [[?a|?e] ?st ?tr] eqn:Hb; cbv beta iota;
      learn Hb;
      [ try match goal with p : (_ * _)%type |- _ => destruct p end; cbv beta iota
      | try (intros; discriminate) ]
  end.

(** One list of calls is the beginning of another, both in sequence. *)
Ltac prefix_tac :=
  repeat first
    [ apply prefix_nil | reflexivity | apply prefix_cons | apply prefix_app
    | apply prefix_app_r; reflexivity ].

(** A run cut short has made the first calls of a complete one. *)
Ltac cut_short :=
  intros [= <- <- <-]; (split; [|by intros ? [=]]);
  rewrite ?calls_app;
  repeat match goal with H : calls _ = _ |- _ => rewrite H; clear H end;
  simpl; prefix_tac.

Section DeployContracts.
Context `{P : Platform}.

Lemma deployments_app t1 t2 : deployments (t1 ++ t2) = deployments t1 ++ deployments t2.
Proof. unfold deployments. by rewrite calls_app, omap_app. Qed.

Lemma truthy_defined addr :
  JS.truthy addr = true <-> exists a, JS.defined addr = Some a.
Proof.
  unfold JS.truthy.
  destruct (JS.defined addr) as [a|]; split; eauto; [done|by intros [a [=]]].
Qed.

Lemma deployContract_facts step autoVerify name addr args s :
  let r := deployContract step autoVerify name addr args s in
  (JS.truthy addr = true -> calls (trace r) = [getContractFactory name]) /\
  (forall c, outcome r = Ok c ->
     deployments (trace r) = request name addr args /\
     reused addr (Some c) /\
     created_anew addr (Some c) (trace r)).
Proof.
  unfold request, JS.truthy, reused, created_anew, deployments, deployContract.
  cbv zeta. destruct (JS.defined addr) as [a|] eqn:Hd.
  - exec; (split; [intros _; by observe|]); intros c [= <-];
      (split_and!; [by observe| |done]); by intros ? ? [= <-] [= <-].
  - exec; (split; [done|]); intros c [= <-];
      (split_and!; [by observe|done|]); intros ? _ [= <-]; observe; by left.
Qed.

Lemma deployContract_spec step autoVerify name addr args s o s1 t :
  deployContract step autoVerify name addr args s = mkRun o s1 t ->
  (JS.truthy addr = true -> calls t = [getContractFactory name]) /\
  (forall c, o = Ok c ->
     deployments t = request name addr args /\
     reused addr (Some c) /\
     created_anew addr (Some c) t).
Proof.
  intros H. pose proof (deployContract_facts step autoVerify name addr args s) as F.
  rewrite H in F. exact F.
Qed.

(** The deployment of the contract of a protocol, when the protocol
    is configured. *)
Lemma optional_spec {C} (cfg : option C) step autoVerify name addr
    (args : C -> list Arg) s o s1 t :
  match cfg with
  | None => ret (None, step)
  | Some c =>
      do x <- deployContract (S step) autoVerify name addr (args c);
      ret (Some x, S step)
  end s = mkRun o s1 t ->
  (on_record cfg addr = true -> calls t = map getContractFactory (named cfg name)) /\
  (forall x step', o = Ok (x, step') ->
     deployments t = when cfg (fun c => request name addr (args c)) /\
     (is_Some x <-> is_Some cfg) /\
     reused addr x /\
     created_anew addr x t).
Proof.
  destruct cfg as [c|]; simpl.
  - rewrite bind_run.
    destruct (deployContract (S step) autoVerify name addr (args c) s)
      as [[x|e] s' t'] eqn:Hb; simpl.
    + apply deployContract_spec in Hb as [Hcalls Hok].
      destruct (Hok x eq_refl) as (Hdep & Hatt & Hnew).
      intros [= <- <- <-]. rewrite app_nil_r. split; [done|].
      intros ? ? [= <- <-]. split_and!; [done|by split; eauto|done|done].
    + apply deployContract_spec in Hb as [Hcalls _].
      intros [= <- <- <-]. split; [done|]. by intros.
  - intros [= <- <- <-]. split; [done|].
    intros ? ? [= <- <-].
    split_and!; [done|by split; intros []|by intros ? ? ? [=]|by intros ? ? [=]].
Qed.

Lemma created_anew_app_l addr c t1 t2 :
  created_anew addr c t1 -> created_anew addr c (t1 ++ t2).
Proof.
  intros H x Hd Hc. rewrite milestones_app, elem_of_app. left. by apply H.
Qed.

Lemma created_anew_app_r addr c t1 t2 :
  created_anew addr c t2 -> created_anew addr c (t1 ++ t2).
Proof.
  intros H x Hd Hc. rewrite milestones_app, elem_of_app. right. by apply H.
Qed.

Lemma deployContracts_spec networkConfig existingContract contractAdmin s k s1 t :
  deployContracts networkConfig existingContract contractAdmin s = mkRun (Ok k) s1 t ->
  deployments t = planned networkConfig existingContract contractAdmin k /\
  follows networkConfig k /\
  reuses existingContract k /\
  renews existingContract k t.
Proof.
  unfold deployContracts. cbv zeta.
  do 3 run_block ltac:(fun H => apply deployContract_spec in H).
  do 8 run_block ltac:(fun H => apply optional_spec in H).
  run_block ltac:(fun H => apply deployContract_spec in H).
  intros [= <- <- <-].
  repeat match goal with
         | H : _ /\ (forall c, Ok ?x = Ok c -> _) |- _ =>
             destruct H as [_ H]; destruct (H x eq_refl) as (? & ? & ?); clear H
         | H : _ /\ (forall x step', Ok (?y, ?n) = Ok (x, step') -> _) |- _ =>
             destruct H as [_ H]; destruct (H y n eq_refl) as (? & ? & ? & ?); clear H
         end.
  rewrite !deployments_app.
  repeat match goal with H : deployments _ = _ |- _ => rewrite H; clear H end.
  change (deployments []) with (@nil deployment). rewrite app_nil_r.
  unfold planned, follows, reuses, renews. cbv zeta.
  cbn [smartWalletImplementation smartWalletProxy fetchTokenBalances
       fetchAaveDataWrapper swapContracts lendingContracts uniSwap uniSwapV3
       kyberProxy kyberDmm compoundLending aaveV1 aaveV2 aaveAMM].
  split_and!; try done.
  all: repeat first [ eassumption
                    | apply created_anew_app_l; eassumption
                    | apply created_anew_app_r ].
Qed.

Lemma deployContracts_complete networkConfig existingContract contractAdmin s o s1 t :
  complete networkConfig existingContract = true ->
  deployContracts networkConfig existingContract contractAdmin s = mkRun o s1 t ->
  calls t `prefix_of` map getContractFactory (contract_names networkConfig) /\
  (forall k, o = Ok k ->
     calls t = map getContractFactory (contract_names networkConfig)).
Proof.
  unfold complete. cbv zeta. rewrite !andb_true_iff.
  intros (((((((((((H1 & H2) & H3) & H4) & H5) & H6) & H7) & H8) & H9)
             & H10) & H11) & H12).
  unfold deployContracts, contract_names. cbv zeta. rewrite !map_app.
  do 3 (run_block ltac:(fun H => apply deployContract_spec in H as [H _];
                                 specialize (H ltac:(assumption)));
        [|cut_short]).
  do 8 (run_block ltac:(fun H => apply optional_spec in H as [H _];
                                 specialize (H ltac:(assumption)));
        [|cut_short]).
  run_block ltac:(fun H => apply deployContract_spec in H as [H _];
                           specialize (H ltac:(assumption)));
    [|cut_short].
  intros [= <- <- <-].
  rewrite ?calls_app.
  repeat match goal with H : calls _ = _ |- _ => rewrite H; clear H end.
  simpl. split; [prefix_tac|done].
Qed.
End DeployContracts.


Section Runs.
Context `{P : Platform}.

Lemma run_eta {A} (r : Run A) : r = mkRun (outcome r) (final r) (trace r).
Proof. by destruct r. Qed.

Lemma deployContracts_returns networkConfig existingContract contractAdmin s k :
  let r := deployContracts networkConfig existingContract contractAdmin s in
  outcome r = Ok k ->
  deployments (trace r) = planned networkConfig existingContract contractAdmin k /\
  follows networkConfig k /\
  reuses existingContract k /\
  renews existingContract k (trace r).
Proof.
  intros r Hk. eapply deployContracts_spec. rewrite <- Hk. apply run_eta.
Qed.
End Runs.

(** X7. What [deployContracts] returns.  A swap or lending contract is
    there exactly when its protocol is configured; every contract for
    which the earlier deployment holds an address (a non-empty string) is
    the factory attached to that address; every other contract has been
    created by a [factory.deploy] of this run. *)
Theorem deployContracts_result `{P : Platform} (networkConfig : Cfg.IConfig)
    (existingContract : option Existing.t) (contractAdmin : string) (s : State)
    (k : KrystalContracts) :
  let r := deployContracts networkConfig existingContract contractAdmin s in
  outcome r = Ok k ->
  follows networkConfig k /\
  reuses existingContract k /\
  renews existingContract k (trace r).
Proof. intros r Hk. by apply deployContracts_returns. Qed.

(** X8. What [deployContracts] deploys.  A run that returns has
    requested the factories of SmartWalletImplementation,
    FetchTokenBalances and FetchAaveDataWrapper, then of the contract of
    each configured protocol (UniSwap, UniSwapV3, KyberProxy, KyberDmm,
    CompoundLending, AaveV1Lending, AaveV2Lending, and AaveV2Lending
    again for the AMM market) and last of SmartWalletProxy, in this
    order; it has deployed those without an address on record, each with
    the admin as first constructor argument, and the proxy with the
    address of the implementation, the supported wallets and the
    addresses of the swap and of the lending contracts it returns. *)
Theorem deployContracts_deployments `{P : Platform} (networkConfig : Cfg.IConfig)
    (existingContract : option Existing.t) (contractAdmin : string) (s : State)
    (k : KrystalContracts) :
  let r := deployContracts networkConfig existingContract contractAdmin s in
  outcome r = Ok k ->
  deployments (trace r) = planned networkConfig existingContract contractAdmin k.
Proof. intros r Hk. by apply deployContracts_returns. Qed.

(** X9. With an address on record for every contract of the
    configuration, [deployContracts] deploys nothing: all it calls are
    the requests of the factories, one per contract and in order (the
    first of them when one fails), so that nothing is created, submitted
    or verified. *)
Theorem complete_record_deploys_nothing `{P : Platform} (networkConfig : Cfg.IConfig)
    (existingContract : option Existing.t) (contractAdmin : string) (s : State) :
  complete networkConfig existingContract = true ->
  let r := deployContracts networkConfig existingContract contractAdmin s in
  calls (trace r) `prefix_of` map getContractFactory (contract_names networkConfig) /\
  (forall k, outcome r = Ok k ->
     calls (trace r) = map getContractFactory (contract_names networkConfig)).
Proof.
  intros Hc r. eapply deployContracts_complete; [done|]. apply run_eta.
Qed.


Section Summary.
Context `{P : Platform}.

#[local] Transparent String.eqb.

Lemma contracts_object_plain k : plain (contracts_object k).
Proof.
  unfold contracts_object. simpl.
  split_and!; try done; try (by destruct (_ : option Contract)).
  all: apply (bool_decide_unpack _); by vm_compute.
Qed.

Lemma summary_addresses k :
  convertToAddressObject (contracts_object k) = address_tree (contracts_object k).
Proof. apply convertToAddressObject_plain, contracts_object_plain. Qed.

Lemma as_address_opt c : as_address (address_tree (opt_obj c)) = address <$> c.
Proof. by destruct c. Qed.

Lemma summary_existing k :
  existing_of (convertToAddressObject (contracts_object k)) =
  {| Existing.smartWalletImplementation := Some (address (smartWalletImplementation k));
     Existing.smartWalletProxy := Some (address (smartWalletProxy k));
     Existing.fetchTokenBalances := Some (address (fetchTokenBalances k));
     Existing.fetchAaveDataWrapper := Some (address (fetchAaveDataWrapper k));
     Existing.swapContracts :=
       Some {| Existing.uniSwap := address <$> uniSwap (swapContracts k);
               Existing.uniSwapV3 := address <$> uniSwapV3 (swapContracts k);
               Existing.kyberProxy := address <$> kyberProxy (swapContracts k);
               Existing.kyberDmm := address <$> kyberDmm (swapContracts k) |};
     Existing.lendingContracts :=
       Some {| Existing.compoundLending :=
                 address <$> compoundLending (lendingContracts k);
               Existing.aaveV1Lending := None;
               Existing.aaveV2Lending := None;
               Existing.aaveAMMLending := None |} |}.
Proof.
  rewrite summary_addresses. unfold existing_of, contracts_object.
  cbn [address_tree map property Object.record_get String.eqb Ascii.eqb
       Bool.eqb].
  by rewrite !as_address_opt.
Qed.
End Summary.

(** X10. The summary that [deploy] prints, read back as
    [existingContract].  [deployContracts] finds in it the addresses of
    the implementation, the proxy, the two fetchers, the swap contracts
    and compoundLending; it finds nothing for the three Aave lending
    contracts, which the summary has under aaveV1, aaveV2 and aaveAMM and
    which are looked up under aaveV1Lending, aaveV2Lending and
    aaveAMMLending.  So a run on the summary attaches the proxy where it
    was and creates every Aave lending contract again. *)
Theorem summary_read_back `{P : Platform} (k : KrystalContracts) :
  let existingContract := existing_of (convertToAddressObject (contracts_object k)) in
  existingContract =
    {| Existing.smartWalletImplementation := Some (address (smartWalletImplementation k));
       Existing.smartWalletProxy := Some (address (smartWalletProxy k));
       Existing.fetchTokenBalances := Some (address (fetchTokenBalances k));
       Existing.fetchAaveDataWrapper := Some (address (fetchAaveDataWrapper k));
       Existing.swapContracts :=
         Some {| Existing.uniSwap := address <$> uniSwap (swapContracts k);
                 Existing.uniSwapV3 := address <$> uniSwapV3 (swapContracts k);
                 Existing.kyberProxy := address <$> kyberProxy (swapContracts k);
                 Existing.kyberDmm := address <$> kyberDmm (swapContracts k) |};
       Existing.lendingContracts :=
         Some {| Existing.compoundLending :=
                   address <$> compoundLending (lendingContracts k);
                 Existing.aaveV1Lending := None;
                 Existing.aaveV2Lending := None;
                 Existing.aaveAMMLending := None |} |}
  /\
  forall networkConfig contractAdmin s k',
    let r := deployContracts networkConfig (Some existingContract) contractAdmin s in
    outcome r = Ok k' ->
    (address (smartWalletProxy k) <> "" ->
     smartWalletProxy k' = attached (address (smartWalletProxy k))) /\
    (forall c,
       aaveV1 (lendingContracts k') = Some c \/
       aaveV2 (lendingContracts k') = Some c \/
       aaveAMM (lendingContracts k') = Some c ->
       Created c ∈ milestones (trace r)).
Proof.
  intros ex. assert (Hex := summary_existing k). fold ex in Hex. clearbody ex.
  split; [exact Hex|].
  intros nc admin s k' r Hk.
  destruct (deployContracts_returns nc (Some ex) admin s k' Hk)
    as (_ & _ & Hreuses & Hrenews).
  fold r in Hrenews. clear Hk. revert Hrenews. generalize (trace r). clear r.
  intros t Hrenews.
  unfold reuses, renews in *. cbv zeta in *. subst ex. simpl in Hreuses, Hrenews.
  destruct Hreuses as (_ & _ & _ & _ & _ & _ & _ & _ & _ & _ & _ & Hproxy).
  destruct Hrenews as (_ & _ & _ & _ & _ & _ & _ & _ & H1 & H2 & H3 & _).
  split.
  - intros Hne. apply Hproxy; [|done]. unfold JS.defined.
    by destruct (String.eqb_spec (address (smartWalletProxy k)) "").
  - intros c [Hc|[Hc|Hc]]; [by apply H1|by apply H2|by apply H3].
Qed.


(* ===================================================================== *)
(** * What a run never calls                                              *)
(* ===================================================================== *)

#[global] Instance Only_sound ok : Sound (Only ok).
Proof.
  split.
  - by intros args.
  - done.
  - intros a Ha r. exists tt. simpl in *. unfold only_step. simpl. rewrite Ha.
    split; [done|]. by destruct r.
  - intros a Ha r. simpl in *. unfold only_step. simpl. by rewrite Ha.
Qed.

Section Only.
Context `{P : Platform}.

Lemma only_accepts ok t q :
  mrun (Only ok) tt t = Some q -> forall a, a ∈ calls t -> ok a = true.
Proof.
  revert q. induction t as [|e t IH]; intros q Hrun a Ha; simpl in *.
  - by apply elem_of_nil in Ha.
  - unfold only_step in Hrun. destruct e as [a' r|args]; simpl in *.
    + destruct (ok a') eqn:Hok; [|done].
      apply elem_of_cons in Ha as [->|Ha]; [done|]. by eapply IH.
    + by eapply IH.
Qed.

Lemma respects_only ok {A} (m : Script A) s :
  respects (Only ok) m -> forall a, a ∈ calls (trace (m s)) -> ok a = true.
Proof. intros H. destruct (H s) as ([] & Hrun & _). by eapply only_accepts. Qed.

Lemma deploy_initialize multisig networkConfig existingContract extraArgs :
  deploy multisig networkConfig existingContract extraArgs =
  do signers <- perform getSigners;
  do deployerAddress <-
    match head signers with
    | Some deployer => perform (getAddress deployer)
    | None => throw (TypeError "deployer is undefined")
    end;
  do _ <- log 0 [LStr "Start deploying Krystal contracts"];
  do _ <- log 0 [LStr rule];
  do deployedContracts <-
    deployContracts networkConfig existingContract
      (JS.or_else multisig deployerAddress);
  initialize multisig networkConfig deployedContracts extraArgs.
Proof. reflexivity. Qed.
End Only.

(** Every step of the script keeps to [ok] as soon as its own calls do:
    those around them always do. *)
Section Plumbing.
Context `{P : Platform} (ok : action -> bool) (multisig : option string).
Hypothesis Hok : forall a, plumbing a = true -> ok a = true.

Ltac solve_neutral ::= apply Hok; reflexivity.

#[local] Transparent executeTxn printInfo.

Lemma only_executeTxn txn : respects (Only ok) (executeTxn multisig txn).
Proof. unfold executeTxn. respects_auto. Qed.

Lemma only_printInfo tx : respects (Only ok) (printInfo tx).
Proof. unfold printInfo. respects_auto. Qed.
End Plumbing.

(** The functions of the second half, opened up to their calls. *)
Ltac open_steps :=
  unfold initialize, updateProxy, updateProxy_impl, updateProxy_wallets,
    updateProxy_swaps, updateProxy_lendings, updateChildContracts,
    linkChildContract, updateUniSwap, updateUniSwapV3, updateKyberProxy,
    updateKyberDmm, updateCompoundLending, updateAaveV1Lending,
    updateAaveV2Lending, updateAddressSet;
  cbv beta.

Section NoVerification.
Context `{P : Platform} (multisig : option string) (networkConfig : Cfg.IConfig).

Local Abbreviation V := (Only no_verification).

Ltac solve_neutral ::= reflexivity.

Lemma unverified_executeTxn txn : respects V (executeTxn multisig txn).
Proof. apply only_executeTxn. by intros []. Qed.

Lemma unverified_printInfo tx : respects V (printInfo tx).
Proof. apply only_printInfo. by intros []. Qed.

Hint Resolve unverified_executeTxn unverified_printInfo : respects.

Lemma unverified_initialize k extraArgs :
  respects V (initialize multisig networkConfig k extraArgs).
Proof. open_steps. respects_auto. Qed.

Lemma unverified_deployContract step name addr args :
  respects V (deployContract step false name addr args).
Proof. unfold deployContract. cbv beta iota. respects_auto. Qed.

Hint Resolve unverified_initialize unverified_deployContract : respects.

Lemma unverified_deploy existingContract extraArgs :
  Cfg.autoVerifyContract networkConfig = false ->
  respects V (deploy multisig networkConfig existingContract extraArgs).
Proof.
  intros H. rewrite deploy_initialize. unfold deployContracts. rewrite H. cbv zeta.
  respects_auto.
Qed.
End NoVerification.

(** X11. Verification is on request only: on a network whose
    configuration does not set [autoVerifyContract], no run of [deploy]
    ever sleeps or runs verify:verify, whatever is deployed. *)
Theorem verification_on_request_only `{P : Platform} (multisig : option string)
    (networkConfig : Cfg.IConfig) (existingContract : option Existing.t)
    (extraArgs : ExtraArgs) (s : State) :
  Cfg.autoVerifyContract networkConfig = false ->
  forall a,
    a ∈ calls (trace (deploy multisig networkConfig existingContract extraArgs s)) ->
    is_verification a = false.
Proof.
  intros H a Ha.
  apply (respects_only no_verification _ s
           (unverified_deploy multisig networkConfig existingContract extraArgs H))
    in Ha.
  unfold no_verification in Ha. by destruct (is_verification a).
Qed.


Section NoDeployment.
Context `{P : Platform} (multisig : option string) (networkConfig : Cfg.IConfig).

Local Abbreviation N := (Only no_deployment).

Ltac solve_neutral ::= reflexivity.

Lemma settled_executeTxn txn : respects N (executeTxn multisig txn).
Proof. apply only_executeTxn. by intros []. Qed.

Lemma settled_printInfo tx : respects N (printInfo tx).
Proof. apply only_printInfo. by intros []. Qed.

Hint Resolve settled_executeTxn settled_printInfo : respects.

(** Once the contracts are there, nothing more is deployed. *)
Lemma initialize_deploys_nothing k extraArgs :
  respects N (initialize multisig networkConfig k extraArgs).
Proof. open_steps. respects_auto. Qed.
End NoDeployment.

Section BuiltWith.
Context `{P : Platform} (multisig : option string) (networkConfig : Cfg.IConfig).
Variable extraArgs : ExtraArgs.

Local Abbreviation B := (Only (built_with extraArgs)).

Ltac solve_neutral ::=
  first [ reflexivity | apply bool_decide_eq_true_2; reflexivity ].

Lemma built_executeTxn txn : respects B (executeTxn multisig txn).
Proof. apply only_executeTxn. by intros []. Qed.

Lemma built_printInfo tx : respects B (printInfo tx).
Proof. apply only_printInfo. by intros []. Qed.

Hint Resolve built_executeTxn built_printInfo : respects.

Lemma built_initialize k : respects B (initialize multisig networkConfig k extraArgs).
Proof. open_steps. respects_auto. Qed.

Lemma built_deployContract step autoVerify name addr args :
  respects B (deployContract step autoVerify name addr args).
Proof. unfold deployContract. respects_auto. Qed.

Lemma built_deployContracts existingContract contractAdmin :
  respects B (deployContracts networkConfig existingContract contractAdmin).
Proof. apply deployContracts_respects, built_deployContract. Qed.

Hint Resolve built_initialize built_deployContracts : respects.

Lemma built_deploy existingContract :
  respects B (deploy multisig networkConfig existingContract extraArgs).
Proof. rewrite deploy_initialize. respects_auto. Qed.
End BuiltWith.

(** X12. How [deploy] builds its transactions.  Every transaction on
    the proxy (implementation, wallets, swaps, lendings), on the link of
    a swap or lending contract to the proxy and on the routers of
    UniSwap and UniSwapV3 is populated with the overrides
    [{gasLimit: 700000, ...extraArgs}]; the updates of KyberProxy, of
    KyberDmm and of the Compound and Aave data are populated with no
    overrides at all, so neither the gas limit nor [extraArgs.from]
    reaches them. *)
Theorem transactions_built_with `{P : Platform} (multisig : option string)
    (networkConfig : Cfg.IConfig) (existingContract : option Existing.t)
    (extraArgs : ExtraArgs) (s : State) :
  forall a,
    a ∈ calls (trace (deploy multisig networkConfig existingContract extraArgs s)) ->
    built_with extraArgs a = true.
Proof.
  apply respects_only, built_deploy.
Qed.


Lemma elem_of_filter_defined {A} (l : list (option A)) (x : A) :
  x ∈ filter_defined l <-> Some x ∈ l.
Proof.
  induction l as [|[y|] l IH]; simpl.
  - by rewrite !elem_of_nil.
  - rewrite !elem_of_cons, IH. split; intros [H|H]; auto; left; congruence.
  - rewrite elem_of_cons, IH. split; [by right|]. by intros [?|?].
Qed.

(** Find a contract in a list of contracts. *)
Ltac member :=
  repeat first [ apply list_elem_of_here | apply list_elem_of_further
               | rewrite elem_of_filter_defined ].

Section Touches.
Context `{P : Platform} (multisig : option string) (networkConfig : Cfg.IConfig).

Ltac solve_neutral ::=
  first [ reflexivity | apply bool_decide_eq_true_2; member ].

Lemma touches_executeTxn allowed txn :
  respects (Only (touches allowed)) (executeTxn multisig txn).
Proof. apply only_executeTxn. by intros []. Qed.

Lemma touches_printInfo allowed tx : respects (Only (touches allowed)) (printInfo tx).
Proof. apply only_printInfo. by intros []. Qed.

Hint Resolve touches_executeTxn touches_printInfo : respects.

Lemma touches_updateProxy k extraArgs :
  respects (Only (touches [smartWalletProxy k]))
    (updateProxy multisig networkConfig k extraArgs).
Proof. open_steps. respects_auto. Qed.

Lemma touches_updateChildContracts k extraArgs :
  respects (Only (touches (children k))) (updateChildContracts multisig k extraArgs).
Proof.
  destruct k as [impl proxy balances wrapper [u u3 kp kd] [cl a1 a2 amm]].
  open_steps. unfold children, merged.
  cbn [for_each map snd swapContracts lendingContracts uniSwap uniSwapV3
       kyberProxy kyberDmm compoundLending aaveV1 aaveV2 aaveAMM].
  cbv beta iota zeta. respects_auto.
Qed.

Lemma touches_updateUniSwap c extraArgs :
  respects (Only (touches [c])) (updateUniSwap multisig networkConfig (Some c) extraArgs).
Proof. open_steps. respects_auto. Qed.

Lemma touches_updateUniSwapV3 c extraArgs :
  respects (Only (touches [c]))
    (updateUniSwapV3 multisig networkConfig (Some c) extraArgs).
Proof. open_steps. respects_auto. Qed.

Lemma touches_updateKyberProxy c extraArgs :
  respects (Only (touches [c]))
    (updateKyberProxy multisig networkConfig (Some c) extraArgs).
Proof. open_steps. respects_auto. Qed.

Lemma touches_updateKyberDmm c extraArgs :
  respects (Only (touches [c])) (updateKyberDmm multisig networkConfig (Some c) extraArgs).
Proof. open_steps. respects_auto. Qed.

Lemma touches_updateCompoundLending c extraArgs :
  respects (Only (touches [c]))
    (updateCompoundLending multisig networkConfig (Some c) extraArgs).
Proof. open_steps. respects_auto. Qed.

Lemma touches_updateAaveV1Lending c extraArgs :
  respects (Only (touches [c]))
    (updateAaveV1Lending multisig networkConfig (Some c) extraArgs).
Proof. open_steps. respects_auto. Qed.

Lemma touches_updateAaveV2Lending c cfg extraArgs :
  respects (Only (touches [c]))
    (updateAaveV2Lending multisig networkConfig (Some c) cfg extraArgs).
Proof. open_steps. respects_auto. Qed.

Lemma touches_initialize k extraArgs :
  respects (Only (touches (smartWalletProxy k :: children k)))
    (initialize multisig networkConfig k extraArgs).
Proof.
  destruct k as [impl proxy balances wrapper [u u3 kp kd] [cl a1 a2 amm]].
  open_steps. unfold children, merged.
  cbn [for_each map snd smartWalletProxy smartWalletImplementation swapContracts
       lendingContracts uniSwap uniSwapV3 kyberProxy kyberDmm compoundLending
       aaveV1 aaveV2 aaveAMM].
  cbv beta iota zeta. respects_auto.
Qed.

Lemma touches_deployContract step autoVerify name addr args :
  respects (Only (touches [])) (deployContract step autoVerify name addr args).
Proof. unfold deployContract. respects_auto. Qed.

Lemma touches_deployContracts existingContract contractAdmin :
  respects (Only (touches []))
    (deployContracts networkConfig existingContract contractAdmin).
Proof. apply deployContracts_respects, touches_deployContract. Qed.

Lemma touches_nothing allowed a : touches [] a = true -> touches allowed a = true.
Proof.
  unfold touches. destruct (target a) as [c|]; [|done].
  intros H%bool_decide_eq_true_1. by apply elem_of_nil in H.
Qed.
End Touches.


(* ===================================================================== *)
(** * A whole run of [deploy]                                             *)
(* ===================================================================== *)

Section Deploy.
Context `{P : Platform} (multisig : option string) (networkConfig : Cfg.IConfig).

Lemma ends_app {A} (x l e : list A) :
  (exists t0, l = t0 ++ e) -> exists t0, x ++ l = t0 ++ e.
Proof. intros [t0 ->]. exists (x ++ t0). by rewrite app_assoc. Qed.

Lemma ends_cons {A} (x : A) (l e : list A) :
  (exists t0, l = t0 ++ e) -> exists t0, x :: l = t0 ++ e.
Proof. intros [t0 ->]. by exists (x :: t0). Qed.

Lemma respects_run ok {A} (m : Script A) s o s1 t :
  respects (Only ok) m -> m s = mkRun o s1 t -> forall a, a ∈ calls t -> ok a = true.
Proof. intros H E. pose proof (respects_only ok m s H) as F. by rewrite E in F. Qed.

(** The second half returns the contracts it was given, after having
    printed their addresses and that the deployment is complete. *)
Lemma initialize_spec k extraArgs s k' s1 t :
  initialize multisig networkConfig k extraArgs s = mkRun (Ok k') s1 t ->
  k' = k /\
  exists t0,
    t = t0 ++
        [Printed [LStr "";
                  LJson (json_addresses
                           (convertToAddressObject (contracts_object k)))];
         Printed [LStr (newline +:+ "Deployment complete!")]].
Proof.
  unfold initialize.
  do 30 run_block ltac:(fun H => clear H).
  repeat (rewrite bind_run, log_exact; cbv beta iota).
  rewrite bind_run. unfold console_log, ret. cbv beta iota. cbn [after].
  rewrite (prefix_spaces 0). change (spaces (4 * 0)) with "".
  intros [= <- <- <-]. split; [done|].
  repeat apply ends_app. by eexists [_].
Qed.

Lemma perform_spec a (s : State) o s1 t :
  perform a s = mkRun o s1 t ->
  t = [Called a (match o with Ok x => inr x | Throw e => inl e end)].
Proof.
  rewrite perform_run. by destruct (oracle a (world s)) as [[e|x] w]; intros [= <- <- <-].
Qed.

Lemma log_spec level args (s : State) o s1 t :
  log level args s = mkRun o s1 t -> calls t = [].
Proof.
  destruct (log_run level args s) as (t' & E & Ht & _). rewrite E.
  intros [= <- <- <-]. by apply calls_prints.
Qed.

Lemma deploy_spec existingContract extraArgs s k s1 t :
  deploy multisig networkConfig existingContract extraArgs s = mkRun (Ok k) s1 t ->
  exists deployer signers deployerAddress rest,
    t = Called getSigners (inr (deployer :: signers))
        :: Called (getAddress deployer) (inr deployerAddress) :: rest /\
    deployments t =
      planned networkConfig existingContract
        (JS.or_else multisig deployerAddress) k /\
    follows networkConfig k /\
    reuses existingContract k /\
    (forall a, a ∈ calls t ->
       touches (smartWalletProxy k :: children k) a = true) /\
    exists t0,
      t = t0 ++
          [Printed [LStr "";
                    LJson (json_addresses
                             (convertToAddressObject (contracts_object k)))];
           Printed [LStr (newline +:+ "Deployment complete!")]].
Proof.
  rewrite deploy_initialize.
  run_block ltac:(fun H => apply perform_spec in H).
  match goal with |- context [head ?l] => destruct l as [|deployer signers] end;
    simpl (head _); cbv beta iota.
  { rewrite bind_run. unfold throw. cbv beta iota. intros; discriminate. }
  run_block ltac:(fun H => apply perform_spec in H).
  do 2 run_block ltac:(fun H => apply log_spec in H).
  match goal with
  | |- context [bind (deployContracts ?nc ?ex ?admin) ?f ?s] =>
      rewrite (bind_run (deployContracts nc ex admin) f s);
      destruct (deployContracts nc ex admin s) as [[k1|e] stD trD] eqn:Hdeploy;
      cbv beta iota; [|intros; discriminate]
  end.
  match goal with
  | |- context [initialize ?ms ?nc ?k ?x ?s] =>
      destruct (initialize ms nc k x s) as [[k2|e] stI trI] eqn:Hinit;
      cbn [after]; [|intros; discriminate]
  end.
  intros [= <- <- <-].
  pose proof (respects_run _ _ _ _ _ _
                (touches_deployContracts networkConfig _ _) Hdeploy) as Htouch1.
  pose proof (respects_run _ _ _ _ _ _
                (touches_initialize multisig networkConfig _ _) Hinit) as Htouch2.
  pose proof (respects_run _ _ _ _ _ _
                (initialize_deploys_nothing multisig networkConfig _ _) Hinit)
    as Hnone.
  apply deployContracts_spec in Hdeploy as (Hplan & Hfollows & Hreuses & _).
  apply initialize_spec in Hinit as [-> Hend].
  subst. eexists _, _, _, _. split_and!; [reflexivity| | | | |].
  - unfold deployments in *. rewrite !calls_app, !omap_app.
    repeat match goal with H : calls _ = [] |- _ => rewrite H; clear H end.
    simpl. rewrite Hplan.
    assert (omap deployment_of (calls trI) = []) as ->; [|by rewrite app_nil_r].
    clear -Hnone. induction (calls trI) as [|c l IH]; [done|]. simpl.
    pose proof (Hnone c ltac:(left)) as Hc. unfold no_deployment in Hc.
    destruct (deployment_of c); [done|]. apply IH. intros b Hin. apply Hnone. by right.
  - done.
  - done.
  - intros x. rewrite !calls_app.
    repeat match goal with H : calls _ = [] |- _ => rewrite H; clear H end.
    simpl. rewrite !elem_of_cons, elem_of_app.
    intros [->|[->|[Hx|Hx]]]; [done|done| |by apply Htouch2].
    by apply touches_nothing, Htouch1.
  - destruct Hend as [t0 ->].
    do 2 apply ends_cons. do 3 apply ends_app. by eexists.
Qed.
End Deploy.


(** X13. The admin of a deployment.  A run of [deploy] that returns has
    first asked for the signers and then for the address of the first of
    them, and has requested and deployed its contracts as
    [deployContracts] does with [multisig || deployerAddress] as admin:
    the multisig when there is one (a non-empty string), the first
    signer otherwise.  Nothing after [deployContracts] deploys
    anything. *)
Theorem deploy_admin `{P : Platform} (multisig : option string)
    (networkConfig : Cfg.IConfig) (existingContract : option Existing.t)
    (extraArgs : ExtraArgs) (s : State) (k : KrystalContracts) :
  let r := deploy multisig networkConfig existingContract extraArgs s in
  outcome r = Ok k ->
  exists (deployer : Signer) (signers : list Signer) (deployerAddress : string)
         (rest : list entry),
    trace r = Called getSigners (inr (deployer :: signers))
              :: Called (getAddress deployer) (inr deployerAddress) :: rest /\
    deployments (trace r) =
      planned networkConfig existingContract
        (JS.or_else multisig deployerAddress) k.
Proof.
  intros r Hk.
  destruct (deploy_spec multisig networkConfig existingContract extraArgs s k
              (final r) (trace r))
    as (deployer & signers & deployerAddress & rest & Ht & Hplan & _).
  { rewrite <- Hk. apply run_eta. }
  by exists deployer, signers, deployerAddress, rest.
Qed.

(** X14. What a run of [deploy] reads and writes.  In a run that
    returns the contracts [k], every read ([call]) and every transaction
    built ([populateTransaction]) is on the proxy of [k] or on one of
    its swap and lending contracts: the implementation and the two
    fetchers are deployed and never touched again. *)
Theorem deploy_touches_proxy_and_children `{P : Platform} (multisig : option string)
    (networkConfig : Cfg.IConfig) (existingContract : option Existing.t)
    (extraArgs : ExtraArgs) (s : State) (k : KrystalContracts) :
  let r := deploy multisig networkConfig existingContract extraArgs s in
  outcome r = Ok k ->
  forall a c, a ∈ calls (trace r) -> target a = Some c ->
    c = smartWalletProxy k \/ c ∈ children k.
Proof.
  intros r Hk a c Ha Hc.
  destruct (deploy_spec multisig networkConfig existingContract extraArgs s k
              (final r) (trace r))
    as (_ & _ & _ & _ & _ & _ & _ & _ & Htouch & _).
  { rewrite <- Hk. apply run_eta. }
  specialize (Htouch a Ha). unfold touches in Htouch. rewrite Hc in Htouch.
  apply bool_decide_eq_true_1 in Htouch. by apply elem_of_cons in Htouch.
Qed.

(** X15. How a run of [deploy] ends.  A run that returns the contracts
    [k] has printed last, at level 0, the addresses of [k] as
    [convertToAddressObject] gives them and then the line
    "Deployment complete!" after a line feed. *)
Theorem deploy_ends_with_summary `{P : Platform} (multisig : option string)
    (networkConfig : Cfg.IConfig) (existingContract : option Existing.t)
    (extraArgs : ExtraArgs) (s : State) (k : KrystalContracts) :
  let r := deploy multisig networkConfig existingContract extraArgs s in
  outcome r = Ok k ->
  exists t0,
    trace r =
      t0 ++ [Printed [LStr "";
                      LJson (json_addresses
                               (convertToAddressObject (contracts_object k)))];
             Printed [LStr (newline +:+ "Deployment complete!")]].
Proof.
  intros r Hk.
  destruct (deploy_spec multisig networkConfig existingContract extraArgs s k
              (final r) (trace r))
    as (_ & _ & _ & _ & _ & _ & _ & _ & _ & Hend).
  { rewrite <- Hk. apply run_eta. }
  exact Hend.
Qed.

Lemma none_follows {A C} (x : option A) :
  (is_Some x <-> is_Some (@None C)) -> x = None.
Proof.
  destruct x as [a|]; [|done]. intros [H _].
  destruct (H (ltac:(by eexists))) as [? [=]].
Qed.

(** X16. A deployment on Fantom.  The entry fantom_mainnet of
    [FantomConfig] configures none of the protocols that the script
    looks at (its kyberDmmV2, kyberSwapV2 and kyberSwapV3 are not read),
    so a run of [deploy] that returns has neither a swap nor a lending
    contract; it has requested SmartWalletImplementation,
    FetchTokenBalances, FetchAaveDataWrapper (whatever the entry says
    under diabledFetchAaveDataWrapper, which is not read either) and
    SmartWalletProxy, the proxy built on the common platform wallets and
    on empty lists of swaps and lendings; and it has read and written
    nothing but the proxy. *)
Theorem fantom_deploys_no_swap_or_lending `{P : Platform}
    (commonPlatformWallets : list string) (networkConfig : Cfg.IConfig)
    (multisig : option string) (existingContract : option Existing.t)
    (extraArgs : ExtraArgs) (s : State) (k : KrystalContracts) :
  FantomConfig commonPlatformWallets !! "fantom_mainnet" = Some networkConfig ->
  let r := deploy multisig networkConfig existingContract extraArgs s in
  outcome r = Ok k ->
  swapContracts k = {| uniSwap := None; uniSwapV3 := None;
                       kyberProxy := None; kyberDmm := None |} /\
  lendingContracts k = {| compoundLending := None; aaveV1 := None;
                          aaveV2 := None; aaveAMM := None |} /\
  (exists deployerAddress,
     let contractAdmin := JS.or_else multisig deployerAddress in
     deployments (trace r) =
       request "SmartWalletImplementation"
         (existingContract ≫= Existing.smartWalletImplementation)
         [ArgString contractAdmin] ++
       request "FetchTokenBalances"
         (existingContract ≫= Existing.fetchTokenBalances)
         [ArgString contractAdmin] ++
       request "FetchAaveDataWrapper"
         (existingContract ≫= Existing.fetchAaveDataWrapper)
         [ArgString contractAdmin] ++
       request "SmartWalletProxy"
         (existingContract ≫= Existing.smartWalletProxy)
         [ArgString contractAdmin;
          ArgString (address (smartWalletImplementation k));
          ArgList commonPlatformWallets; ArgList []; ArgList []]) /\
  (forall a c, a ∈ calls (trace r) -> target a = Some c -> c = smartWalletProxy k).
Proof.
  intros Hnc r Hk.
  unfold FantomConfig in Hnc. apply lookup_singleton_Some in Hnc as [_ <-].
  destruct (deploy_spec multisig (fantom_mainnet commonPlatformWallets)
              existingContract extraArgs s k (final r) (trace r))
    as (deployer & signers & deployerAddress & rest & _ & Hplan & Hfollows & _
        & Htouch & _).
  { rewrite <- Hk. apply run_eta. }
  clear Hk. clearbody r.
  destruct Hfollows as (H1 & H2 & H3 & H4 & H5 & H6 & H7 & H8).
  apply none_follows in H1, H2, H3, H4, H5, H6, H7, H8.
  destruct k as [impl proxy balances wrapper [u u3 kp kd] [cl a1 a2 am]].
  cbn [swapContracts lendingContracts uniSwap uniSwapV3 kyberProxy kyberDmm
       compoundLending aaveV1 aaveV2 aaveAMM] in *.
  subst. split_and!; [reflexivity|reflexivity| |].
  - exists deployerAddress. rewrite Hplan. reflexivity.
  - intros a c Ha Hc. specialize (Htouch a Ha).
    unfold touches in Htouch. rewrite Hc in Htouch.
    apply bool_decide_eq_true_1 in Htouch.
    apply elem_of_cons in Htouch as [->|Hin]; [reflexivity|].
    by apply elem_of_nil in Hin.
Qed.


(* ===================================================================== *)
(** * The theorems at concrete inputs                                     *)
(* ===================================================================== *)

#[local] Transparent log bind perform try_catch prefix executeTxn printInfo String.eqb.

Ltac case_variants :=
  repeat lazymatch goal with
    | |- Forall2 _ [] [] => constructor
    | |- Forall2 _ (_ :: _) (_ :: _) => constructor
    | |- case_variant EmptyString EmptyString => apply cv_nil
    | |- case_variant (String _ _) (String _ _) => apply cv_cons
    | |- same_letter _ _ =>
        first [ left; reflexivity
              | right; left; reflexivity
              | right; right; reflexivity ]
    end.

Lemma address_set_reconciliation_witness :
  @oracle Sim.platform (call_list Demo.proxy Abi.getAllSupportedPlatformWallets)
    Demo.chain = (inr ["0xaa"; "0xBB"], Demo.chain)
  /\
  outcome (updateProxy_wallets (P:=Sim.platform) None Demo.config Demo.contracts
             Demo.extraArgs (Sim.start Demo.chain)) = Ok tt
  /\
  emitted (trace (updateProxy_wallets (P:=Sim.platform) None Demo.config
                    Demo.contracts Demo.extraArgs (Sim.start Demo.chain)))
  = [(Demo.proxy, Abi.updateSupportedPlatformWallets ["0xbb"] false);
     (Demo.proxy, Abi.updateSupportedPlatformWallets ["0xcc"] true)].
Proof.
  destruct (address_set_reconciliation (P:=Sim.platform) None Demo.config
              Demo.contracts Demo.extraArgs) as (Hwallets & _).
  assert (Hread : @oracle Sim.platform
                    (call_list Demo.proxy Abi.getAllSupportedPlatformWallets)
                    Demo.chain = (inr ["0xaa"; "0xBB"], Demo.chain))
    by reflexivity.
  assert (Hok : outcome (updateProxy_wallets (P:=Sim.platform) None Demo.config
                           Demo.contracts Demo.extraArgs (Sim.start Demo.chain))
                = Ok tt)
    by (vm_compute; reflexivity).
  split_and!; [exact Hread|exact Hok|].
  destruct Hwallets as (_ & _ & Hemitted).
  destruct (Hemitted (Sim.start Demo.chain) _ _ Hread) as [_ Heq].
  rewrite (Heq Hok). vm_compute. reflexivity.
Defined.

Lemma reconciliation_steps_witness :
  @oracle Sim.platform (call Demo.proxy Abi.implementation) Demo.chain
    = (inr "0xImpl", Demo.chain)
  /\
  (calls (trace (updateProxy_impl (P:=Sim.platform) None Demo.contracts
                   Demo.extraArgs (Sim.start Demo.chain)))
     = [call Demo.proxy Abi.implementation]
   /\
   outcome (updateProxy_impl (P:=Sim.platform) None Demo.contracts
              Demo.extraArgs (Sim.start Demo.chain)) = Ok tt)
  /\
  (forall a, a ∈ map JS.toLowerCase ["0xCC"; "0xaa"; "0xAA"]
             <-> a ∈ map JS.toLowerCase (Cfg.supportedWallets Demo.config))
  /\
  calls (trace (updateProxy_wallets (P:=Sim.platform) None Demo.config
                  Demo.contracts Demo.extraArgs (Sim.start Demo.chain_settled)))
    = [call_list Demo.proxy Abi.getAllSupportedPlatformWallets].
Proof.
  destruct (reconciliation_steps (P:=Sim.platform) None Demo.config
              Demo.contracts Demo.extraArgs) as (Himpl & _ & _ & _ & Hwallets & _).
  destruct Himpl as [_ Himpl].
  destruct (Himpl (Sim.start Demo.chain)) as (_ & Hsame & _).
  assert (Hset : forall a, a ∈ map JS.toLowerCase ["0xCC"; "0xaa"; "0xAA"]
                           <-> a ∈ map JS.toLowerCase
                                     (Cfg.supportedWallets Demo.config)).
  { intros a. simpl. rewrite !elem_of_cons, !elem_of_nil. tauto. }
  split; [reflexivity|]. split; [|split; [exact Hset|]].
  - exact (Hsame "0xImpl" Demo.chain eq_refl).
  - exact (proj1 (Hwallets (Sim.start Demo.chain_settled)
                    ["0xCC"; "0xaa"; "0xAA"] Demo.chain_settled eq_refl Hset)).
Defined.

(** C2, as stated, fails on the Aave steps: [updateAaveV1Lending] emits
    its transaction without having read anything, and emits it whatever
    the chain holds, also when that is the configuration already. *)
Lemma aave_step_not_idempotent :
  ~ reads_before_emitting
      (updateAaveV1Lending (P:=Sim.platform) None Demo.config (Some Demo.aave)
         Demo.extraArgs)
  /\
  forall views list_views,
    emitted (trace (updateAaveV1Lending (P:=Sim.platform) None Demo.config
                      (Some Demo.aave) Demo.extraArgs
                      (Sim.start {| Sim.signers := [SignerHandle 0];
                                    Sim.views := views;
                                    Sim.list_views := list_views;
                                    Sim.failing := fun _ => None |})))
    = [(Demo.aave, Abi.updateAaveDataV1 "0xPool" "0xCore" 157 ["0xDai"])].
Proof.
  split; [|intros views list_views; vm_compute; reflexivity].
  intros H. destruct (H (Sim.start Demo.chain)) as (a & Hhead & Hread).
  - vm_compute. discriminate.
  - vm_compute in Hhead. injection Hhead as <-. discriminate Hread.
Qed.

Lemma deploy_if_missing_witness :
  @oracle Sim.platform (getContractFactory "UniSwap") Demo.chain
    = (inr {| factoryOf := "UniSwap" |}, Demo.chain)
  /\
  calls (trace (deployContract (P:=Sim.platform) 4 true "UniSwap" (Some "0xOld")
                  [ArgString "0xAdmin"] (Sim.start Demo.chain)))
    = [getContractFactory "UniSwap"]
  /\
  outcome (deployContract (P:=Sim.platform) 4 true "UniSwap" (Some "0xOld")
             [ArgString "0xAdmin"] (Sim.start Demo.chain))
    = Ok (attach {| factoryOf := "UniSwap" |} "0xOld").
Proof.
  pose proof (deploy_if_missing (P:=Sim.platform) 4 true "UniSwap" (Some "0xOld")
                [ArgString "0xAdmin"] (Sim.start Demo.chain)) as [Hcalls Hret].
  split_and!; [reflexivity|exact Hcalls|].
  exact (Hret {| factoryOf := "UniSwap" |} Demo.chain eq_refl).
Defined.

Lemma error_handling_witness :
  (run_verify "0xnewUniSwap" [ArgString "0xAdmin"], mkError "verification failed")
    ∈ failures (trace (deployContract (P:=Sim.platform) 4 true "UniSwap" None
                         [ArgString "0xAdmin"] (Sim.start Demo.chain_unverifiable)))
  /\
  outcome (deployContract (P:=Sim.platform) 4 true "UniSwap" None
             [ArgString "0xAdmin"] (Sim.start Demo.chain_unverifiable))
    = Ok {| address := "0xnewUniSwap"; deployTransaction := Some Sim.tx0 |}
  /\
  outcome (deploy (P:=Sim.platform) None Demo.config None Demo.extraArgs
             (Sim.start Demo.chain_offline)) = Throw (mkError "offline").
Proof.
  destruct (error_handling (P:=Sim.platform) None Demo.config) as [Hverify Hfatal].
  assert (Hin : (run_verify "0xnewUniSwap" [ArgString "0xAdmin"],
                 mkError "verification failed")
                ∈ failures (trace (deployContract (P:=Sim.platform) 4 true "UniSwap"
                                     None [ArgString "0xAdmin"]
                                     (Sim.start Demo.chain_unverifiable))))
    by (vm_compute; left).
  split_and!; [exact Hin| |].
  - destruct (Hverify 4%nat "UniSwap" None [ArgString "0xAdmin"]
                (Sim.start Demo.chain_unverifiable) eq_refl _ _ Hin eq_refl)
      as ((contract & Hok & _) & _ & _).
    rewrite Hok. vm_compute in Hok. symmetry. exact Hok.
  - apply (Hfatal None Demo.extraArgs (Sim.start Demo.chain_offline)
             [] getSigners (mkError "offline") []); reflexivity.
Defined.

Lemma compound_always_updates_witness :
  Cfg.compound Demo.config = Some Demo.compoundConfig
  /\
  String.length (Compound.compTroller Demo.compoundConfig) = 42%nat
  /\
  @oracle Sim.platform (call Demo.compound Abi.compoundData) Demo.chain
    = (inr Demo.comptroller, Demo.chain)
  /\
  exists rest,
    calls (trace (updateCompoundLending (P:=Sim.platform) None Demo.config
                    (Some Demo.compound) Demo.extraArgs (Sim.start Demo.chain)))
    = call Demo.compound Abi.compoundData
      :: populateTransaction Demo.compound
           (Abi.updateCompoundData Demo.comptroller "0xcEth" ["0xcDai"]) None
      :: rest.
Proof.
  split_and!; [reflexivity|reflexivity|reflexivity|].
  exact (compound_always_updates (P:=Sim.platform) None Demo.config Demo.compound
           Demo.compoundConfig Demo.extraArgs (Sim.start Demo.chain)
           Demo.comptroller Demo.chain eq_refl eq_refl eq_refl).
Defined.

(** C5 at the failing input: the comptroller on chain is the configured
    one, and the step emits [updateCompoundData] all the same. *)
Example compound_update_on_equal_comptroller :
  emitted (trace (updateCompoundLending (P:=Sim.platform) None Demo.config
                    (Some Demo.compound) Demo.extraArgs (Sim.start Demo.chain)))
  = [(Demo.compound, Abi.updateCompoundData Demo.comptroller "0xcEth" ["0xcDai"])].
Proof. vm_compute. reflexivity. Qed.

Lemma sequential_execution_witness :
  outcome (updateAddressSet (P:=Sim.platform) None
             (fun l b o => perform (populateTransaction Demo.proxy
                                      (Abi.updateSupportedSwaps l b) (Some o)))
             ["0xbb"] ["0xcc"] Demo.extraArgs (Sim.start Demo.chain)) = Ok tt
  /\
  milestones (trace (updateAddressSet (P:=Sim.platform) None
                       (fun l b o => perform (populateTransaction Demo.proxy
                                                (Abi.updateSupportedSwaps l b) (Some o)))
                       ["0xbb"] ["0xcc"] Demo.extraArgs (Sim.start Demo.chain)))
    = stages Demo.proxy (Abi.updateSupportedSwaps ["0xbb"] false) Sim.tx0
      ++ stages Demo.proxy (Abi.updateSupportedSwaps ["0xcc"] true) Sim.tx0
  /\
  mrun Protocol Idle
    (trace (deploy (P:=Sim.platform) None Demo.config None Demo.extraArgs
              (Sim.start Demo.chain))) = Some Idle.
Proof.
  destruct (sequential_execution (P:=Sim.platform) None Demo.config) as [Hset Hall].
  split_and!.
  - vm_compute. reflexivity.
  - destruct (Hset Demo.proxy Abi.updateSupportedSwaps ["0xbb"] ["0xcc"]
                Demo.extraArgs (Sim.start Demo.chain)) as (txR & txA & _ & Heq).
    vm_compute. reflexivity.
  - destruct (Hall None Demo.extraArgs (Sim.start Demo.chain)) as (q & Hrun & Hq).
    rewrite Hrun. f_equal. eapply Hq. vm_compute. reflexivity.
Defined.

Lemma executeTxn_routing_witness :
  JS.defined (Some "0xSafe") = Some "0xSafe"
  /\
  outcome (executeTxn (P:=Sim.platform) (Some "0xSafe") Demo.populated
             (Sim.start Demo.chain)) = Ok Sim.tx0
  /\
  trace (executeTxn (P:=Sim.platform) (Some "0xSafe") Demo.populated
           (Sim.start Demo.chain))
  = [Called getSigners (inr [SignerHandle 0]);
     Called (EthersSafe_create "0xSafe" (Some (SignerHandle 0))) (inr (SafeSdkHandle 0));
     Called (createTransaction (SafeSdkHandle 0)
               {| safe_to := "0xProxy"; safe_value := "0"; safe_data := "0xdata";
                  safe_operation := Call |}) (inr (SafeTransactionHandle 0));
     Called (executeTransaction (SafeSdkHandle 0) (SafeTransactionHandle 0))
       (inr Sim.tx0)].
Proof.
  destruct (executeTxn_routing (P:=Sim.platform) (Some "0xSafe")) as (Hsafe & _ & _).
  assert (Hok : outcome (executeTxn (P:=Sim.platform) (Some "0xSafe") Demo.populated
                           (Sim.start Demo.chain)) = Ok Sim.tx0)
    by (vm_compute; reflexivity).
  split_and!; [reflexivity|exact Hok|].
  destruct (Hsafe "0xSafe" Demo.populated (Sim.start Demo.chain) Sim.tx0 eq_refl Hok)
    as (signers & safeSdk & data & safeTransaction & _ & Htrace).
  vm_compute. reflexivity.
Defined.

(** C7, as stated, fails on the creations of contracts: with a multisig
    configured, [deploy] still sends them with [factory.deploy], from the
    deployer and not through the Safe. *)
Lemma creations_bypass_the_safe :
  ~ relayed_through_safe
      (trace (deploy (P:=Sim.platform) (Some "0xSafe") Demo.config None
                Demo.extraArgs (Sim.start Demo.chain))).
Proof.
  intros H.
  assert (Hin : factory_deploy {| factoryOf := "SmartWalletImplementation" |}
                  [ArgString "0xSafe"]
                ∈ calls (trace (deploy (P:=Sim.platform) (Some "0xSafe") Demo.config
                                  None Demo.extraArgs (Sim.start Demo.chain)))).
  { vm_compute. do 3 apply list_elem_of_further. apply list_elem_of_here. }
  specialize (H _ Hin eq_refl). discriminate H.
Qed.



Lemma reconciliation_ignores_case_witness :
  Forall2 case_variant (Cfg.supportedWallets Demo.config)
    (Cfg.supportedWallets Demo.config')
  /\
  Forall2 case_variant ["0xaa"; "0xBB"] ["0xAA"; "0xbb"]
  /\
  emitted (trace (updateProxy_wallets (P:=Sim.platform) None Demo.config
                    Demo.contracts Demo.extraArgs (Sim.start Demo.chain)))
  = emitted (trace (updateProxy_wallets (P:=Sim.platform) None Demo.config'
                      Demo.contracts Demo.extraArgs (Sim.start Demo.chain'))).
Proof.
  destruct (reconciliation_ignores_case (P:=Sim.platform) None Demo.config
              Demo.config' Demo.contracts Demo.contracts Demo.extraArgs)
    as (Hwallets & _).
  assert (Hcfg : Forall2 case_variant (Cfg.supportedWallets Demo.config)
                   (Cfg.supportedWallets Demo.config'))
    by (simpl; case_variants).
  assert (Hchain : Forall2 case_variant ["0xaa"; "0xBB"] ["0xAA"; "0xbb"])
    by case_variants.
  split_and!; [exact Hcfg|exact Hchain|].
  destruct (Hwallets Hcfg) as [Hsame _].
  apply (Hsame (Sim.start Demo.chain) (Sim.start Demo.chain')
           ["0xaa"; "0xBB"] ["0xAA"; "0xbb"] Demo.chain Demo.chain');
    first [reflexivity | exact Hchain | vm_compute; reflexivity].
Defined.

(** C8 at the failing input: an array of one contract. *)
Example convertToAddressObject_loses_contracts :
  convertToAddressObject (OArray [OLeaf Demo.proxy]) = OArray [OUndefined]
  /\ address_tree (OArray [OLeaf Demo.proxy]) = OArray [OLeaf "0xProxy"].
Proof.
  split; [|reflexivity].
  simp convertToAddressObject. cbn [map].
  rewrite (array_get_element [OLeaf Demo.proxy] (OLeaf Demo.proxy)).
  by simp convertToAddressObject.
Qed.


(** ** Further runs on the simulated chain *)

(** The run [r] returns: name what it returns. *)
Ltac returns r k Hk :=
  let Hr := fresh "Hr" in
  assert (Hr : match outcome r with Ok _ => True | Throw _ => False end)
    by (vm_compute; exact I);
  destruct (outcome r) as [k|?] eqn:Hk; [clear Hr|destruct Hr].

(** A call is among those of an executed run. *)
Ltac among :=
  vm_compute; repeat first [apply list_elem_of_here | apply list_elem_of_further].

Lemma executeTxn_safe_ignores_gas_and_sender_witness :
  JS.truthy (Some "0xSafe") = true /\
  executeTxn (P:=Sim.platform) (Some "0xSafe") Demo.populated (Sim.start Demo.chain) =
  executeTxn (P:=Sim.platform) (Some "0xSafe") Sample.resent (Sim.start Demo.chain).
Proof.
  split; [reflexivity|].
  apply executeTxn_safe_ignores_gas_and_sender; reflexivity.
Defined.

Lemma executeTxn_needs_data_and_signer_witness :
  JS.defined (Some "0xSafe") = Some "0xSafe" /\
  txn_data Sample.empty_txn = None /\
  (exists e, outcome (executeTxn (P:=Sim.platform) (Some "0xSafe") Sample.empty_txn
                        (Sim.start Demo.chain)) = Throw e) /\
  milestones (trace (executeTxn (P:=Sim.platform) (Some "0xSafe") Sample.empty_txn
                       (Sim.start Demo.chain))) = [].
Proof.
  destruct (executeTxn_needs_data_and_signer (P:=Sim.platform) (Some "0xSafe")
              Sample.empty_txn (Sim.start Demo.chain)) as [H _].
  destruct (H "0xSafe" eq_refl eq_refl) as (He & Hm & _).
  split_and!; [reflexivity|reflexivity|exact He|exact Hm].
Defined.

Lemma falsy_multisig_is_no_multisig_witness :
  JS.defined (Some "") = JS.defined None /\
  deploy (P:=Sim.platform) (Some "") Demo.config None Demo.extraArgs =
  deploy (P:=Sim.platform) None Demo.config None Demo.extraArgs.
Proof.
  split; [reflexivity|]. apply falsy_multisig_is_no_multisig. reflexivity.
Defined.


Lemma verification_on_request_only_witness :
  Cfg.autoVerifyContract Sample.quiet = false /\
  deployed (Sample.fresh "SmartWalletProxy")
    ∈ calls (trace (deploy (P:=Sim.platform) None Sample.quiet None Demo.extraArgs
                      (Sim.start Demo.chain))) /\
  is_verification (deployed (Sample.fresh "SmartWalletProxy")) = false.
Proof.
  assert (Hin : deployed (Sample.fresh "SmartWalletProxy")
                  ∈ calls (trace (deploy (P:=Sim.platform) None Sample.quiet None
                                    Demo.extraArgs (Sim.start Demo.chain))))
    by among.
  split_and!; [reflexivity|exact Hin|].
  exact (verification_on_request_only (P:=Sim.platform) None Sample.quiet None
           Demo.extraArgs (Sim.start Demo.chain) eq_refl _ Hin).
Defined.

Lemma deployContracts_result_witness :
  exists k,
    outcome (deployContracts (P:=Sim.platform) Demo.config (Some Sample.record)
               "0xAdmin" (Sim.start Demo.chain)) = Ok k /\
    follows Demo.config k /\
    reuses (Some Sample.record) k /\
    renews (Some Sample.record) k
      (trace (deployContracts (P:=Sim.platform) Demo.config (Some Sample.record)
                "0xAdmin" (Sim.start Demo.chain))).
Proof.
  pose proof (deployContracts_result (P:=Sim.platform) Demo.config
                (Some Sample.record) "0xAdmin" (Sim.start Demo.chain)) as H.
  cbv zeta in H.
  returns (deployContracts (P:=Sim.platform) Demo.config (Some Sample.record)
             "0xAdmin" (Sim.start Demo.chain)) k Hk.
  exists k. split; [reflexivity|]. exact (H k eq_refl).
Defined.

Lemma deployContracts_deployments_witness :
  exists k,
    outcome (deployContracts (P:=Sim.platform) Demo.config None "0xAdmin"
               (Sim.start Demo.chain)) = Ok k /\
    deployments (trace (deployContracts (P:=Sim.platform) Demo.config None "0xAdmin"
                          (Sim.start Demo.chain)))
      = planned Demo.config None "0xAdmin" k.
Proof.
  pose proof (deployContracts_deployments (P:=Sim.platform) Demo.config None
                "0xAdmin" (Sim.start Demo.chain)) as H.
  cbv zeta in H.
  returns (deployContracts (P:=Sim.platform) Demo.config None "0xAdmin"
             (Sim.start Demo.chain)) k Hk.
  exists k. split; [reflexivity|]. exact (H k eq_refl).
Defined.

Lemma complete_record_deploys_nothing_witness :
  complete Demo.config (Some Sample.record) = true /\
  calls (trace (deployContracts (P:=Sim.platform) Demo.config (Some Sample.record)
                  "0xAdmin" (Sim.start Demo.chain)))
    = map getContractFactory
        ["SmartWalletImplementation"; "FetchTokenBalances"; "FetchAaveDataWrapper";
         "UniSwap"; "CompoundLending"; "AaveV1Lending"; "SmartWalletProxy"].
Proof.
  split; [reflexivity|].
  destruct (complete_record_deploys_nothing (P:=Sim.platform) Demo.config
              (Some Sample.record) "0xAdmin" (Sim.start Demo.chain) eq_refl)
    as [_ H].
  returns (deployContracts (P:=Sim.platform) Demo.config (Some Sample.record)
             "0xAdmin" (Sim.start Demo.chain)) k Hk.
  exact (H k eq_refl).
Defined.

Lemma summary_read_back_witness :
  address (smartWalletProxy Demo.contracts) <> "" /\
  exists k',
    outcome (deployContracts (P:=Sim.platform) Demo.config
               (Some (existing_of (convertToAddressObject
                                     (contracts_object Demo.contracts))))
               "0xAdmin" (Sim.start Demo.chain)) = Ok k' /\
    smartWalletProxy k' = attached "0xProxy" /\
    aaveV1 (lendingContracts k') = Some (Sample.fresh "AaveV1Lending") /\
    Created (Sample.fresh "AaveV1Lending")
      ∈ milestones
          (trace (deployContracts (P:=Sim.platform) Demo.config
                    (Some (existing_of (convertToAddressObject
                                          (contracts_object Demo.contracts))))
                    "0xAdmin" (Sim.start Demo.chain))).
Proof.
  assert (Hne : address (smartWalletProxy Demo.contracts) <> "") by discriminate.
  split; [exact Hne|].
  destruct (summary_read_back (P:=Sim.platform) Demo.contracts) as [_ H].
  specialize (H Demo.config "0xAdmin" (Sim.start Demo.chain)). cbv zeta in H.
  assert (Hk : outcome (deployContracts (P:=Sim.platform) Demo.config
                          (Some (existing_of (convertToAddressObject
                                                (contracts_object Demo.contracts))))
                          "0xAdmin" (Sim.start Demo.chain))
               = Ok {| smartWalletImplementation := attached "0xImpl";
                       smartWalletProxy := attached "0xProxy";
                       fetchTokenBalances := attached "0xBalances";
                       fetchAaveDataWrapper := attached "0xWrapper";
                       swapContracts :=
                         {| uniSwap := Some (attached "0xUni"); uniSwapV3 := None;
                            kyberProxy := None; kyberDmm := None |};
                       lendingContracts :=
                         {| compoundLending := Some (attached "0xCompound");
                            aaveV1 := Some (Sample.fresh "AaveV1Lending");
                            aaveV2 := None; aaveAMM := None |} |})
    by (vm_compute; reflexivity).
  eexists. split; [exact Hk|].
  destruct (H _ Hk) as [Hproxy Haave].
  split_and!; [exact (Hproxy Hne)|reflexivity|].
  apply Haave. left. reflexivity.
Defined.

Lemma transactions_built_with_witness :
  populateTransaction (Sample.fresh "AaveV1Lending")
    (Abi.updateAaveDataV1 "0xPool" "0xCore" 157 ["0xDai"]) None
    ∈ calls (trace (deploy (P:=Sim.platform) None Demo.config None Demo.extraArgs
                      (Sim.start Demo.chain))) /\
  built_with Demo.extraArgs
    (populateTransaction (Sample.fresh "AaveV1Lending")
       (Abi.updateAaveDataV1 "0xPool" "0xCore" 157 ["0xDai"]) None) = true.
Proof.
  assert (Hin : populateTransaction (Sample.fresh "AaveV1Lending")
                  (Abi.updateAaveDataV1 "0xPool" "0xCore" 157 ["0xDai"]) None
                  ∈ calls (trace (deploy (P:=Sim.platform) None Demo.config None
                                    Demo.extraArgs (Sim.start Demo.chain))))
    by among.
  split; [exact Hin|].
  exact (transactions_built_with (P:=Sim.platform) None Demo.config None
           Demo.extraArgs (Sim.start Demo.chain) _ Hin).
Defined.

Lemma deploy_admin_witness :
  exists k,
    outcome (deploy (P:=Sim.platform) (Some "0xSafe") Demo.config None Demo.extraArgs
               (Sim.start Demo.chain)) = Ok k /\
    exists deployer signers deployerAddress rest,
      trace (deploy (P:=Sim.platform) (Some "0xSafe") Demo.config None Demo.extraArgs
               (Sim.start Demo.chain))
        = Called getSigners (inr (deployer :: signers))
          :: Called (getAddress deployer) (inr deployerAddress) :: rest /\
      deployments (trace (deploy (P:=Sim.platform) (Some "0xSafe") Demo.config None
                            Demo.extraArgs (Sim.start Demo.chain)))
        = planned Demo.config None (JS.or_else (Some "0xSafe") deployerAddress) k.
Proof.
  pose proof (deploy_admin (P:=Sim.platform) (Some "0xSafe") Demo.config None
                Demo.extraArgs (Sim.start Demo.chain)) as H.
  cbv zeta in H.
  returns (deploy (P:=Sim.platform) (Some "0xSafe") Demo.config None Demo.extraArgs
             (Sim.start Demo.chain)) k Hk.
  exists k. split; [reflexivity|]. exact (H k eq_refl).
Defined.

Lemma deploy_touches_proxy_and_children_witness :
  exists k,
    outcome (deploy (P:=Sim.platform) None Demo.config None Demo.extraArgs
               (Sim.start Demo.chain)) = Ok k /\
    call (Sample.fresh "CompoundLending") Abi.compoundData
      ∈ calls (trace (deploy (P:=Sim.platform) None Demo.config None Demo.extraArgs
                        (Sim.start Demo.chain))) /\
    (Sample.fresh "CompoundLending" = smartWalletProxy k \/
     Sample.fresh "CompoundLending" ∈ children k).
Proof.
  pose proof (deploy_touches_proxy_and_children (P:=Sim.platform) None Demo.config
                None Demo.extraArgs (Sim.start Demo.chain)) as H.
  cbv zeta in H.
  assert (Hin : call (Sample.fresh "CompoundLending") Abi.compoundData
                  ∈ calls (trace (deploy (P:=Sim.platform) None Demo.config None
                                    Demo.extraArgs (Sim.start Demo.chain))))
    by among.
  returns (deploy (P:=Sim.platform) None Demo.config None Demo.extraArgs
             (Sim.start Demo.chain)) k Hk.
  exists k. split_and!; [reflexivity|exact Hin|].
  exact (H k eq_refl _ _ Hin eq_refl).
Defined.

Lemma deploy_ends_with_summary_witness :
  exists k,
    outcome (deploy (P:=Sim.platform) None Demo.config None Demo.extraArgs
               (Sim.start Demo.chain)) = Ok k /\
    exists t0,
      trace (deploy (P:=Sim.platform) None Demo.config None Demo.extraArgs
               (Sim.start Demo.chain))
        = t0 ++ [Printed [LStr "";
                          LJson (json_addresses
                                   (convertToAddressObject (contracts_object k)))];
                 Printed [LStr (newline +:+ "Deployment complete!")]].
Proof.
  pose proof (deploy_ends_with_summary (P:=Sim.platform) None Demo.config None
                Demo.extraArgs (Sim.start Demo.chain)) as H.
  cbv zeta in H.
  returns (deploy (P:=Sim.platform) None Demo.config None Demo.extraArgs
             (Sim.start Demo.chain)) k Hk.
  exists k. split; [reflexivity|]. exact (H k eq_refl).
Defined.

Lemma fantom_deploys_no_swap_or_lending_witness :
  FantomConfig ["0xW1"] !! "fantom_mainnet" = Some (fantom_mainnet ["0xW1"]) /\
  exists k,
    outcome (deploy (P:=Sim.platform) None (fantom_mainnet ["0xW1"]) None
               Demo.extraArgs (Sim.start Demo.chain)) = Ok k /\
    swapContracts k = {| uniSwap := None; uniSwapV3 := None;
                         kyberProxy := None; kyberDmm := None |} /\
    lendingContracts k = {| compoundLending := None; aaveV1 := None;
                            aaveV2 := None; aaveAMM := None |}.
Proof.
  assert (Hnc : FantomConfig ["0xW1"] !! "fantom_mainnet"
                = Some (fantom_mainnet ["0xW1"]))
    by (unfold FantomConfig; apply lookup_singleton_Some; split; reflexivity).
  split; [exact Hnc|].
  pose proof (fantom_deploys_no_swap_or_lending (P:=Sim.platform) ["0xW1"]
                (fantom_mainnet ["0xW1"]) None None Demo.extraArgs
                (Sim.start Demo.chain)) as H.
  cbv zeta in H.
  returns (deploy (P:=Sim.platform) None (fantom_mainnet ["0xW1"]) None
             Demo.extraArgs (Sim.start Demo.chain)) k Hk.
  exists k. split; [reflexivity|].
  destruct (H k Hnc eq_refl) as (Hs & Hl & _). exact (conj Hs Hl).
Defined.
